(** * S7Client: datablock layout, codec and request scheduling

    A shallow embedding of [index.js] (the S7 datablock client): the layout
    calculator [DBStructure_calculateSize], the decoder [DBStructure_parse],
    the encoder [DBStructure_encode], and the scheduling layer
    ([read_with_retries], [write_with_retries], [SequentialRequests],
    [getS7Data], [setS7Data], [readPLC], [writePLC], [PLC_handler]).

    Conventions.
    - A JavaScript number that is an integer is a [Z]; JavaScript's [%] is
      [Z.rem] (sign of the dividend) and [|], [&], [<<], [>>] are the [Z]
      bit operations after the 32-bit conversions written out below.
    - A [Buffer] is a list of bytes, each a [Z] in [0, 255]; a read or write
      outside the buffer throws, which the model returns as [None].
    - An item offset is the decimal string [byte.bit] the source builds with
      [toFixed(1)]; the model keeps it as the integer [10 * byte + bit], and
      datablock offsets use the same unit. *)

From Stdlib Require Import ZArith String Ascii List Bool Lia Sorted.
From stdpp Require Import base option list strings gmap.

Open Scope Z_scope.

#[local] Set Warnings "-register-all".

(** ** JavaScript helpers *)

(** [n + n % 2] with JavaScript's remainder. *)
Definition roundUpToEven (n : Z) : Z := n + Z.rem n 2.

(** [String.prototype.toLocaleUpperCase] on the ASCII letters. *)
Definition upper_ascii (c : ascii) : ascii :=
  let n := N_of_ascii c in
  if ((97 <=? n) && (n <=? 122))%N then ascii_of_N (n - 32) else c.

Fixpoint toLocaleUpperCase (s : string) : string :=
  match s with
  | EmptyString => EmptyString
  | String c r => String (upper_ascii c) (toLocaleUpperCase r)
  end.

(** [o || d] for an optional number: [undefined] and [0] are falsy. *)
Definition or_default (o : option Z) (d : Z) : Z :=
  match o with
  | Some z => if z =? 0 then d else z
  | None => d
  end.

(** [Math.ceil(a / b)] for integers [a] and [b > 0]. *)
Definition ceil_div (a b : Z) : Z := (a + b - 1) / b.

(** ** Data model *)

(** A decoded or to-be-encoded value ([S7DBDataValueType], plus the shapes the
    decoder produces on the way).  [VStr] holds UTF-16 code units.  [VReal32]
    and [VReal64] are numbers carried as their IEEE-754 bit pattern: what
    [readFloatBE] and [readDoubleBE] return.  [VDiag] is the diagnostic string
    of a failed [parseValueFromBuffer] (its type and offset; the runtime's
    error text is not kept).  [VFields] is the list of sub-entries of an
    [IEC_TIMER]. *)
Inductive S7Value : Type :=
| VUndef
| VBool (b : bool)
| VNum (z : Z)
| VNaN
| VReal32 (bits : Z)
| VReal64 (bits : Z)
| VStr (units : list Z)
| VDiag (type : string) (offset : Z)
| VArr (elems : list S7Value)
| VFields (fields : list (string * string * S7Value)).

(** [S7DBStructureItem]. *)
Record S7DBStructureItem : Type := mkItem {
  item_name : string;
  item_type : option string;
  item_strlen : option Z;
  item_size : option Z;
  item_value : S7Value;
  item_offset : option Z
}.

(** [S7DBData]: one entry of the decoder's output. *)
Record S7DBData : Type := mkData {
  data_name : string;
  data_type : string;
  data_value : S7Value
}.

Definition numberTypes : list string :=
  ["SINT"; "USINT"; "INT"; "UINT"; "WORD"; "DINT"; "UDINT"; "DWORD"; "REAL";
   "FLOAT"; "LREAL"; "DOUBLE"; "BIT"; "BYTE"; "TIME"; "TIMER"; "S5TIME"]%string.

Definition objectTypes : list string := ["IEC_TIMER"]%string.

Definition includes (l : list string) (s : string) : bool :=
  existsb (String.eqb s) l.

Definition typeIsNumber (type : string) : bool :=
  includes numberTypes (toLocaleUpperCase type).

Definition typeIsObject (type : string) : bool :=
  includes objectTypes (toLocaleUpperCase type).

Definition isBoolean (type : string) : bool :=
  String.eqb type "BIT" || String.eqb type "BOOL".

Definition isString (type : string) : bool := String.eqb type "STRING".

Definition typeList : list (string * Z) :=
  [("SINT", 1); ("USINT", 1); ("INT", 2); ("UINT", 2); ("WORD", 2);
   ("DINT", 4); ("UDINT", 4); ("DWORD", 4); ("REAL", 4); ("FLOAT", 4);
   ("LREAL", 8); ("DOUBLE", 8); ("CHAR", 1); ("STRING", 256); ("BIT", 1);
   ("BOOL", 1); ("BYTE", 1); ("TIME", 4); ("TIMER", 4); ("S5TIME", 2);
   ("IEC_TIMER", 16)]%string.

Fixpoint assoc_string (k : string) (l : list (string * Z)) : option Z :=
  match l with
  | [] => None
  | (k', v) :: r => if String.eqb k k' then Some v else assoc_string k r
  end.

(** [typeList[(type || '').toLocaleUpperCase()] || 2]. *)
Definition variableTypeSize (type : string) : Z :=
  or_default (assoc_string (toLocaleUpperCase type) typeList) 2.

(** ** Layout calculator *)

(** [item.type ? item.type.toLocaleUpperCase() : 'UINT']. *)
Definition normal_type (item : S7DBStructureItem) : string :=
  match item_type item with
  | Some t => if String.eqb t "" then "UINT"%string else toLocaleUpperCase t
  | None => "UINT"%string
  end.

(** [item.size && item.size > 0 ? Math.round(item.size) : 1], for an integer
    [size]. *)
Definition normal_size (item : S7DBStructureItem) : Z :=
  match item_size item with
  | Some s => if 0 <? s then s else 1
  | None => 1
  end.

(** One iteration of the loop of [DBStructure_calculateSize]: the cursor
    [(total_size, used_bits)] and the item, both as the iteration leaves
    them. *)
Definition calc_step (start_offset : Z) (st : Z * Z) (item : S7DBStructureItem)
  : (Z * Z) * S7DBStructureItem :=
  let '(total_size, used_bits) := st in
  let type := normal_type item in
  let size := normal_size item in
  let isStr := isString type in
  let isBool := isBoolean type in
  let item_strlen' :=
    if isStr then Some (or_default (item_strlen item) 254) else item_strlen item in
  let strlen_temp := if isStr then or_default item_strlen' 0 + 2 else 0 in
  let strlen := strlen_temp + Z.rem strlen_temp 2 in
  let typesize := if isStr then strlen else variableTypeSize type in
  let '(total_size, used_bits) :=
    if (0 <? used_bits) && negb isBool
    then (if 1 <? typesize then roundUpToEven (total_size + 1) else total_size + 1, 0)
    else (total_size, used_bits) in
  let total_size := if isStr then roundUpToEven total_size else total_size in
  let offset := start_offset + 10 * total_size + used_bits in
  let item' := {| item_name := item_name item;
                  item_type := Some type;
                  item_strlen := item_strlen';
                  item_size := Some size;
                  item_value := item_value item;
                  item_offset := Some offset |} in
  let st' :=
    if 1 <? size then
      let total_size := if 0 <? used_bits then total_size + 1 else total_size in
      let total_size := roundUpToEven total_size in
      let total_size :=
        if isBool then total_size + 2 * ceil_div size 16
        else total_size + typesize * size in
      (roundUpToEven total_size, 0)
    else if isBool then
      let used_bits := used_bits + 1 in
      if 8 <=? used_bits then (total_size + 1, 0) else (total_size, used_bits)
    else
      let '(total_size, used_bits) :=
        if 0 <? used_bits then (total_size + 1, 0) else (total_size, used_bits) in
      let total_size := if 1 <? typesize then roundUpToEven total_size else total_size in
      (total_size + typesize, used_bits) in
  (st', item').

Fixpoint calc_loop (start_offset : Z) (st : Z * Z) (items : list S7DBStructureItem)
  : (Z * Z) * list S7DBStructureItem :=
  match items with
  | [] => (st, [])
  | item :: rest =>
      let '(st1, item') := calc_step start_offset st item in
      let '(st2, rest') := calc_loop start_offset st1 rest in
      (st2, item' :: rest')
  end.

(** The two statements after the loop. *)
Definition calc_finish (st : Z * Z) : Z :=
  let '(total_size, used_bits) := st in
  roundUpToEven (if 0 <? used_bits then total_size + 1 else total_size).

(** [DBStructure_calculateSize(items, start_offset)]: the returned total and
    the items as the call leaves them (the source updates them in place). *)
Definition DBStructure_calculateSize (items : list S7DBStructureItem) (start_offset : Z)
  : Z * list S7DBStructureItem :=
  let '(st, items') := calc_loop start_offset (0, 0) items in
  (calc_finish st, items').

(** ** Numbers and strings of the runtime *)

(** A JavaScript number seen as a value: NaN, an infinity, or the finite
    number [(-1)^neg * m * 2^e] with [0 <= m]. *)
Inductive JSNumber : Type :=
| JNaN
| JInf (neg : bool)
| JFin (neg : bool) (m : Z) (e : Z).

Definition signed (neg : bool) (m : Z) : Z := if neg then - m else m.

Definition number_of_Z (z : Z) : JSNumber := JFin (z <? 0) (Z.abs z) 0.

(** The IEEE-754 binary format with [mbits] fraction bits and [ebits]
    exponent bits: the number a bit pattern stands for. *)
Definition decode_float (mbits ebits bits : Z) : JSNumber :=
  let neg := Z.testbit bits (mbits + ebits) in
  let expf := Z.land (Z.shiftr bits mbits) (Z.ones ebits) in
  let frac := Z.land bits (Z.ones mbits) in
  let bias := Z.ones (ebits - 1) in
  if expf =? Z.ones ebits then (if frac =? 0 then JInf neg else JNaN)
  else if expf =? 0 then JFin neg frac (1 - bias - mbits)
  else JFin neg (frac + 2 ^ mbits) (expf - bias - mbits).

(** The bit pattern of a number in that format, rounding to nearest, ties to
    even, and overflowing to infinity. *)
Definition encode_float (mbits ebits : Z) (x : JSNumber) : Z :=
  let signbit (neg : bool) := if neg then 2 ^ (mbits + ebits) else 0 in
  let inf := Z.shiftl (Z.ones ebits) mbits in
  match x with
  | JNaN => inf + 2 ^ (mbits - 1)
  | JInf neg => signbit neg + inf
  | JFin neg m e =>
      if m =? 0 then signbit neg
      else
        let emin := 1 - Z.ones (ebits - 1) in
        let top := e + Z.log2 m in
        let q := Z.max top emin - mbits in
        let M :=
          if q <=? e then Z.shiftl m (e - q)
          else
            let sh := q - e in
            let quo := Z.shiftr m sh in
            let r := Z.land m (Z.ones sh) in
            let half := 2 ^ (sh - 1) in
            if (half <? r) || ((r =? half) && Z.odd quo) then quo + 1 else quo in
        let mag := Z.shiftl (Z.max (top - emin) 0) mbits + M in
        signbit neg + (if inf <=? mag then inf else mag)
  end.

(** [x < k] and [x > k] for an integer [k]; false on NaN, as in JavaScript. *)
Definition js_lt (x : JSNumber) (k : Z) : bool :=
  match x with
  | JNaN => false
  | JInf neg => neg
  | JFin neg m e =>
      if 0 <=? e then signed neg (Z.shiftl m e) <? k
      else signed neg m <? Z.shiftl k (- e)
  end.

Definition js_gt (x : JSNumber) (k : Z) : bool :=
  match x with
  | JNaN => false
  | JInf neg => negb neg
  | JFin neg m e =>
      if 0 <=? e then k <? signed neg (Z.shiftl m e)
      else Z.shiftl k (- e) <? signed neg m
  end.

(** The integer part, towards zero; [0] for NaN and the infinities (what the
    integer conversions of the runtime give before wrapping). *)
Definition js_trunc (x : JSNumber) : Z :=
  match x with
  | JNaN | JInf _ => 0
  | JFin neg m e => signed neg (if 0 <=? e then Z.shiftl m e else Z.shiftr m (- e))
  end.

Definition js_isFinite (x : JSNumber) : bool :=
  match x with JFin _ _ _ => true | _ => false end.

Definition js_is_integer (x : JSNumber) : bool :=
  match x with
  | JFin _ m e => (0 <=? e) || (Z.land m (Z.ones (- e)) =? 0)
  | _ => false
  end.

(** [ToInt32]. *)
Definition to_int32 (z : Z) : Z := (z + 2 ^ 31) mod 2 ^ 32 - 2 ^ 31.

(** Digits of [n >= 0] in base [base], most significant first. *)
Fixpoint digits_fuel (base : Z) (fuel : nat) (n : Z) (acc : list Z) : list Z :=
  match fuel with
  | O => acc
  | S k =>
      if n <? base then n :: acc
      else digits_fuel base k (n / base) (n mod base :: acc)
  end.

Definition digits (base n : Z) : list Z :=
  digits_fuel base (S (Z.to_nat (Z.log2 n))) n [].

(** The value of a digit list read in base [base]. *)
Definition undigits (base : Z) (ds : list Z) : Z :=
  fold_left (fun acc d => acc * base + d) ds 0.

(** Code unit of a digit: ['0'..'9'], ['a'..'f']. *)
Definition digit_unit (d : Z) : Z := if d <? 10 then 48 + d else 87 + d.

Definition units_of_string (s : string) : list Z :=
  map (fun c => Z.of_N (N_of_ascii c)) (list_ascii_of_string s).

(** [Number.prototype.toString()] of an integer. *)
Definition Z_to_units (z : Z) : list Z :=
  (if z <? 0 then [45] else []) ++ map digit_unit (digits 10 (Z.abs z)).

Definition all_decimal (us : list Z) : bool :=
  forallb (fun u => (48 <=? u) && (u <=? 57)) us.

(** [Number(s)] for a string of code units: the empty string is [0] and an
    optionally signed run of decimal digits is its value.  Every other
    string is read as NaN; the other numeric literals of the language
    (blanks, fractions, exponents, radix prefixes, [Infinity]) are not
    modelled. *)
Definition units_to_number (us : list Z) : option Z :=
  match us with
  | [] => Some 0
  | 45 :: (_ :: _) as r =>
      if all_decimal r then Some (- undigits 10 (map (fun u => u - 48) r)) else None
  | _ =>
      if all_decimal us then Some (undigits 10 (map (fun u => u - 48) us)) else None
  end.

(** The number a numeric value stands for. *)
Definition number_view (v : S7Value) : JSNumber :=
  match v with
  | VNum z => number_of_Z z
  | VReal32 bits => decode_float 23 8 bits
  | VReal64 bits => decode_float 52 11 bits
  | _ => JNaN
  end.

(** [value + ''].  A number that is not an integer is rendered by its sign
    and integer part followed by a point; its fraction digits are not
    modelled.  The diagnostic string keeps its fixed prefix. *)
Fixpoint to_units (v : S7Value) : list Z :=
  match v with
  | VUndef => units_of_string "undefined"
  | VBool b => units_of_string (if b then "true" else "false")
  | VNum z => Z_to_units z
  | VNaN => units_of_string "NaN"
  | VReal32 _ | VReal64 _ =>
      match number_view v with
      | JNaN => units_of_string "NaN"
      | JInf neg => units_of_string (if neg then "-Infinity" else "Infinity")
      | JFin neg m e as x =>
          if js_is_integer x then Z_to_units (js_trunc x)
          else (if neg then [45] else []) ++ map digit_unit (digits 10 (Z.abs (js_trunc x))) ++ [46]
      end
  | VStr us => us
  | VDiag type offset =>
      units_of_string "S7 internal parseValueFromBuffer " ++ units_of_string type
        ++ [32] ++ Z_to_units offset ++ units_of_string " - "
  | VArr elems =>
      (fix join (l : list S7Value) : list Z :=
         match l with
         | [] => []
         | [x] => match x with VUndef => [] | _ => to_units x end
         | x :: r => match x with VUndef => [] | _ => to_units x end ++ [44] ++ join r
         end) elems
  | VFields fields =>
      (fix join (l : list (string * string * S7Value)) : list Z :=
         match l with
         | [] => []
         | [_] => units_of_string "[object Object]"
         | _ :: r => units_of_string "[object Object]," ++ join r
         end) fields
  end.

(** [+value], as a value: one of [VNum], [VNaN], [VReal32], [VReal64]. *)
Definition to_number (v : S7Value) : S7Value :=
  match v with
  | VUndef => VNaN
  | VBool b => VNum (if b then 1 else 0)
  | VNum _ | VNaN | VReal32 _ | VReal64 _ => v
  | VStr _ | VDiag _ _ | VArr _ | VFields _ =>
      match units_to_number (to_units v) with
      | Some z => VNum z
      | None => VNaN
      end
  end.

(** [isFinite(+value)]. *)
Definition isFinite (v : S7Value) : bool := js_isFinite (number_view (to_number v)).

(** [!!value]. *)
Definition truthy (v : S7Value) : bool :=
  match v with
  | VUndef | VNaN => false
  | VBool b => b
  | VNum z => negb (z =? 0)
  | VReal32 _ | VReal64 _ =>
      match number_view v with
      | JNaN => false
      | JInf _ => true
      | JFin _ m _ => negb (m =? 0)
      end
  | VStr us => match us with [] => false | _ => true end
  | VDiag _ _ | VArr _ | VFields _ => true
  end.

(** ** Buffer *)

Abbreviation Buffer := (list Z).

(** [Buffer.alloc(n)]: zero-filled; throws on a negative size. *)
Definition Buffer_alloc (n : Z) : option Buffer :=
  if n <? 0 then None else Some (replicate (Z.to_nat n) 0).

(** The [n] bytes from [offset], or [None] where the runtime throws
    (the range is not inside the buffer). *)
Definition slice (buffer : Buffer) (offset : Z) (n : nat) : option (list Z) :=
  if (0 <=? offset) && (offset + Z.of_nat n <=? Z.of_nat (length buffer))
  then Some (take n (drop (Z.to_nat offset) buffer))
  else None.

(** The buffer with [bytes] stored from [offset], or [None] where the
    runtime throws. *)
Definition store (buffer : Buffer) (offset : Z) (bytes : list Z) : option Buffer :=
  if (0 <=? offset) && (offset + Z.of_nat (length bytes) <=? Z.of_nat (length buffer))
  then Some (take (Z.to_nat offset) buffer ++ bytes
               ++ drop (Z.to_nat offset + length bytes) buffer)
  else None.

(** Big-endian value of a byte list, and the [n] big-endian bytes of a
    value. *)
Definition be_value (bytes : list Z) : Z := undigits 256 bytes.

Fixpoint be_bytes (n : nat) (v : Z) : list Z :=
  match n with
  | O => []
  | S k => (v / 256 ^ Z.of_nat k) mod 256 :: be_bytes k v
  end.

Definition readUIntBE (n : nat) (buffer : Buffer) (offset : Z) : option Z :=
  be_value <$> slice buffer offset n.

Definition readIntBE (n : nat) (buffer : Buffer) (offset : Z) : option Z :=
  (fun u => if 2 ^ (8 * Z.of_nat n - 1) <=? u then u - 2 ^ (8 * Z.of_nat n) else u)
    <$> readUIntBE n buffer offset.

Definition readUInt8 := readUIntBE 1.
Definition readInt8 := readIntBE 1.
Definition readUInt16BE := readUIntBE 2.
Definition readInt16BE := readIntBE 2.
Definition readUInt32BE := readUIntBE 4.
Definition readInt32BE := readIntBE 4.

Definition readFloatBE (buffer : Buffer) (offset : Z) : option S7Value :=
  VReal32 <$> readUIntBE 4 buffer offset.

Definition readDoubleBE (buffer : Buffer) (offset : Z) : option S7Value :=
  VReal64 <$> readUIntBE 8 buffer offset.

(** The integer writes: [value] outside [min, max] throws (NaN passes both
    comparisons and is stored as [0]); the stored bytes are the integer part
    modulo [2^(8n)]. *)
Definition writeIntBE (n : nat) (min max : Z) (buffer : Buffer) (value : S7Value)
    (offset : Z) : option Buffer :=
  let x := number_view (to_number value) in
  if js_gt x max || js_lt x min then None
  else store buffer offset (be_bytes n (js_trunc x mod 2 ^ (8 * Z.of_nat n))).

Definition writeUInt8 := writeIntBE 1 0 255.
Definition writeInt8 := writeIntBE 1 (-128) 127.
Definition writeUInt16BE := writeIntBE 2 0 65535.
Definition writeInt16BE := writeIntBE 2 (-32768) 32767.
Definition writeUInt32BE := writeIntBE 4 0 4294967295.
Definition writeInt32BE := writeIntBE 4 (-2147483648) 2147483647.

Definition writeFloatBE (buffer : Buffer) (value : S7Value) (offset : Z) : option Buffer :=
  let bits :=
    match to_number value with
    | VReal32 b => b
    | x => encode_float 23 8 (number_view x)
    end in
  store buffer offset (be_bytes 4 bits).

Definition writeDoubleBE (buffer : Buffer) (value : S7Value) (offset : Z) : option Buffer :=
  let bits :=
    match to_number value with
    | VReal64 b => b
    | x => encode_float 52 11 (number_view x)
    end in
  store buffer offset (be_bytes 8 bits).

(** ** Decoder *)

(** The cases of the two [switch] statements over the upper-cased type. *)
Inductive TypeCase : Type :=
| C_BIT | C_BOOL | C_BYTE | C_SINT | C_USINT | C_INT | C_UINT | C_WORD
| C_DINT | C_UDINT | C_DWORD | C_REAL | C_FLOAT | C_LREAL | C_DOUBLE
| C_CHAR | C_STRING | C_TIME | C_TIMER | C_S5TIME | C_IEC_TIMER | C_default.

Definition type_cases : list (string * TypeCase) :=
  [("BIT", C_BIT); ("BOOL", C_BOOL); ("BYTE", C_BYTE); ("SINT", C_SINT);
   ("USINT", C_USINT); ("INT", C_INT); ("UINT", C_UINT); ("WORD", C_WORD);
   ("DINT", C_DINT); ("UDINT", C_UDINT); ("DWORD", C_DWORD); ("REAL", C_REAL);
   ("FLOAT", C_FLOAT); ("LREAL", C_LREAL); ("DOUBLE", C_DOUBLE);
   ("CHAR", C_CHAR); ("STRING", C_STRING); ("TIME", C_TIME);
   ("TIMER", C_TIMER); ("S5TIME", C_S5TIME); ("IEC_TIMER", C_IEC_TIMER)]%string.

(** The case selected by [(type || 'UINT').toLocaleUpperCase()]. *)
Definition type_case (type : string) : TypeCase :=
  let t := toLocaleUpperCase (if String.eqb type "" then "UINT"%string else type) in
  match find (fun p => String.eqb t (fst p)) type_cases with
  | Some (_, c) => c
  | None => C_default
  end.

(** [((byte >> i) & 1) ? true : false] on the signed byte at
    [offset + add]; the shift count is taken modulo 32. *)
Definition parseBooleanFromBuffer (buffer : Buffer) (offset index : Z) : option bool :=
  let i := Z.rem index 8 in
  let add := if 7 <? index then 1 else 0 in
  byte ← readInt8 buffer (offset + add);
  Some (negb (Z.land (Z.shiftr byte (Z.land i 31)) 1 =? 0)).

Definition parseTimeFromBuffer (buffer : Buffer) (offset : Z) : option Z :=
  readUInt32BE buffer offset.

Definition S5Time_timebase : list Z := [10; 100; 1000; 10000].

(** [+n.toString(16)] for [0 <= n <= 0xFFF]: the hexadecimal digits read as a
    decimal literal.  Digits [0..9] only give their decimal value; a three
    digit text with [e] in the middle is an exponent literal; any other
    text is NaN. *)
Definition hex_text_to_number (n : Z) : option Z :=
  let ds := digits 16 n in
  if forallb (fun d => d <? 10) ds then Some (undigits 10 ds)
  else match ds with
       | [a; 14; b] => if (a <? 10) && (b <? 10) then Some (a * 10 ^ b) else None
       | _ => None
       end.

Definition parseS5TimeFromBuffer (buffer : Buffer) (offset : Z) : option S7Value :=
  raw_value ← readUInt16BE buffer offset;
  let factor := Z.shiftr (Z.land raw_value 12288) 12 in
  Some match hex_text_to_number (Z.land raw_value 4095) with
       | Some value => VNum (value * nth (Z.to_nat factor) S5Time_timebase 0)
       | None => VNaN
       end.

Definition stringTypeSize (buffer : Buffer) (offset : Z) : option Z :=
  max_length ← readUInt8 buffer offset;
  let max_length := max_length + 2 in
  Some (max_length + Z.rem max_length 2).

Definition parseCharacterFromBuffer (buffer : Buffer) (offset : Z) : option S7Value :=
  (fun c => VStr [c]) <$> readUInt8 buffer offset.

(** The loop of [parseStringFromBuffer]: the characters read before the
    first failing read. *)
Fixpoint parse_chars (buffer : Buffer) (offset : Z) (n : nat) : list Z :=
  match n with
  | O => []
  | S k =>
      match readUInt8 buffer offset with
      | Some c => c :: parse_chars buffer (offset + 1) k
      | None => []
      end
  end.

(** [expected_strlen] only feeds a log line. *)
Definition parseStringFromBuffer (buffer : Buffer) (offset : Z) (expected_strlen : Z)
  : S7Value :=
  VStr match stringTypeSize buffer offset with
       | None => []
       | Some _ =>
           match readUInt8 buffer (offset + 1) with
           | None => []
           | Some strlen => parse_chars buffer (offset + 2) (Z.to_nat strlen)
           end
       end.

(** The [try] body of [parseValueFromBuffer] for every case but
    [IEC_TIMER], which [parseValueFromBuffer] below takes first; [None] where
    it throws. *)
Definition parse_scalar (buffer : Buffer) (type : string) (offset i expected_strlen : Z)
  : option S7Value :=
  match type_case type with
  | C_BIT | C_BOOL => VBool <$> parseBooleanFromBuffer buffer offset i
  | C_BYTE | C_USINT => VNum <$> readUInt8 buffer offset
  | C_SINT => VNum <$> readInt8 buffer offset
  | C_INT => VNum <$> readInt16BE buffer offset
  | C_UINT | C_WORD | C_default | C_IEC_TIMER => VNum <$> readUInt16BE buffer offset
  | C_DINT => VNum <$> readInt32BE buffer offset
  | C_UDINT | C_DWORD => VNum <$> readUInt32BE buffer offset
  | C_REAL | C_FLOAT => readFloatBE buffer offset
  | C_LREAL | C_DOUBLE => readDoubleBE buffer offset
  | C_CHAR => parseCharacterFromBuffer buffer offset
  | C_STRING => Some (parseStringFromBuffer buffer offset expected_strlen)
  | C_TIME | C_TIMER => VNum <$> parseTimeFromBuffer buffer offset
  | C_S5TIME => parseS5TimeFromBuffer buffer offset
  end.

(** The [catch] of [parseValueFromBuffer]: the diagnostic string. *)
Definition caught (type : string) (offset : Z) (r : option S7Value) : S7Value :=
  match r with
  | Some v => v
  | None => VDiag type offset
  end.

(** The sub-entries are decoded by [parseValueFromBuffer] on fixed scalar
    types, so each carries its own [catch]. *)
Definition parseIECTimerFromBuffer (buffer : Buffer) (offset : Z)
  : list (string * string * S7Value) :=
  let sub (type : string) (off i : Z) := caught type off (parse_scalar buffer type off i 0) in
  [("start", "UDINT", sub "UDINT" offset 0);
   ("PT", "TIME", sub "TIME" (offset + 4) 0);
   ("ET", "TIME", sub "TIME" (offset + 8) 0);
   ("IN", "BOOL", sub "BOOL" (offset + 12) 0);
   ("Q", "BOOL", sub "BOOL" (offset + 12) 1);
   ("end", "UINT", sub "UINT" (offset + 14) 0)]%string.

Definition parseValueFromBuffer (buffer : Buffer) (type : string)
    (offset i expected_strlen : Z) : S7Value :=
  match type_case type with
  | C_IEC_TIMER => VFields (parseIECTimerFromBuffer buffer offset)
  | _ => caught type offset (parse_scalar buffer type offset i expected_strlen)
  end.

Definition Z_to_string (z : Z) : string :=
  string_of_list_ascii (map (fun u => ascii_of_N (Z.to_N u)) (Z_to_units z)).

(** [size && size > 1]. *)
Definition is_array (size : option Z) : bool :=
  match size with
  | Some s => 1 <? s
  | None => false
  end.

(** [typeIsNumber(type) ? (isFinite(+val) ? +val : 0) : val], as both the
    decoder (on array elements) and the encoder write it. *)
Definition coerce (type : string) (val : S7Value) : S7Value :=
  if typeIsNumber type then (if isFinite val then to_number val else VNum 0) else val.

(** The inner loop of [DBStructure_parse] over the elements of an array
    item: the values pushed and the cursor it leaves. *)
Fixpoint parse_elems (buffer : Buffer) (type : string) (typesize : Z) (n : nat)
    (st : Z * Z) : list S7Value * (Z * Z) :=
  match n with
  | O => ([], st)
  | S k =>
      let '(offset, bits) := st in
      let value := parseValueFromBuffer buffer type offset (bits - 1) typesize in
      let value := coerce type value in
      let pushed := if isBoolean type then VBool (truthy value) else value in
      let st' :=
        if isBoolean type then
          (if 8 <=? bits + 1 then (offset + 1, 0) else (offset, bits + 1))
        else (offset + typesize, bits) in
      let '(rest, st'') := parse_elems buffer type typesize k st' in
      (pushed :: rest, st'')
  end.

(** The flattening of a composite result into [parent.field] entries, or
    [parent[i].field] for an array. *)
Definition flatten_fields (prefix : string) (fields : list (string * string * S7Value))
  : list S7DBData :=
  map (fun '(name, type, value) =>
         {| data_name := prefix +:+ "." +:+ name; data_type := type; data_value := value |})
      fields.

Fixpoint flatten_array (name : string) (i : Z) (elems : list S7Value) : list S7DBData :=
  match elems with
  | [] => []
  | v :: r =>
      match v with
      | VFields fields => flatten_fields (name +:+ "[" +:+ Z_to_string i +:+ "]") fields
      | _ => []
      end ++ flatten_array name (i + 1) r
  end.

(** One iteration of the loop of [DBStructure_parse]; [None] where
    [item.type.toLocaleUpperCase()] throws on a missing type. *)
Definition parse_step (buffer : Buffer) (st : Z * Z) (item : S7DBStructureItem)
  : option ((Z * Z) * list S7DBData * S7DBStructureItem) :=
  t ← item_type item;
  let '(offset, bits) := st in
  let type := toLocaleUpperCase t in
  let item' := {| item_name := item_name item; item_type := Some type;
                  item_strlen := item_strlen item; item_size := item_size item;
                  item_value := item_value item; item_offset := item_offset item |} in
  let name := item_name item in
  let size := item_size item in
  let isBool := isBoolean type in
  let isStr := isString type in
  let strlen_temp := or_default (item_strlen item) 254 + 2 in
  let strlen := strlen_temp + Z.rem strlen_temp 2 in
  let typesize := if isStr then strlen else variableTypeSize type in
  let '(offset, bits) :=
    if isBool && is_array size then ((if 0 <? bits then offset + 1 else offset), 0)
    else if isBool then (offset, bits + 1)
    else ((if 0 <? bits then offset + 1 else offset), 0) in
  let '(value, (offset, bits)) :=
    if is_array size then
      let '(elems, (offset, bits)) :=
        parse_elems buffer type typesize (Z.to_nat (default 0 size))
          (roundUpToEven offset, bits) in
      (VArr elems, (roundUpToEven offset, bits))
    else
      let offset := if 1 <? typesize then roundUpToEven offset else offset in
      let value := parseValueFromBuffer buffer type offset (bits - 1) typesize in
      let offset := offset + (if isBool then 0 else typesize) in
      (value, if 8 <=? bits then (offset + 1, 0) else (offset, bits)) in
  let pushed :=
    if typeIsObject type then
      match value with
      | VArr elems => if is_array size then flatten_array name 0 elems else []
      | VFields fields => if is_array size then [] else flatten_fields name fields
      | _ => []
      end
    else [{| data_name := name; data_type := type; data_value := value |}] in
  Some ((offset, bits), pushed, item').

Fixpoint parse_loop (buffer : Buffer) (st : Z * Z) (items : list S7DBStructureItem)
  : option (list S7DBData * list S7DBStructureItem) :=
  match items with
  | [] => Some ([], [])
  | item :: rest =>
      '(st1, pushed, item') ← parse_step buffer st item;
      '(output, rest') ← parse_loop buffer st1 rest;
      Some (pushed ++ output, item' :: rest')
  end.

(** [DBStructure_parse(db, buffer)] on the items of [db]: the output list
    and the items as the call leaves them. *)
Definition DBStructure_parse (items : list S7DBStructureItem) (buffer : Buffer)
  : option (list S7DBData * list S7DBStructureItem) :=
  parse_loop buffer (0, 0) items.

(** ** Encoder *)

(** A buffer after a sequence of writes, with whether the sequence ran to
    its end or stopped at a throwing write. *)
Inductive Written : Type :=
| Done (buffer : Buffer)
| Threw (buffer : Buffer).

Definition written_buffer (w : Written) : Buffer :=
  match w with Done b | Threw b => b end.

(** A single write: all or nothing. *)
Definition attempt (buffer : Buffer) (r : option Buffer) : Written :=
  match r with
  | Some b => Done b
  | None => Threw buffer
  end.

(** [byte |= (1 << index)] or [byte &= ~(1 << index)]: 32-bit operations,
    the shift count taken modulo 32. *)
Definition updated_byte (value : bool) (byte index : Z) : Z :=
  let mask := to_int32 (Z.shiftl 1 (Z.land index 31)) in
  if value then to_int32 (Z.lor byte mask) else to_int32 (Z.land byte (Z.lnot mask)).

Definition encodeBooleanToBuffer (value : bool) (buffer : Buffer) (offset index : Z)
  : Written :=
  match readUInt8 buffer offset with
  | None => Threw buffer
  | Some byte =>
      attempt buffer (writeUInt8 buffer (VNum (updated_byte value byte index)) offset)
  end.

(** [value.charCodeAt(0)] is NaN on the empty string. *)
Definition charCodeAt0 (value : list Z) : S7Value :=
  match value with
  | [] => VNaN
  | c :: _ => VNum c
  end.

Definition encodeCharacterToBuffer (value : list Z) (buffer : Buffer) (offset : Z)
  : Written :=
  attempt buffer (writeUInt8 buffer (charCodeAt0 value) offset).

(** The loop of [encodeStringToBuffer]. *)
Fixpoint encode_chars (chars : list Z) (buffer : Buffer) (offset : Z) : Written :=
  match chars with
  | [] => Done buffer
  | c :: r =>
      match encodeCharacterToBuffer [c] buffer offset with
      | Done b => encode_chars r b (offset + 1)
      | Threw b => Threw b
      end
  end.

Definition encodeStringToBuffer (value : list Z) (buffer : Buffer) (offset strlen : Z)
  : Written :=
  let cl := Z.of_nat (length value) in
  let strlen_max := strlen - 2 in
  let strlen_temp := if strlen_max <? cl then strlen_max else cl in
  match writeUInt8 buffer (VNum strlen_max) offset with
  | None => Threw buffer
  | Some b1 =>
      match writeUInt8 b1 (VNum strlen_temp) (offset + 1) with
      | None => Threw b1
      | Some b2 => encode_chars (take (Z.to_nat strlen_temp) value) b2 (offset + 2)
      end
  end.

Definition encodeTimeToBuffer (value : S7Value) (buffer : Buffer) (offset : Z) : Written :=
  attempt buffer (writeUInt32BE buffer value offset).

(** [(value / d) | 0] for [value >= 0] or NaN: the quotient is taken
    exactly, then truncated. *)
Definition div_trunc (x : JSNumber) (d : Z) : Z :=
  match x with
  | JFin neg m e =>
      to_int32 (signed neg (if 0 <=? e then Z.quot (Z.shiftl m e) d
                            else Z.quot m (Z.shiftl d (- e))))
  | _ => 0
  end.

Definition encodeS5TimeToBuffer (value : S7Value) (buffer : Buffer) (offset : Z)
  : Written :=
  let x := number_view (to_number value) in
  let x := if js_gt x 9990000 then number_of_Z 9990000
           else if js_lt x 0 then number_of_Z 0 else x in
  let factor := if js_lt x 9990 then 0 else if js_lt x 99900 then 1
                else if js_lt x 999000 then 2 else 3 in
  let text := take 3 (Z_to_units (div_trunc x (10 ^ (factor + 1)))) in
  let hex :=
    match units_to_number text with
    | Some val => if val <? 0 then 0 else undigits 16 (digits 10 val)
    | None => 0
    end in
  let output := Z.lor (Z.shiftl factor 12) (Z.land hex 4095) in
  attempt buffer (writeUInt16BE buffer (VNum output) offset).

(** [encodeValueToBuffer]: the buffer after the call; the [catch] swallows a
    throwing write and keeps what was written before it.  There is no case
    for [BIT] or [IEC_TIMER]: both take the [default] branch. *)
Definition encodeValueToBuffer (buffer : Buffer) (value : S7Value) (type : string)
    (offset i strlen : Z) : Buffer :=
  written_buffer
    match type_case type with
    | C_BOOL => encodeBooleanToBuffer (truthy value) buffer offset i
    | C_BYTE | C_USINT => attempt buffer (writeUInt8 buffer value offset)
    | C_SINT => attempt buffer (writeInt8 buffer value offset)
    | C_INT => attempt buffer (writeInt16BE buffer value offset)
    | C_UINT | C_WORD | C_BIT | C_IEC_TIMER | C_default =>
        attempt buffer (writeUInt16BE buffer value offset)
    | C_DINT => attempt buffer (writeInt32BE buffer value offset)
    | C_UDINT | C_DWORD => attempt buffer (writeUInt32BE buffer value offset)
    | C_REAL | C_FLOAT => attempt buffer (writeFloatBE buffer value offset)
    | C_LREAL | C_DOUBLE => attempt buffer (writeDoubleBE buffer value offset)
    | C_CHAR => encodeCharacterToBuffer (to_units value) buffer offset
    | C_STRING => encodeStringToBuffer (to_units value) buffer offset strlen
    | C_TIME | C_TIMER => encodeTimeToBuffer value buffer offset
    | C_S5TIME => encodeS5TimeToBuffer value buffer offset
    end.

(** The inner loop of [DBStructure_encode] over the elements of an array
    item; [value[i]] past the end of the array is [undefined]. *)
Fixpoint encode_elems (type : string) (typesize : Z) (n : nat) (elems : list S7Value)
    (buffer : Buffer) (st : Z * Z) : Buffer * (Z * Z) :=
  match n with
  | O => (buffer, st)
  | S k =>
      let '(offset, bits) := st in
      let val := match elems with [] => VUndef | v :: _ => v end in
      let v := coerce type val in
      let buffer :=
        if typeIsObject type then buffer
        else encodeValueToBuffer buffer v type offset (bits - 1) typesize in
      let st' :=
        if isBoolean type then
          (if 8 <=? bits + 1 then (offset + 1, 0) else (offset, bits + 1))
        else (offset + typesize, bits) in
      encode_elems type typesize k (tail elems) buffer st'
  end.

(** [Array.isArray(value)], with the elements: a list of sub-entries is an
    array of objects. *)
Definition as_array (value : S7Value) : option (list S7Value) :=
  match value with
  | VArr elems => Some elems
  | VFields fields => Some (map (fun f => VFields [f]) fields)
  | _ => None
  end.

(** One iteration of the loop of [DBStructure_encode]; [None] where
    [item.type.toLocaleUpperCase()] throws on a missing type. *)
Definition encode_step (buffer : Buffer) (st : Z * Z) (item : S7DBStructureItem)
  : option (Buffer * (Z * Z)) :=
  t ← item_type item;
  let '(offset, bits) := st in
  let type := toLocaleUpperCase t in
  let value := item_value item in
  let size := item_size item in
  let isBool := isBoolean type in
  let isStr := isString type in
  let strlen_temp := or_default (item_strlen item) 254 + 2 in
  let strlen := strlen_temp + Z.rem strlen_temp 2 in
  let typesize := if isStr then strlen else variableTypeSize type in
  let '(offset, bits) :=
    if isBool && is_array size then ((if 0 <? bits then offset + 1 else offset), 0)
    else if isBool then (offset, bits + 1)
    else ((if 0 <? bits then offset + 1 else offset), 0) in
  Some
    match (if is_array size then as_array value else None) with
    | Some elems =>
        let '(buffer, (offset, bits)) :=
          encode_elems type typesize (Z.to_nat (default 0 size)) elems buffer
            (roundUpToEven offset, bits) in
        (buffer, (roundUpToEven offset, bits))
    | None =>
        let offset := if (1 <? typesize) || isString type then roundUpToEven offset else offset in
        let v := coerce type value in
        let buffer :=
          if typeIsObject type then buffer
          else encodeValueToBuffer buffer v type offset (bits - 1) typesize in
        let offset := offset + (if isBool then 0 else typesize) in
        (buffer, if 8 <=? bits then (offset + 1, 0) else (offset, bits))
    end.

Fixpoint encode_loop (buffer : Buffer) (st : Z * Z) (items : list S7DBStructureItem)
  : option Buffer :=
  match items with
  | [] => Some buffer
  | item :: rest =>
      '(buffer', st') ← encode_step buffer st item;
      encode_loop buffer' st' rest
  end.

(** [DBStructure_encode(db)] on the items and offset of [db]: the buffer
    and the items as [DBStructure_calculateSize] leaves them; [None] where
    the call throws. *)
Definition DBStructure_encode (items : list S7DBStructureItem) (db_offset : Z)
  : option (Buffer * list S7DBStructureItem) :=
  let '(buff_size, items') := DBStructure_calculateSize items db_offset in
  buffer ← Buffer_alloc buff_size;
  buffer' ← encode_loop buffer (0, 0) items';
  Some (buffer', items').

(** ** Requests, transport and the admission gate *)

(** [S7DBConfig]: the fields the client reads. *)
Record S7DBConfig : Type := mkConfig {
  cfg_host : string;
  cfg_bufferSize : Z;
  cfg_staticSize : Z
}.

(** [S7DBStructure]: a datablock as a caller declares it. *)
Record S7DBStructure : Type := mkRequest {
  req_name : option string;
  req_db : Z;
  req_offset : Z;
  req_items : list S7DBStructureItem
}.

(** An instance of [class DBStructure]. *)
Record DBStructure : Type := mkDB {
  db_name : string;
  db_db : Z;
  db_offset : Z;
  db_items : list S7DBStructureItem;
  db_size : Z
}.

(** The constructor of [DBStructure]; the layout is computed with the
    offset as given, the stored offset is clamped at [0]. *)
Definition new_DBStructure (input : S7DBStructure) : DBStructure :=
  let '(size, items) := DBStructure_calculateSize (req_items input) (req_offset input) in
  {| db_name := match req_name input with
                | Some n => if String.eqb n "" then "Default"%string else n
                | None => "Default"%string
                end;
     db_db := if 0 <=? req_db input then req_db input else 10;
     db_offset := if 0 <? req_offset input then req_offset input else 0;
     db_items := items;
     db_size := size |}.

(** A [DBStructure] passed where a declaration is expected. *)
Definition as_request (d : DBStructure) : S7DBStructure :=
  {| req_name := Some (db_name d); req_db := db_db d; req_offset := db_offset d;
     req_items := db_items d |}.

(** The values the client throws or rejects with. *)
Inductive Failure : Type :=
| Unreachable
| ConnectFailed (code : Z)
| ReadFailed (db offset size code : Z)
| ParseFailed
| WriteFailed (db offset size code : Z)
| EncodeFailed
| RequestFailed (error : Failure) (request : DBStructure)
| BatchFailed (output : list (option Failure))
| CannotDestructure.

Inductive Result (A : Type) : Type :=
| Resolved (a : A)
| Rejected (e : Failure).
Arguments Resolved {A} a.
Arguments Rejected {A} e.

(** One element of the sequence a read resolves with: a decoded entry or a
    carried error. *)
Inductive Output : Type :=
| OData (d : S7DBData)
| OError (e : Failure).

(** The outcome of one raw transport call ([ConnectTo], [DBRead],
    [DBWrite]): the callback's [err] (a truthy code), or success with the
    bytes read. *)
Inductive NetOutcome : Type :=
| NetOk (data : Buffer)
| NetErr (code : Z).

(** What an observer of the run sees, in order. *)
Inductive Event : Type :=
| EvDelay (ms : Z)
| EvGate (host : string) (acquired : bool)
| EvRelease (host : string)
| EvConnect (host : string)
| EvDBRead (db offset size : Z)
| EvDBWrite (db offset size : Z) (buff : Buffer).

(** An entry of [SequentialRequests.sequences]; [gate_timeout] is the
    deadline of the pending auto-release timer. *)
Record Gate : Type := mkGate {
  gate_available : bool;
  gate_timeout : option Z
}.

(** What another task does to the gates while this one is suspended. *)
Inductive RivalOp : Type :=
| RivalAcquire (host : string)
| RivalRelease (host : string).

(** The state a request runs against: the clock, the gate registry, the
    transport (the outcome of the [n]-th raw call, and how many were made),
    what the other tasks do at each suspension in [delay], and the trace
    so far (latest event first). *)
Record World : Type := mkWorld {
  now : Z;
  sequences : gmap string Gate;
  net : nat -> NetOutcome;
  calls : nat;
  rivals : list (list RivalOp);
  trace : list Event
}.

Definition M (A : Type) : Type := World -> Result A * World.

Definition ret {A} (a : A) : M A := fun w => (Resolved a, w).
Definition throw {A} (e : Failure) : M A := fun w => (Rejected e, w).
Definition bind {A B} (m : M A) (k : A -> M B) : M B :=
  fun w => match m w with
           | (Resolved a, w') => k a w'
           | (Rejected e, w') => (Rejected e, w')
           end.
(** [try { m } catch (e) { h e }]. *)
Definition try_catch {A} (m : M A) (h : Failure -> M A) : M A :=
  fun w => match m w with
           | (Resolved a, w') => (Resolved a, w')
           | (Rejected e, w') => h e w'
           end.

Notation "'let*' x ':=' m 'in' k" := (bind m (fun x => k))
  (at level 10, x pattern, m at level 100, k at level 200).

Definition timeoutReset : Z := 5000.

Definition gate_of (s : gmap string Gate) (x : string) : Gate :=
  default {| gate_available := true; gate_timeout := None |} (s !! x).

(** [SequentialRequests.isAvailable(x)] at time [t]. *)
Definition seq_isAvailable (t : Z) (x : string) (s : gmap string Gate)
  : bool * gmap string Gate :=
  let existing := gate_of s x in
  if gate_available existing
  then (true, <[x := {| gate_available := false; gate_timeout := Some (t + timeoutReset) |}]> s)
  else (false, <[x := existing]> s).

(** [SequentialRequests.setAvailable(x)]. *)
Definition seq_setAvailable (x : string) (s : gmap string Gate) : gmap string Gate :=
  <[x := {| gate_available := true; gate_timeout := None |}]> s.

(** The auto-release timers due at time [t] fire. *)
Definition fire_timers (t : Z) (s : gmap string Gate) : gmap string Gate :=
  (fun g => match gate_timeout g with
            | Some d => if d <=? t then {| gate_available := true; gate_timeout := None |} else g
            | None => g
            end) <$> s.

Definition run_rival (t : Z) (s : gmap string Gate) (op : RivalOp) : gmap string Gate :=
  match op with
  | RivalAcquire x => snd (seq_isAvailable t x s)
  | RivalRelease x => seq_setAvailable x s
  end.

(** [await delay(ms)]: the clock advances, due timers fire, and the other
    tasks scheduled for this suspension run. *)
Definition delay (ms : Z) : M unit :=
  fun w =>
    let t := now w + ms in
    let s := fire_timers t (sequences w) in
    let s := fold_left (run_rival t) (hd [] (rivals w)) s in
    (Resolved tt,
     {| now := t; sequences := s; net := net w; calls := calls w;
        rivals := tail (rivals w); trace := EvDelay ms :: trace w |}).

Definition isAvailable (x : string) : M bool :=
  fun w =>
    let '(output, s) := seq_isAvailable (now w) x (sequences w) in
    (Resolved output,
     {| now := now w; sequences := s; net := net w; calls := calls w;
        rivals := rivals w; trace := EvGate x output :: trace w |}).

Definition setAvailable (x : string) : M unit :=
  fun w =>
    (Resolved tt,
     {| now := now w; sequences := seq_setAvailable x (sequences w); net := net w;
        calls := calls w; rivals := rivals w; trace := EvRelease x :: trace w |}).

(** One raw transport call: it is recorded and answered by the next
    outcome of the transport. *)
Definition raw_call (e : Event) (w : World) : NetOutcome * World :=
  (net w (calls w),
   {| now := now w; sequences := sequences w; net := net w; calls := S (calls w);
      rivals := rivals w; trace := e :: trace w |}).

(** ** The client [S7] *)

(** The fields of an [S7] instance the requests read. *)
Record S7 : Type := mkS7 {
  s7_host : string;
  s7_staticSize : Z;
  s7_bufferSize : Z
}.

Definition new_S7 (config : S7DBConfig) : S7 :=
  {| s7_host := if String.eqb (cfg_host config) "" then "localhost"%string
                else cfg_host config;
     s7_staticSize := cfg_staticSize config;
     s7_bufferSize := cfg_bufferSize config |}.

(** [await this.connect()] on a client that is not connected. *)
Definition connect (client : S7) : M unit :=
  fun w =>
    match raw_call (EvConnect (s7_host client)) w with
    | (NetOk _, w') => (Resolved tt, w')
    | (NetErr err, w') => (Rejected (ConnectFailed err), w')
    end.

(** [client.connect()] whose promise nobody awaits: the call is made, its
    outcome is dropped. *)
Definition connect_unawaited (client : S7) : M unit :=
  fun w => (Resolved tt, snd (raw_call (EvConnect (s7_host client)) w)).

Definition read_default (db offset size : Z) (w : World) : NetOutcome * World :=
  raw_call (EvDBRead db offset size) w.

Definition write_default (db offset size : Z) (buff : Buffer) (w : World)
  : NetOutcome * World :=
  raw_call (EvDBWrite db offset size buff) w.

(** [read_with_retries(db, offset, size, retries = 3)]; a failure is the
    raw [err] of the last attempt. *)
Fixpoint read_with_retries (db offset size : Z) (retries : nat) (w : World)
  : (Z + Buffer) * World :=
  match read_default db offset size w with
  | (NetOk output, w') => (inr output, w')
  | (NetErr e, w') =>
      match retries with
      | S (S _ as retries') => read_with_retries db offset size retries' w'
      | _ => (inl e, w')
      end
  end.

(** [write_with_retries(db, offset, size, buff)]. *)
Definition write_with_retries (db offset size : Z) (buff : Buffer) : M unit :=
  fun w =>
    match write_default db offset size buff w with
    | (NetOk _, w') => (Resolved tt, w')
    | (NetErr e, w') => (Rejected (WriteFailed db offset size e), w')
    end.

(** The chunk loop of [read]: chunks [i .. batchCount - 1], read in order;
    the first exhausted chunk ends the loop with its [err].  The offset of
    chunk [i] is [offset + i * bufferSize] bytes, written in the unit of
    offsets. *)
Fixpoint read_chunks (db offset size bufferSize batchCount : Z) (n : nat) (i : Z)
    (w : World) : (Z + list Buffer) * World :=
  match n with
  | O => (inr [], w)
  | S k =>
      let s := if i <? batchCount - 1 then bufferSize else size - i * bufferSize in
      if 0 <? s then
        match read_with_retries db (offset + 10 * (i * bufferSize)) s 3 w with
        | (inl e, w') => (inl e, w')
        | (inr buff, w') =>
            match read_chunks db offset size bufferSize batchCount k (i + 1) w' with
            | (inl e, w'') => (inl e, w'')
            | (inr rest, w'') => (inr (buff :: rest), w'')
            end
        end
      else read_chunks db offset size bufferSize batchCount k (i + 1) w
  end.

(** The instance method [read]. *)
Definition S7_read (client : S7) (input_db : S7DBStructure) : M (list S7DBData) :=
  let datablock := new_DBStructure input_db in
  let size := if s7_staticSize client =? 0 then db_size datablock
              else s7_staticSize client in
  if 0 <? size then
    let* _ := connect client in
    let db := db_db datablock in
    let offset := db_offset datablock in
    let bufferSize := s7_bufferSize client in
    let* buffer := fun w =>
      if (0 <? bufferSize) && (bufferSize <? size) then
        let batchCount := ceil_div size bufferSize in
        match read_chunks db offset size bufferSize batchCount (Z.to_nat batchCount) 0 w with
        | (inl err, w') => (Rejected (ReadFailed db offset size err), w')
        | (inr buff_array, w') => (Resolved (concat buff_array), w')
        end
      else
        match read_with_retries db offset size 3 w with
        | (inl err, w') => (Rejected (ReadFailed db offset size err), w')
        | (inr buffer, w') => (Resolved buffer, w')
        end in
    match DBStructure_parse (db_items datablock) buffer with
    | Some (output, _) => ret output
    | None => throw ParseFailed
    end
  else ret [].

(** The static [S7.read]: the connection registry entry is dropped as soon
    as it is looked up, so every call works on a fresh client.  The deferred
    [Disconnect] of [disconnect()] is not traced. *)
Definition S7_read_static (config : S7DBConfig) (input_db : S7DBStructure)
  : M (list S7DBData) :=
  let client := new_S7 config in
  let db := new_DBStructure input_db in
  try_catch
    (let* _ := connect_unawaited client in
     S7_read client (as_request db))
    (fun e => throw (RequestFailed e db)).

(** The instance method [write]. *)
Definition S7_write (client : S7) (input_db : S7DBStructure) : M unit :=
  let datablock := new_DBStructure input_db in
  let size := if s7_staticSize client =? 0 then db_size datablock
              else s7_staticSize client in
  if 0 <? size then
    let* _ := connect client in
    match DBStructure_encode (db_items datablock) (db_offset datablock) with
    | None => throw EncodeFailed
    | Some (buffer, _) =>
        write_with_retries (db_db datablock) (db_offset datablock) size buffer
    end
  else ret tt.

(** The static [S7.write]. *)
Definition S7_write_static (config : S7DBConfig) (input_db : S7DBStructure) : M unit :=
  let client := new_S7 config in
  let db := new_DBStructure input_db in
  let* _ := connect_unawaited client in
  S7_write client (as_request db).

(** ** Scheduling: [getS7Data], [setS7Data], [readPLC], [writePLC] *)

(** The gate loop of a single-target request, from attempt [i] with
    [attempts] attempts left: [for (let i = 0; i < 20; i++)]. *)
Fixpoint gate_loop {A} (request : M A) (host : string) (attempts : nat) (i : Z) : M A :=
  match attempts with
  | O => throw Unreachable
  | S k =>
      let* _ := if i <? 19 then delay (50 * i) else ret tt in
      let* free := isAvailable host in
      if free then
        try_catch
          (let* result := request in
           let* _ := setAvailable host in
           ret result)
          (fun e => let* _ := setAvailable host in throw e)
      else gate_loop request host k (i + 1)
  end.

(** [getS7Data(config, db)] for a single datablock. *)
Definition getS7Data_one (config : S7DBConfig) (db : S7DBStructure) : M (list S7DBData) :=
  gate_loop (S7_read_static config db) (cfg_host config) 20 0.

(** [setS7Data(config, db)] for a single datablock. *)
Definition setS7Data_one (config : S7DBConfig) (db : S7DBStructure) : M unit :=
  gate_loop (S7_write_static config db) (cfg_host config) 20 0.

(** The batch loop of [getS7Data] over the entries still to do. *)
Fixpoint getS7Data_batch (config : S7DBConfig) (dbs : list S7DBStructure) : M (list Output) :=
  match dbs with
  | [] => ret []
  | db :: rest =>
      let* pushed :=
        try_catch
          (let* result := getS7Data_one config db in ret (map OData result))
          (fun e => ret [OError e]) in
      let* _ := match rest with [] => ret tt | _ => delay 5 end in
      let* output := getS7Data_batch config rest in
      ret (pushed ++ output)
  end.

(** The batch loop of [setS7Data]: [false] ([None]) for a success, the
    error for a failure. *)
Fixpoint setS7Data_batch (config : S7DBConfig) (dbs : list S7DBStructure)
  : M (list (option Failure)) :=
  match dbs with
  | [] => ret []
  | db :: rest =>
      let* pushed :=
        try_catch
          (let* _ := setS7Data_one config db in ret None)
          (fun e => ret (Some e)) in
      let* _ := match rest with [] => ret tt | _ => delay 5 end in
      let* output := setS7Data_batch config rest in
      ret (pushed :: output)
  end.

(** The [db] argument of [getS7Data] and [setS7Data]. *)
Inductive Target : Type :=
| One (db : S7DBStructure)
| Many (dbs : list S7DBStructure).

Definition getS7Data (config : S7DBConfig) (db : Target) : M (list Output) :=
  match db with
  | Many dbs => getS7Data_batch config dbs
  | One d => let* result := getS7Data_one config d in ret (map OData result)
  end.

Definition setS7Data (config : S7DBConfig) (db : Target) : M unit :=
  match db with
  | Many dbs =>
      let* output := setS7Data_batch config dbs in
      if forallb (fun x => match x with None => true | Some _ => false end) output
      then ret tt
      else throw (BatchFailed output)
  | One d => setS7Data_one config d
  end.

(** [readPLC] and [writePLC] called with one [{ config, datablocks }]
    object, as [PLC_handler] calls them. *)
Definition readPLC (config : S7DBConfig) (datablocks : Target) : M (list Output) :=
  getS7Data config datablocks.

Definition writePLC (config : S7DBConfig) (datablocks : Target) : M unit :=
  setS7Data config datablocks.

(** ** [PLC_handler] *)

(** One argument of [read] or [write]: an object with its [name] and
    [value] properties (an absent or falsy [name] is [None] or the empty
    string, an [undefined] value is [None]), [null], whose [typeof] is
    ['object'] but which cannot be destructured, or something whose
    [typeof] is not ['object']. *)
Inductive VariableArg : Type :=
| VarObject (name : option string) (value : option S7Value)
| VarNull
| VarOther.

(** The arguments of a call: [f(v1, v2, ...)] or [f([v1, v2, ...])]. *)
Inductive CallArgs : Type :=
| ArgsSpread (vs : list VariableArg)
| ArgsArray (vs : list VariableArg).

(** What [read] and [write] return. *)
Inductive Validation : Type :=
| NoValuesGiven
| NotAnObject (i n : nat)
| NameNotDefined (i n : nat)
| ValueNotDefined (i n : nat).

Inductive Returned (A : Type) : Type :=
| RetError (error : Validation)
| RetUndefined
| RetResult (a : A).
Arguments RetError {A} error.
Arguments RetUndefined {A}.
Arguments RetResult {A} a.

(** [variables.length === 0] and the two normalising assignments. *)
Definition normalise (args : CallArgs) : option (list VariableArg) :=
  match args with
  | ArgsSpread [] => None
  | ArgsSpread vs => Some vs
  | ArgsArray vs => Some vs
  end.

(** How the validation loop ends: every variable passed, an error object
    is returned, or the destructuring [const { name, value } = variables[i]]
    throws. *)
Inductive Checked : Type :=
| AllValid
| Invalid (error : Validation)
| Throws (e : Failure).

(** The validation loop; [need_value] for [write]. *)
Fixpoint validate (need_value : bool) (n : nat) (i : nat) (vs : list VariableArg)
  : Checked :=
  match vs with
  | [] => AllValid
  | v :: r =>
      match v with
      | VarOther => Invalid (NotAnObject (S i) n)
      | VarNull => Throws CannotDestructure
      | VarObject name value =>
          match name with
          | None | Some EmptyString => Invalid (NameNotDefined (S i) n)
          | Some _ =>
              match value with
              | None => if need_value then Invalid (ValueNotDefined (S i) n)
                        else validate need_value n (S i) r
              | Some _ => validate need_value n (S i) r
              end
          end
      end
  end.

(** A handler: the configuration and the datablocks with the layout
    pinned by the constructor's calls of [DBStructure_calculateSize]. *)
Record Handler : Type := mkHandler {
  h_config : S7DBConfig;
  h_datablocks : list S7DBStructure
}.

Definition PLC_handler (config : S7DBConfig) (datablocks : list S7DBStructure) : Handler :=
  {| h_config := config;
     h_datablocks :=
       map (fun d => {| req_name := req_name d; req_db := req_db d;
                        req_offset := req_offset d;
                        req_items := snd (DBStructure_calculateSize (req_items d) (req_offset d)) |})
           datablocks |}.

(** The first item called [name], scanning datablocks then items. *)
Fixpoint find_item (name : string) (datablocks : list S7DBStructure)
  : option (S7DBStructure * S7DBStructureItem) :=
  match datablocks with
  | [] => None
  | d :: r =>
      match find (fun item => String.eqb name (item_name item)) (req_items d) with
      | Some item => Some (d, item)
      | None => find_item name r
      end
  end.

Definition var_name (v : VariableArg) : string :=
  match v with VarObject (Some n) _ => n | _ => EmptyString end.

Definition var_value (v : VariableArg) : S7Value :=
  match v with VarObject _ (Some x) => x | _ => VUndef end.

Definition read_request (name : string) (datablocks : list S7DBStructure)
  : list S7DBStructure :=
  match find_item name datablocks with
  | Some (d, item) =>
      [{| req_name := req_name d; req_db := req_db d;
          req_offset := default 0 (item_offset item); req_items := [item] |}]
  | None => []
  end.

Definition write_request (name : string) (value : S7Value) (datablocks : list S7DBStructure)
  : list S7DBStructure :=
  match find_item name datablocks with
  | Some (d, item) =>
      [{| req_name := req_name d; req_db := req_db d;
          req_offset := default 0 (item_offset item);
          req_items := [{| item_name := item_name item; item_type := item_type item;
                           item_strlen := item_strlen item; item_size := item_size item;
                           item_value := value; item_offset := Some 0 |}] |}]
  | None => []
  end.

(** [PLC_handler(...).read(...variables)]. *)
Definition read (h : Handler) (args : CallArgs) : M (Returned (list Output)) :=
  match normalise args with
  | None => ret (RetError NoValuesGiven)
  | Some variables =>
      match validate false (length variables) 0 variables with
      | Invalid error => ret (RetError error)
      | Throws e => throw e
      | AllValid =>
          let read_requests :=
            flat_map (fun v => read_request (var_name v) (h_datablocks h)) variables in
          match read_requests with
          | [] => ret RetUndefined
          | _ => let* r := readPLC (h_config h) (Many read_requests) in ret (RetResult r)
          end
      end
  end.

(** [PLC_handler(...).write(...variables)]. *)
Definition write (h : Handler) (args : CallArgs) : M (Returned unit) :=
  match normalise args with
  | None => ret (RetError NoValuesGiven)
  | Some variables =>
      match validate true (length variables) 0 variables with
      | Invalid error => ret (RetError error)
      | Throws e => throw e
      | AllValid =>
          let write_requests :=
            flat_map (fun v => write_request (var_name v) (var_value v) (h_datablocks h))
                     variables in
          match write_requests with
          | [] => ret RetUndefined
          | _ => let* r := writePLC (h_config h) (Many write_requests) in ret (RetResult r)
          end
      end
  end.

(** ** Notions used by the statements *)

(** The stride the calculator gives one element of an item: the capacity
    plus the two header bytes, rounded up to even, for a [STRING]; the type
    width otherwise. *)
Definition item_typesize (item : S7DBStructureItem) : Z :=
  let type := normal_type item in
  if isString type then
    let strlen_temp := or_default (item_strlen item) 254 + 2 in
    strlen_temp + Z.rem strlen_temp 2
  else variableTypeSize type.

(** Type width times array count. *)
Definition minimal_stride (item : S7DBStructureItem) : Z :=
  item_typesize item * normal_size item.

Definition sum_strides (items : list S7DBStructureItem) : Z :=
  fold_right (fun item acc => minimal_stride item + acc) 0 items.

(** The same in bits, a boolean element counting for one bit. *)
Definition item_bits (item : S7DBStructureItem) : Z :=
  if isBoolean (normal_type item) then normal_size item else 8 * minimal_stride item.

Definition sum_bits (items : list S7DBStructureItem) : Z :=
  fold_right (fun item acc => item_bits item + acc) 0 items.

(** A declared capacity, when there is one, is not negative. *)
Definition capacity_ok (item : S7DBStructureItem) : Prop :=
  match item_strlen item with
  | Some n => 0 <= n
  | None => True
  end.

(** A plain declaration [{ name, type }] carrying [value]. *)
Definition declare (name type : string) (value : S7Value) : S7DBStructureItem :=
  {| item_name := name; item_type := Some type; item_strlen := None;
     item_size := None; item_value := value; item_offset := None |}.

(** Three single booleans. *)
Definition three_bools : list S7DBStructureItem :=
  [declare "a" "BOOL" VUndef; declare "b" "BOOL" VUndef; declare "c" "BOOL" VUndef].

(** A declaration in lower case. *)
Definition lower_case_int : list S7DBStructureItem := [declare "n" "int" VUndef].

(** A mixed layout: a boolean, a word, a text of capacity 5 and an array of
    twenty booleans. *)
Definition mixed_layout : list S7DBStructureItem :=
  [declare "flag" "BOOL" VUndef;
   declare "count" "INT" VUndef;
   {| item_name := "label"; item_type := Some "STRING"%string; item_strlen := Some 5;
      item_size := None; item_value := VUndef; item_offset := None |};
   {| item_name := "bits"; item_type := Some "BOOL"%string; item_strlen := None;
      item_size := Some 20; item_value := VUndef; item_offset := None |}].

(** A byte. *)
Definition is_byte (b : Z) : Prop := 0 <= b <= 255.

(** A single [STRING] declaration of capacity [strlen] carrying [value]. *)
Definition string_item (name : string) (strlen : Z) (value : list Z) : S7DBStructureItem :=
  {| item_name := name; item_type := Some "STRING"%string; item_strlen := Some strlen;
     item_size := None; item_value := VStr value; item_offset := None |}.

(** Thirty characters. *)
Definition long_message : list Z := units_of_string "This is a long message which w".

(** Thirty characters, the third of which (the euro sign, code unit 8364)
    does not fit in one byte. *)
Definition wide_message : list Z := 97 :: 98 :: 8364 :: replicate 27 99.

(** The 16-byte image of a timer: start 1, PT 1000, ET 250, IN set, Q clear. *)
Definition timer_image : list Z := [0; 0; 0; 1; 0; 0; 3; 232; 0; 0; 0; 250; 1; 0; 0; 0].

(** The unsigned big-endian value of the [n] bytes at [offset]. *)
Definition field (buffer : list Z) (offset n : nat) : Z :=
  be_value (take n (drop offset buffer)).

(** ** Notions used by the scheduling statements *)

(** The world a request starts in when nothing has happened yet. *)
Definition fresh_world (gates : gmap string Gate) (transport : nat -> NetOutcome)
    (others : list (list RivalOp)) : World :=
  {| now := 0; sequences := gates; net := transport; calls := 0;
     rivals := others; trace := [] |}.

(** A transport whose first raw call fails and whose later calls succeed. *)
Definition flaky_net (n : nat) : NetOutcome :=
  match n with
  | O => NetErr 5
  | S _ => NetOk [0; 0]
  end.

Definition flaky_world : World := fresh_world ∅ flaky_net [].

(** The world after the wait that precedes attempt [i]. *)
Definition before_attempt (i : Z) (w : World) : World :=
  snd ((if i <? 19 then delay (50 * i) else ret tt) w).

(** The gate of [host] is found busy at each of the next [attempts]
    checks of the gate loop, from attempt [i] in world [w]. *)
Fixpoint gate_stays_busy (host : string) (attempts : nat) (i : Z) (w : World) : Prop :=
  match attempts with
  | O => True
  | S k =>
      fst (isAvailable host (before_attempt i w)) = Resolved false
      /\ gate_stays_busy host k (i + 1) (snd (isAvailable host (before_attempt i w)))
  end.

(** What such a run adds to the trace, in order. *)
Fixpoint busy_events (host : string) (attempts : nat) (i : Z) : list Event :=
  match attempts with
  | O => []
  | S k =>
      (if i <? 19 then [EvDelay (50 * i)] else [])
        ++ EvGate host false :: busy_events host k (i + 1)
  end.

Definition delays_of (events : list Event) : list Z :=
  flat_map (fun e => match e with EvDelay ms => [ms] | _ => [] end) events.

Definition gate_checks_of (events : list Event) : list bool :=
  flat_map (fun e => match e with EvGate _ r => [r] | _ => [] end) events.

Definition is_transport (e : Event) : bool :=
  match e with
  | EvConnect _ | EvDBRead _ _ _ | EvDBWrite _ _ _ _ => true
  | _ => false
  end.

(** A host whose gate another task holds, and takes again at every
    suspension of the waiting request. *)
Definition busy_world : World :=
  fresh_world {[ "plc"%string := {| gate_available := false; gate_timeout := Some 5000 |} ]}
    (fun _ => NetOk []) (replicate 19 [RivalAcquire "plc"%string]).

Definition plc_config : S7DBConfig :=
  {| cfg_host := "plc"; cfg_bufferSize := 0; cfg_staticSize := 0 |}.

Definition word_block (db : Z) (value : Z) : S7DBStructure :=
  {| req_name := None; req_db := db; req_offset := 0;
     req_items := [declare "w" "INT" (VNum value)] |}.

(** What one entry contributes to the output of a batch read. *)
Definition carried (r : Result (list S7DBData)) : list Output :=
  match r with
  | Resolved result => map OData result
  | Rejected e => [OError e]
  end.

(** What one entry contributes to the output of a batch write. *)
Definition outcome (r : Result unit) : option Failure :=
  match r with
  | Resolved _ => None
  | Rejected e => Some e
  end.

(** The settling delay between two entries of a batch. *)
Definition settle (rest : list S7DBStructure) (w : World) : World :=
  match rest with
  | [] => w
  | _ => snd (delay 5 w)
  end.

(** [groups] are, position by position, what the single-target reads of
    [dbs] contribute when run one after the other from [w], the run ending
    in [w']. *)
Inductive batch_read (config : S7DBConfig)
  : list S7DBStructure -> World -> list (list Output) -> World -> Prop :=
| batch_read_nil w : batch_read config [] w [] w
| batch_read_cons db rest w groups w' :
    batch_read config rest (settle rest (snd (getS7Data_one config db w))) groups w' ->
    batch_read config (db :: rest) w
      (carried (fst (getS7Data_one config db w)) :: groups) w'.

Inductive batch_write (config : S7DBConfig)
  : list S7DBStructure -> World -> list (option Failure) -> World -> Prop :=
| batch_write_nil w : batch_write config [] w [] w
| batch_write_cons db rest w output w' :
    batch_write config rest (settle rest (snd (setS7Data_one config db w))) output w' ->
    batch_write config (db :: rest) w
      (outcome (fst (setS7Data_one config db w)) :: output) w'.

Definition all_false (output : list (option Failure)) : bool :=
  forallb (fun x => match x with None => true | Some _ => false end) output.

(** A transport on which the third raw call, the first [DBWrite], fails. *)
Definition third_call_fails (n : nat) : NetOutcome :=
  match n with
  | 2%nat => NetErr 5
  | _ => NetOk []
  end.

(** A variable is a well-formed object: it carries a name and, for a
    write, a value. *)
Definition well_formed (need_value : bool) (v : VariableArg) : Prop :=
  match v with
  | VarObject (Some name) value =>
      name <> EmptyString /\ (need_value = true -> value <> None)
  | _ => False
  end.

(** No declared item of any datablock is called [name]. *)
Definition undeclared (datablocks : list S7DBStructure) (name : string) : Prop :=
  forall d item, In d datablocks -> In item (req_items d) -> item_name item <> name.

Definition sample_blocks : list S7DBStructure :=
  [{| req_name := None; req_db := 1; req_offset := 0;
      req_items := [declare "BYTE_number" "BYTE" VUndef;
                    declare "INT_number" "INT" VUndef] |}].

(** ** Notions used by the round-trip statement *)

Definition is_bool (v : S7Value) : bool :=
  match v with VBool _ => true | _ => false end.

(** An integer between [lo] and [hi]. *)
Definition in_range (lo hi : Z) (v : S7Value) : bool :=
  match v with
  | VNum z => (lo <=? z) && (z <=? hi)
  | _ => false
  end.

(** A finite single-precision number. *)
Definition is_single (v : S7Value) : bool :=
  match v with
  | VReal32 bits =>
      (0 <=? bits) && (bits <? 2 ^ 32) && js_isFinite (decode_float 23 8 bits)
  | _ => false
  end.

(** A finite double-precision number. *)
Definition is_double (v : S7Value) : bool :=
  match v with
  | VReal64 bits =>
      (0 <=? bits) && (bits <? 2 ^ 64) && js_isFinite (decode_float 52 11 bits)
  | _ => false
  end.

(** One single-byte character. *)
Definition is_char (v : S7Value) : bool :=
  match v with
  | VStr [c] => (0 <=? c) && (c <=? 255)
  | _ => false
  end.

(** The types that round-trip exactly, each with the values of the type. *)
Definition exact_types : list (string * (S7Value -> bool)) :=
  [("BOOL", is_bool);
   ("BYTE", in_range 0 255);
   ("USINT", in_range 0 255);
   ("SINT", in_range (-128) 127);
   ("INT", in_range (-32768) 32767);
   ("UINT", in_range 0 65535);
   ("WORD", in_range 0 65535);
   ("DINT", in_range (-2147483648) 2147483647);
   ("UDINT", in_range 0 4294967295);
   ("DWORD", in_range 0 4294967295);
   ("TIME", in_range 0 4294967295);
   ("TIMER", in_range 0 4294967295);
   ("REAL", is_single);
   ("FLOAT", is_single);
   ("LREAL", is_double);
   ("DOUBLE", is_double);
   ("CHAR", is_char)]%string.

(** [value] is a value of the (upper-cased) [type]. *)
Definition fits (type : string) (value : S7Value) : bool :=
  existsb (fun p => String.eqb type (fst p) && snd p value) exact_types.

(** An [IEC_TIMER] item carrying the timer that the decoder reads from
    [timer_image]. *)
Definition timer_fields : list (string * string * S7Value) :=
  parseIECTimerFromBuffer timer_image 0.

Definition timer_item : list S7DBStructureItem :=
  [declare "t" "IEC_TIMER" (VFields timer_fields)].

(** A [STRING] or [S5TIME] item: its value comes back truncated or
    quantized. *)
Definition lossy_type (type : string) : bool :=
  isString type || String.eqb type "S5TIME".

(** [value] is a value of the type; any value is taken for a lossy type. *)
Definition value_fits (type : string) (value : S7Value) : bool :=
  lossy_type type || fits type value.

(** An array value of [n] elements of the type. *)
Definition is_array_of (type : string) (n : Z) (v : S7Value) : bool :=
  match v with
  | VArr elems => (Z.of_nat (length elems) =? n) && forallb (value_fits type) elems
  | _ => false
  end.

(** The items the round trip is stated for: a single item carrying a value
    of its type, or an array of a non-boolean type carrying as many values
    of the type as its size, the type being an exact type, [STRING] (of
    non-negative capacity) or [S5TIME]. *)
Definition supported_item (item : S7DBStructureItem) : bool :=
  let type := normal_type item in
  let n := normal_size item in
  (if isString type then 0 <=? or_default (item_strlen item) 254 else true)
  && (if 1 <? n then negb (isBoolean type) && is_array_of type n (item_value item)
      else value_fits type (item_value item)).

(** What the decoded entry [e] owes to the item: its name, its type and,
    unless the type is lossy, its value. *)
Definition faithful (item : S7DBStructureItem) (e : S7DBData) : Prop :=
  data_name e = item_name item
  /\ data_type e = normal_type item
  /\ (lossy_type (normal_type item) = false -> data_value e = item_value item).

(** One item of each exact type, in lower and upper case, lossy items and
    arrays. *)
Definition sample_items : list S7DBStructureItem :=
  [declare "run" "BOOL" (VBool true);
   declare "stop" "bool" (VBool false);
   declare "level" "int" (VNum (-5));
   declare "ready" "BOOL" (VBool true);
   declare "ratio" "REAL" (VReal32 1065353216);
   declare "mark" "CHAR" (VStr [65]);
   string_item "label" 4 (units_of_string "overlong");
   declare "total" "DINT" (VNum (-70000));
   declare "code" "BYTE" (VNum 200);
   declare "pause" "S5TIME" (VNum 1234);
   declare "span" "TIME" (VNum 86400000);
   {| item_name := "curve"; item_type := Some "INT"%string; item_strlen := None;
      item_size := Some 3; item_value := VArr [VNum 1; VNum (-2); VNum 3];
      item_offset := None |};
   {| item_name := "steps"; item_type := Some "s5time"%string; item_strlen := None;
      item_size := Some 2; item_value := VArr [VNum 1234; VNum 20];
      item_offset := None |};
   {| item_name := "tags"; item_type := Some "STRING"%string; item_strlen := Some 3;
      item_size := Some 2;
      item_value := VArr [VStr (units_of_string "ab"); VStr (units_of_string "wxyz")];
      item_offset := None |};
   declare "wide" "LREAL" (VReal64 4591870180066957722)].

(** Where the cursor [(offset, bits)] places a single item that is not a
    boolean, of stride [typesize]. *)
Definition aligned (typesize : Z) (st : Z * Z) : Z :=
  let '(offset, bits) := st in
  let offset := if 0 <? bits then offset + 1 else offset in
  if 1 <? typesize then roundUpToEven offset else offset.

(** Where it places the first element of an array that is not boolean. *)
Definition array_base (st : Z * Z) : Z :=
  let '(offset, bits) := st in
  roundUpToEven (if 0 <? bits then offset + 1 else offset).

(** A well-formed cursor, and the first byte it leaves free. *)
Definition cursor_ok (st : Z * Z) : Prop := 0 <= fst st /\ 0 <= snd st < 8.

Definition cursor_end (st : Z * Z) : Z :=
  if 0 <? snd st then fst st + 1 else fst st.

Definition byte_of (buffer : list Z) (k : Z) : Z := default 0 (buffer !! Z.to_nat k).

(** Two buffers agree on everything before a cursor: the bytes before its
    byte, and the bits of its byte before its bit. *)
Definition agree_below (st : Z * Z) (b1 b2 : list Z) : Prop :=
  length b1 = length b2
  /\ (forall k : nat, Z.of_nat k < fst st -> b1 !! k = b2 !! k)
  /\ (forall j, 0 <= j < snd st ->
        Z.testbit (byte_of b1 (fst st)) j = Z.testbit (byte_of b2 (fst st)) j).

(** An item as the calculator leaves a supported item: its type is
    upper-cased and its size normalised. *)
Definition ready (item : S7DBStructureItem) : Prop :=
  supported_item item = true
  /\ item_type item = Some (normal_type item)
  /\ item_size item = Some (normal_size item).

(** The check, on one byte and one index, that the update stays a byte and
    changes the bit of the index only. *)
Definition update_checked (byte index : Z) : bool :=
  forallb (fun value =>
    let byte' := updated_byte value byte index in
    (0 <=? byte') && (byte' <=? 255)
    && forallb (fun j => Bool.eqb (Z.testbit byte' j)
                           (if j =? index then value else Z.testbit byte j))
         (seqZ 0 8))
    [true; false].

(** [bytes] is the image of the value [v] of a scalar [type]: the encoder
    stores these bytes, and the decoder gives [v] back from any buffer that
    holds them. *)
Definition stored_as (type : string) (v : S7Value) (bytes : list Z) : Prop :=
  Forall is_byte bytes
  /\ Z.of_nat (length bytes) = variableTypeSize type
  /\ (forall buffer offset i strlen,
         encodeValueToBuffer buffer (coerce type v) type offset i strlen
         = default buffer (store buffer offset bytes))
  /\ (forall buffer offset i strlen,
         slice buffer offset (length bytes) = Some bytes ->
         parseValueFromBuffer buffer type offset i strlen = v)
  /\ coerce type v = v.

(** What every kind of supported item gives: the encoder writes a buffer
    that keeps what lies before the cursor, and from any buffer that agrees
    with it up to the new cursor the decoder reads a faithful entry. *)
Definition item_round_trip (item : S7DBStructureItem) (st st1 : Z * Z)
    (buffer : list Z) : Prop :=
  exists buffer1,
    encode_step buffer st item = Some (buffer1, st1)
    /\ Forall is_byte buffer1
    /\ agree_below st buffer buffer1
    /\ forall b2, Forall is_byte b2 -> agree_below st1 buffer1 b2 ->
         exists e, parse_step b2 st item = Some (st1, [e], item) /\ faithful item e.


(** A buffer after writes at or after [offset]: it has the length it had,
    holds bytes if it did, and is unchanged before [offset]. *)
Definition kept (offset : Z) (b b' : list Z) : Prop :=
  length b = length b'
  /\ (Forall is_byte b -> Forall is_byte b')
  /\ forall k : nat, Z.of_nat k < offset -> b !! k = b' !! k.

(** ** Notions used by the further statements *)

(** The offsets the calculator pins on the items of a datablock that
    starts at offset [0], in the unit of offsets ([10 * byte + bit]). *)
Definition relative_offsets (items : list S7DBStructureItem) : list Z :=
  omap item_offset (snd (DBStructure_calculateSize items 0)).

(** The position of a cursor in the unit of offsets. *)
Definition cursor_offset (st : Z * Z) : Z := 10 * fst st + snd st.

(** The bit test of [parseBooleanFromBuffer] on the (unsigned) byte read. *)
Definition tested_bit (byte index : Z) : bool :=
  let i := Z.rem index 8 in
  let signed_byte := if 128 <=? byte then byte - 256 else byte in
  negb (Z.land (Z.shiftr signed_byte (Z.land i 31)) 1 =? 0).

(** The integer types with the range of values their writes accept. *)
Definition integer_ranges : list (string * (Z * Z)) :=
  [("BYTE", (0, 255)); ("USINT", (0, 255)); ("SINT", (-128, 127));
   ("INT", (-32768, 32767)); ("UINT", (0, 65535)); ("WORD", (0, 65535));
   ("DINT", (-2147483648, 2147483647)); ("UDINT", (0, 4294967295));
   ("DWORD", (0, 4294967295)); ("TIME", (0, 4294967295));
   ("TIMER", (0, 4294967295))]%string.

(** The types whose value is one fixed-width field: every type but
    [STRING] and [IEC_TIMER]. *)
Definition scalar_type (type : string) : bool :=
  match type_case type with
  | C_STRING | C_IEC_TIMER => false
  | _ => true
  end.

(** The bytes the layout reserves for one value, as the encoder's loop
    passes them to [encodeValueToBuffer]: the stride of a [STRING], the
    width of any other type. *)
Definition reserved (type : string) (strlen : Z) : Z :=
  match type_case type with
  | C_STRING => strlen
  | _ => variableTypeSize type
  end.

(** [b'] differs from [b] inside [lo, hi) at most. *)
Definition unchanged_outside (lo hi : Z) (b b' : list Z) : Prop :=
  forall k : nat, Z.of_nat k < lo \/ hi <= Z.of_nat k -> b' !! k = b !! k.

(** *** S5TIME *)

(** The hexadecimal digit of weight [16^k] of a word. *)
Definition nibble (raw k : Z) : Z := (raw / 16 ^ k) mod 16.

(** What a 16-bit word stands for as an S5TIME: bits 12 and 13 select the
    timebase; three decimal nibbles are read as a decimal number; a decimal
    nibble, [e] and a decimal nibble are read as an exponent literal; any
    other word is not a number. *)
Definition s5_value (raw : Z) : S7Value :=
  let timebase := 10 ^ (1 + (raw / 4096) mod 4) in
  let '(a, b, c) := (nibble raw 2, nibble raw 1, nibble raw 0) in
  if (a <? 10) && (b <? 10) && (c <? 10) then VNum ((100 * a + 10 * b + c) * timebase)
  else if (0 <? a) && (a <? 10) && (b =? 14) && (c <? 10) then VNum (a * 10 ^ c * timebase)
  else VNaN.

(** The part of [parseS5TimeFromBuffer] after the read. *)
Definition s5_decode (raw_value : Z) : S7Value :=
  let factor := Z.shiftr (Z.land raw_value 12288) 12 in
  match hex_text_to_number (Z.land raw_value 4095) with
  | Some value => VNum (value * nth (Z.to_nat factor) S5Time_timebase 0)
  | None => VNaN
  end.

(** The word [encodeS5TimeToBuffer] builds from the factor and the scaled
    value. *)
Definition s5_output (factor scaled : Z) : Z :=
  let text := take 3 (Z_to_units scaled) in
  let hex :=
    match units_to_number text with
    | Some val => if val <? 0 then 0 else undigits 16 (digits 10 val)
    | None => 0
    end in
  Z.lor (Z.shiftl factor 12) (Z.land hex 4095).

(** The clamp and the factor of [encodeS5TimeToBuffer], and the value an
    S5TIME comes back as: the clamped value rounded down to a multiple of
    the timebase of its factor. *)
Definition s5_clamp (value : Z) : Z :=
  if 9990000 <? value then 9990000 else if value <? 0 then 0 else value.

Definition s5_factor (value : Z) : Z :=
  if value <? 9990 then 0 else if value <? 99900 then 1
  else if value <? 999000 then 2 else 3.

Definition s5_quantised (value : Z) : Z :=
  let c := s5_clamp value in
  let timebase := 10 ^ (s5_factor c + 1) in
  c / timebase * timebase.

Definition same_number (a b : S7Value) : bool :=
  match a, b with
  | VNum x, VNum y => x =? y
  | VNaN, VNaN => true
  | _, _ => false
  end.

(** *** Datablocks *)

(** An item as the decoder's loop leaves it: its type upper-cased. *)
Definition upper_typed (item : S7DBStructureItem) : S7DBStructureItem :=
  {| item_name := item_name item;
     item_type := toLocaleUpperCase <$> item_type item;
     item_strlen := item_strlen item; item_size := item_size item;
     item_value := item_value item; item_offset := item_offset item |}.

(** The type the decoder reports for an item that has one. *)
Definition reported_type (item : S7DBStructureItem) : string :=
  toLocaleUpperCase (default EmptyString (item_type item)).

(** An item that is not a composite. *)
Definition plain_item (item : S7DBStructureItem) : Prop :=
  typeIsObject (reported_type item) = false.

(** [b'] has the length of [b] and holds bytes if [b] does. *)
Definition same_shape (b b' : list Z) : Prop :=
  length b' = length b /\ (Forall is_byte b -> Forall is_byte b').

(** *** Transport *)

(** The world after the raw transport calls [events] (in the order they
    were made): the call counter and the trace have moved, nothing else. *)
Definition after_calls (events : list Event) (w : World) : World :=
  {| now := now w; sequences := sequences w; net := net w;
     calls := (length events + calls w)%nat; rivals := rivals w;
     trace := rev events ++ trace w |}.

(** The chunks a read of [size] bytes is cut into when the client's
    [bufferSize] is smaller: the offset of each chunk from the start of the
    block, in bytes, and its size. *)
Definition chunk_plan (size bufferSize : Z) : list (Z * Z) :=
  let batchCount := ceil_div size bufferSize in
  map (fun i => (i * bufferSize,
                 if i <? batchCount - 1 then bufferSize else size - i * bufferSize))
      (seqZ 0 batchCount).

(** A gate nobody holds. *)
Definition free_gate : Gate := {| gate_available := true; gate_timeout := None |}.

(** The ranges [plan] (offset, size) follow one another without gap or
    overlap from [from] to [to], none of them empty. *)
Fixpoint tiles (plan : list (Z * Z)) (from to : Z) : Prop :=
  match plan with
  | [] => from = to
  | (o, s) :: r => o = from /\ 0 < s /\ tiles r (from + s) to
  end.

(** The size of chunk [i] in the chunk loop. *)
Definition chunk_size (size bufferSize batchCount i : Z) : Z :=
  if i <? batchCount - 1 then bufferSize else size - i * bufferSize.

(** *** The handler *)

(** What the validation loop of [read] and [write] reports about one
    variable, if anything: the error, still waiting for the position of the
    variable and the number of variables.  Nothing is reported about
    [null]: its destructuring throws. *)
Definition complaint (need_value : bool) (v : VariableArg)
  : option (nat -> nat -> Validation) :=
  match v with
  | VarOther => Some NotAnObject
  | VarNull => None
  | VarObject None _ | VarObject (Some EmptyString) _ => Some NameNotDefined
  | VarObject (Some _) None => if need_value then Some ValueNotDefined else None
  | VarObject (Some _) (Some _) => None
  end.

(** *** [readAll], [readAllObject], [writeObject] *)

(** A plain object as [block2object] builds it: its own properties in
    the order they were created, and the prototype an assignment to
    [__proto__] may have installed. *)
Record JSObject : Type := mkObject {
  obj_proto : option S7Value;
  obj_own : list (string * S7Value)
}.

(** [typeof value === 'object']: the arrays. *)
Definition is_object (v : S7Value) : bool :=
  match v with VArr _ | VFields _ => true | _ => false end.

(** The own property [name] is created, or keeps its place and takes the
    new value. *)
Fixpoint upsert (name : string) (value : S7Value) (own : list (string * S7Value))
  : list (string * S7Value) :=
  match own with
  | [] => [(name, value)]
  | (k, v) :: r =>
      if String.eqb k name then (k, value) :: r else (k, v) :: upsert name value r
  end.

(** [output[name] = value] on such an object: the key [__proto__] is the
    accessor of [Object.prototype], which installs an object value as the
    prototype and ignores any other value. *)
Definition set_property (o : JSObject) (name : string) (value : S7Value) : JSObject :=
  if String.eqb name "__proto__" then
    if is_object value then {| obj_proto := Some value; obj_own := obj_own o |} else o
  else {| obj_proto := obj_proto o; obj_own := upsert name value (obj_own o) |}.

Definition get_own (o : JSObject) (name : string) : option S7Value :=
  snd <$> find (fun p => String.eqb name (fst p)) (obj_own o).

(** [const { name, value } = block[i]]: a carried error has neither, and
    [undefined] as a key is the string ["undefined"]. *)
Definition output_name (x : Output) : string :=
  match x with
  | OData d => data_name d
  | OError _ => "undefined"
  end.

Definition output_value (x : Output) : S7Value :=
  match x with
  | OData d => data_value d
  | OError _ => VUndef
  end.

Definition block2object (block : list Output) : JSObject :=
  fold_left (fun o x => set_property o (output_name x) (output_value x)) block
            {| obj_proto := None; obj_own := [] |}.

(** [PLC_handler(...).readAll()] and [readAllObject()]. *)
Definition readAll (h : Handler) : M (list Output) :=
  readPLC (h_config h) (Many (h_datablocks h)).

Definition readAllObject (h : Handler) : M JSObject :=
  let* results := readAll h in
  ret (block2object results).



(** The value of the last entry of a block that carries a name. *)
Definition last_named (name : string) (block : list Output) : option S7Value :=
  output_value <$> last (List.filter (fun x => String.eqb name (output_name x)) block).


(** * Properties *)

(** Boolean comparisons of the hypotheses, as propositions. *)
Ltac zbool :=
  repeat match goal with
         | H : (_ <=? _) = true |- _ => apply Z.leb_le in H
         | H : (_ <=? _) = false |- _ => apply Z.leb_gt in H
         | H : (_ <? _) = true |- _ => apply Z.ltb_lt in H
         | H : (_ <? _) = false |- _ => apply Z.ltb_ge in H
         | H : (_ =? _) = true |- _ => apply Z.eqb_eq in H
         | H : (_ =? _) = false |- _ => apply Z.eqb_neq in H
         end.

(** ** Layout calculator *)

Lemma roundUpToEven_even n : Z.even (roundUpToEven n) = true.
Proof.
  unfold roundUpToEven.
  replace (n + Z.rem n 2) with (2 * (n - Z.quot n 2)).
  - apply Z.even_mul.
  - pose proof (Z.quot_rem' n 2). lia.
Qed.

Lemma roundUpToEven_bounds n : 0 <= n -> n <= roundUpToEven n <= n + 1.
Proof.
  intros Hn. unfold roundUpToEven.
  pose proof (Z.rem_bound_pos n 2 Hn). lia.
Qed.

Lemma variableTypeSize_pos type : 1 <= variableTypeSize type.
Proof.
  unfold variableTypeSize. generalize (toLocaleUpperCase type). intros s.
  unfold typeList, assoc_string.
  repeat (destruct (String.eqb s _); [simpl; lia|]).
  simpl. lia.
Qed.

Lemma ceil_div_16 n : n <= 16 * ceil_div n 16.
Proof. unfold ceil_div. Z.to_euclidean_division_equations. lia. Qed.

Lemma or_default_nonzero o d : d <> 0 -> or_default (Some (or_default o d)) 0 = or_default o d.
Proof.
  intros Hd. unfold or_default. destruct o as [z|].
  - destruct (z =? 0) eqn:E.
    + destruct (d =? 0) eqn:E'; [lia | reflexivity].
    + rewrite E. reflexivity.
  - destruct (d =? 0) eqn:E'; [lia | reflexivity].
Qed.

Lemma normal_size_pos item : 1 <= normal_size item.
Proof.
  unfold normal_size. destruct (item_size item) as [s|]; [|lia].
  destruct (0 <? s) eqn:E; lia.
Qed.

Lemma item_typesize_nonneg item : capacity_ok item -> 0 <= item_typesize item.
Proof.
  unfold capacity_ok, item_typesize. intros Hc.
  destruct (isString (normal_type item)).
  - assert (0 <= or_default (item_strlen item) 254 + 2) as Hn.
    { unfold or_default. destruct (item_strlen item) as [n|]; [|lia].
      destruct (n =? 0); lia. }
    pose proof (roundUpToEven_bounds _ Hn) as Hb. unfold roundUpToEven in Hb. lia.
  - pose proof (variableTypeSize_pos (normal_type item)). lia.
Qed.

(** Names every [roundUpToEven x] of the goal, keeping its bounds. *)
Ltac name_roundings :=
  repeat match goal with
         | |- context [roundUpToEven ?x] =>
             let r := fresh "r" in
             let Hr := fresh "Hr" in
             pose proof (roundUpToEven_bounds x) as Hr;
             set (r := roundUpToEven x) in *;
             clearbody r
         | _ : context [roundUpToEven ?x] |- _ =>
             let r := fresh "r" in
             let Hr := fresh "Hr" in
             pose proof (roundUpToEven_bounds x) as Hr;
             set (r := roundUpToEven x) in *;
             clearbody r
         end.

(** One iteration keeps the cursor well formed and advances it by at least
    the bits of the item. *)
Lemma calc_step_bits start total used item :
  0 <= item_typesize item -> 0 <= total -> 0 <= used < 8 ->
  0 <= fst (fst (calc_step start (total, used) item))
  /\ 0 <= snd (fst (calc_step start (total, used) item)) < 8
  /\ 8 * total + used + item_bits item
     <= 8 * fst (fst (calc_step start (total, used) item))
        + snd (fst (calc_step start (total, used) item)).
Proof.
  intros Hts Ht Hu.
  pose proof (normal_size_pos item) as Hsz.
  pose proof (ceil_div_16 (normal_size item)) as Hceil.
  unfold calc_step, item_bits, minimal_stride. unfold item_typesize in *.
  destruct (isString (normal_type item)) eqn:Es.
  - rewrite or_default_nonzero by lia.
    set (ts := or_default (item_strlen item) 254 + 2 + Z.rem (or_default (item_strlen item) 254 + 2) 2) in *.
    clearbody ts.
    destruct (isBoolean (normal_type item)); simpl negb; rewrite ?andb_true_r, ?andb_false_r;
      destruct (0 <? used) eqn:E1; destruct (1 <? ts) eqn:E2;
      destruct (1 <? normal_size item) eqn:E3; cbn [fst snd];
      repeat match goal with
             | |- context [if ?b then _ else _] => destruct b eqn:?
             end; cbn [fst snd]; name_roundings; nia.
  - set (ts := variableTypeSize (normal_type item)) in *. clearbody ts.
    destruct (isBoolean (normal_type item)); simpl negb; rewrite ?andb_true_r, ?andb_false_r;
      destruct (0 <? used) eqn:E1; destruct (1 <? ts) eqn:E2;
      destruct (1 <? normal_size item) eqn:E3; cbn [fst snd];
      repeat match goal with
             | |- context [if ?b then _ else _] => destruct b eqn:?
             end; cbn [fst snd]; name_roundings; nia.
Qed.

Lemma calc_loop_bits start items : forall total used,
  Forall (fun item => 0 <= item_typesize item) items -> 0 <= total -> 0 <= used < 8 ->
  0 <= fst (fst (calc_loop start (total, used) items))
  /\ 0 <= snd (fst (calc_loop start (total, used) items)) < 8
  /\ 8 * total + used + sum_bits items
     <= 8 * fst (fst (calc_loop start (total, used) items))
        + snd (fst (calc_loop start (total, used) items)).
Proof.
  induction items as [|item rest IH]; intros total used Hc Ht Hu.
  - simpl. lia.
  - inversion Hc as [|? ? Hitem Hrest]; subst.
    pose proof (calc_step_bits start total used item Hitem Ht Hu) as Hstep.
    cbn [calc_loop sum_bits fold_right].
    destruct (calc_step start (total, used) item) as [[t1 u1] item'].
    cbn [fst snd] in Hstep. destruct Hstep as (Ht1 & Hu1 & Hle).
    specialize (IH t1 u1 Hrest Ht1 Hu1).
    destruct (calc_loop start (t1, u1) rest) as [[t2 u2] rest'].
    cbn [fst snd] in *. fold (sum_bits rest). lia.
Qed.

(** C2, as stated, fails: three single booleans have widths summing to 3
    bytes, and the calculator packs them into a total of 2. *)
Lemma calculateSize_below_sum_of_widths :
  ~ (sum_strides three_bools <= fst (DBStructure_calculateSize three_bools 0)).
Proof. vm_compute. intros H. apply H. reflexivity. Qed.

(** C2, amended: for every item sequence with non-negative declared
    capacities and every starting offset, the total size is even, and in
    bits it is at least the sum of the items' minimal sizes, where a boolean
    element takes one bit and any other element its type width in bytes. *)
Theorem calculateSize_even_and_covers (items : list S7DBStructureItem) (start_offset : Z) :
  Forall capacity_ok items ->
  Z.even (fst (DBStructure_calculateSize items start_offset)) = true
  /\ sum_bits items <= 8 * fst (DBStructure_calculateSize items start_offset).
Proof.
  intros Hc. unfold DBStructure_calculateSize.
  assert (Forall (fun item => 0 <= item_typesize item) items) as Hts
    by (eapply List.Forall_impl; [|exact Hc]; apply item_typesize_nonneg).
  pose proof (calc_loop_bits start_offset items 0 0 Hts ltac:(lia) ltac:(lia)) as H.
  destruct (calc_loop start_offset (0, 0) items) as [[total used] items'].
  cbn [fst snd] in *. unfold calc_finish. split.
  - apply roundUpToEven_even.
  - destruct (0 <? used) eqn:E; name_roundings; lia.
Qed.

Lemma calculateSize_even_and_covers_witness :
  Forall capacity_ok mixed_layout
  /\ Z.even (fst (DBStructure_calculateSize mixed_layout 0)) = true
  /\ sum_bits mixed_layout <= 8 * fst (DBStructure_calculateSize mixed_layout 0).
Proof.
  assert (Forall capacity_ok mixed_layout) as Hc.
  { unfold mixed_layout. repeat (apply List.Forall_cons; [unfold capacity_ok; simpl; lia|]).
    apply List.Forall_nil. }
  split; [exact Hc | exact (calculateSize_even_and_covers mixed_layout 0 Hc)].
Defined.

Lemma upper_ascii_idem c : upper_ascii (upper_ascii c) = upper_ascii c.
Proof. destruct c as [[] [] [] [] [] [] [] []]; reflexivity. Qed.

Lemma toLocaleUpperCase_idem s : toLocaleUpperCase (toLocaleUpperCase s) = toLocaleUpperCase s.
Proof.
  induction s as [|c r IH]; simpl; [reflexivity|].
  rewrite upper_ascii_idem, IH. reflexivity.
Qed.

Lemma toLocaleUpperCase_empty s : String.eqb (toLocaleUpperCase s) "" = String.eqb s "".
Proof. destruct s; reflexivity. Qed.

(** The type the calculator writes back is stable under the calculator. *)
Lemma normal_type_stable item item' :
  item_type item' = Some (normal_type item) -> normal_type item' = normal_type item.
Proof.
  intros H. unfold normal_type at 1. rewrite H. unfold normal_type.
  destruct (item_type item) as [t|]; [|reflexivity].
  destruct (String.eqb t "") eqn:E; [reflexivity|].
  rewrite toLocaleUpperCase_empty, E. apply toLocaleUpperCase_idem.
Qed.

Lemma normal_size_stable item item' :
  item_size item' = Some (normal_size item) -> normal_size item' = normal_size item.
Proof.
  intros H. pose proof (normal_size_pos item) as Hp.
  unfold normal_size at 1. rewrite H.
  destruct (0 <? normal_size item) eqn:E; [reflexivity | lia].
Qed.

(** What one iteration writes into the item. *)
Lemma calc_step_fields start st item :
  item_name (snd (calc_step start st item)) = item_name item
  /\ item_value (snd (calc_step start st item)) = item_value item
  /\ item_type (snd (calc_step start st item)) = Some (normal_type item)
  /\ item_size (snd (calc_step start st item)) = Some (normal_size item)
  /\ item_strlen (snd (calc_step start st item))
     = if isString (normal_type item) then Some (or_default (item_strlen item) 254)
       else item_strlen item.
Proof.
  destruct st as [total used]. unfold calc_step.
  destruct ((0 <? used) && negb (isBoolean (normal_type item))); repeat split.
Qed.

(** A second pass over an annotated item changes neither cursor nor item. *)
Lemma calc_step_idem start st item :
  calc_step start st (snd (calc_step start st item)) = calc_step start st item.
Proof.
  destruct (calc_step_fields start st item) as (Hn & Hv & Hty & Hsz & Hl).
  set (item' := snd (calc_step start st item)) in *.
  assert (normal_type item' = normal_type item) as Ht
    by (apply normal_type_stable; assumption).
  assert (normal_size item' = normal_size item) as Hs
    by (apply normal_size_stable; assumption).
  clearbody item'. destruct st as [total used].
  unfold calc_step. rewrite Ht, Hs, Hl, Hn, Hv.
  destruct (isString (normal_type item)); [|reflexivity].
  assert (or_default (Some (or_default (item_strlen item) 254)) 254
          = or_default (item_strlen item) 254) as ->; [|reflexivity].
  unfold or_default. destruct (item_strlen item) as [z|]; [|reflexivity].
  destruct (z =? 0) eqn:E; [reflexivity | rewrite E; reflexivity].
Qed.

Lemma calc_loop_idem start items : forall st,
  calc_loop start st (snd (calc_loop start st items)) = calc_loop start st items.
Proof.
  induction items as [|item rest IH]; intros st; [reflexivity|].
  cbn [calc_loop].
  pose proof (calc_step_idem start st item) as Hs.
  destruct (calc_step start st item) as [st1 item'] eqn:E1. cbn [snd] in Hs.
  specialize (IH st1).
  destruct (calc_loop start st1 rest) as [st2 rest'] eqn:E2. cbn [snd] in *.
  cbn [calc_loop]. rewrite Hs, IH. reflexivity.
Qed.

Lemma calc_loop_fields start items : forall st,
  map item_name (snd (calc_loop start st items)) = map item_name items
  /\ map item_value (snd (calc_loop start st items)) = map item_value items
  /\ map item_type (snd (calc_loop start st items))
     = map (fun item => Some (normal_type item)) items
  /\ map item_size (snd (calc_loop start st items))
     = map (fun item => Some (normal_size item)) items.
Proof.
  induction items as [|item rest IH]; intros st; [repeat split|].
  cbn [calc_loop].
  destruct (calc_step start st item) as [st1 item'] eqn:E1.
  specialize (IH st1).
  destruct (calc_loop start st1 rest) as [st2 rest'] eqn:E2. cbn [snd map] in *.
  destruct IH as (-> & -> & -> & ->).
  destruct (calc_step_fields start st item) as (Hn & Hv & Hty & Hsz & _).
  rewrite E1 in *. cbn [snd] in *. rewrite Hn, Hv, Hty, Hsz. repeat split.
Qed.


Lemma calc_loop_start_irrelevant start start' items : forall st,
  fst (calc_loop start st items) = fst (calc_loop start' st items).
Proof.
  induction items as [|item rest IH]; intros st; [reflexivity|].
  cbn [calc_loop].
  assert (fst (calc_step start st item) = fst (calc_step start' st item)) as Hs
    by (destruct st as [total used]; unfold calc_step;
        destruct ((0 <? used) && negb (isBoolean (normal_type item))); reflexivity).
  destruct (calc_step start st item) as [st1 item1].
  destruct (calc_step start' st item) as [st1' item1']. cbn [fst] in Hs. subst st1'.
  specialize (IH st1).
  destruct (calc_loop start st1 rest) as [st2 rest2].
  destruct (calc_loop start' st1 rest) as [st2' rest2']. exact IH.
Qed.

(** C9, as stated, fails: the call rewrites the declarations it is given;
    a lower-case [int] declaration comes back upper-cased, with a size and
    an offset. *)
Lemma calculateSize_rewrites_items :
  snd (DBStructure_calculateSize lower_case_int 0) <> lower_case_int.
Proof. vm_compute. discriminate. Qed.

(** The pinned offset is the starting offset plus the offset pinned for a
    block that starts at [0]. *)
Lemma calc_step_shift start st item :
  fst (calc_step start st item) = fst (calc_step 0 st item)
  /\ item_offset (snd (calc_step start st item))
     = Z.add start <$> item_offset (snd (calc_step 0 st item)).
Proof.
  destruct st as [o b]. unfold calc_step.
  destruct ((0 <? b) && negb (isBoolean (normal_type item)));
    cbn [fst snd item_offset fmap option_fmap option_map]; split;
    try reflexivity; f_equal; lia.
Qed.

Lemma calc_loop_shift start items : forall st,
  map item_offset (snd (calc_loop start st items))
  = map (fmap (Z.add start)) (map item_offset (snd (calc_loop 0 st items))).
Proof.
  induction items as [|item rest IH]; intros st; [reflexivity|].
  cbn [calc_loop]. destruct (calc_step_shift start st item) as [Hst Hoff].
  destruct (calc_step start st item) as [st1 item1].
  destruct (calc_step 0 st item) as [st1' item1']. cbn [fst snd] in *. subst st1'.
  specialize (IH st1).
  destruct (calc_loop start st1 rest) as [st2 rest2].
  destruct (calc_loop 0 st1 rest) as [st2' rest2']. cbn [snd map] in *.
  rewrite Hoff, IH. reflexivity.
Qed.

(** Every item leaves the loop with an offset. *)
Lemma calc_loop_offsets start items : forall st,
  map item_offset (snd (calc_loop start st items))
  = map Some (omap item_offset (snd (calc_loop start st items))).
Proof.
  induction items as [|item rest IH]; intros st; [reflexivity|].
  cbn [calc_loop].
  assert (exists q, item_offset (snd (calc_step start st item)) = Some q) as [q Hq].
  { destruct st as [o b]. unfold calc_step.
    destruct ((0 <? b) && negb (isBoolean (normal_type item)));
      cbn [snd item_offset]; eexists; reflexivity. }
  destruct (calc_step start st item) as [st1 item1]. cbn [snd] in Hq.
  specialize (IH st1). destruct (calc_loop start st1 rest) as [st2 rest2].
  cbn [snd map] in *. simpl omap. rewrite Hq. cbn [map]. rewrite IH. reflexivity.
Qed.

Lemma calc_loop_strlen start items : forall st,
  map item_strlen (snd (calc_loop start st items))
  = map (fun item => if isString (normal_type item)
                     then Some (or_default (item_strlen item) 254)
                     else item_strlen item) items.
Proof.
  induction items as [|item rest IH]; intros st; [reflexivity|].
  cbn [calc_loop].
  destruct (calc_step_fields start st item) as (_ & _ & _ & _ & Hl).
  destruct (calc_step start st item) as [st1 item1]. cbn [snd] in Hl.
  specialize (IH st1). destruct (calc_loop start st1 rest) as [st2 rest2].
  cbn [snd map] in *. rewrite Hl, IH. reflexivity.
Qed.

(** C9, amended: [DBStructure_calculateSize] returns the total size and
    annotates the declarations in place.  Names and values are kept; the
    type becomes the upper-cased type ([UINT] when missing), the size the
    normalised count, the capacity of a [STRING] its default [254] when it
    is missing or zero, and the offset of every item the computed offset,
    which is the starting offset plus the offset of the item in the block
    laid out from [0]; the total does not depend on the starting offset;
    and a second call on the annotated declarations returns the same total
    and changes nothing more. *)
Theorem calculateSize_annotates (items : list S7DBStructureItem) (start_offset : Z) :
  let total := fst (DBStructure_calculateSize items start_offset) in
  let items' := snd (DBStructure_calculateSize items start_offset) in
  map item_name items' = map item_name items
  /\ map item_value items' = map item_value items
  /\ map item_type items' = map (fun item => Some (normal_type item)) items
  /\ map item_size items' = map (fun item => Some (normal_size item)) items
  /\ map item_strlen items'
     = map (fun item => if isString (normal_type item)
                        then Some (or_default (item_strlen item) 254)
                        else item_strlen item) items
  /\ map item_offset items'
     = map (fun q => Some (start_offset + q)) (relative_offsets items)
  /\ length (relative_offsets items) = length items
  /\ (forall start_offset', fst (DBStructure_calculateSize items start_offset') = total)
  /\ DBStructure_calculateSize items' start_offset = (total, items').
Proof.
  unfold relative_offsets, DBStructure_calculateSize. cbn zeta.
  pose proof (calc_loop_fields start_offset items (0, 0)) as Hf.
  pose proof (calc_loop_idem start_offset items (0, 0)) as Hi.
  pose proof (calc_loop_strlen start_offset items (0, 0)) as Hl.
  pose proof (calc_loop_shift start_offset items (0, 0)) as Hshift.
  pose proof (calc_loop_offsets 0 items (0, 0)) as Hsome.
  pose proof (calc_loop_fields 0 items (0, 0)) as (Hn0 & _).
  assert (forall s', calc_finish (fst (calc_loop s' (0, 0) items))
                     = calc_finish (fst (calc_loop start_offset (0, 0) items))) as Hs
    by (intros s'; f_equal; apply calc_loop_start_irrelevant).
  assert (snd (let '(st, items0) := calc_loop 0 (0, 0) items in (calc_finish st, items0))
          = snd (calc_loop 0 (0, 0) items)) as Hzero
    by (destruct (calc_loop 0 (0, 0) items); reflexivity).
  rewrite Hzero.
  set (qs := omap item_offset (snd (calc_loop 0 (0, 0) items))) in *.
  assert (length qs = length items) as Hlen.
  { rewrite <- (length_map Some qs), <- Hsome, length_map, <- (length_map item_name), Hn0.
    apply length_map. }
  destruct (calc_loop start_offset (0, 0) items) as [st items'] eqn:E.
  cbn [fst snd] in *. destruct Hf as (Hn & Hv & Ht & Hz).
  repeat split; try assumption.
  - rewrite Hshift, Hsome, map_map. reflexivity.
  - intros s'. specialize (Hs s').
    destruct (calc_loop s' (0, 0) items) as [st' ?]. exact Hs.
  - rewrite Hi. reflexivity.
Qed.

(** ** Buffer reads and writes *)

Lemma store_Some buffer offset bytes :
  0 <= offset -> offset + Z.of_nat (length bytes) <= Z.of_nat (length buffer) ->
  store buffer offset bytes
  = Some (take (Z.to_nat offset) buffer ++ bytes
            ++ drop (Z.to_nat offset + length bytes) buffer).
Proof.
  intros H0 H1. unfold store.
  destruct (0 <=? offset) eqn:E0; [|lia].
  destruct (offset + Z.of_nat (length bytes) <=? Z.of_nat (length buffer)) eqn:E1; [|lia].
  reflexivity.
Qed.

Lemma store_inv buffer offset bytes buffer' :
  store buffer offset bytes = Some buffer' ->
  0 <= offset /\ offset + Z.of_nat (length bytes) <= Z.of_nat (length buffer)
  /\ buffer' = take (Z.to_nat offset) buffer ++ bytes
                 ++ drop (Z.to_nat offset + length bytes) buffer.
Proof.
  unfold store.
  destruct (0 <=? offset) eqn:E0; [|discriminate].
  destruct (offset + Z.of_nat (length bytes) <=? Z.of_nat (length buffer)) eqn:E1;
    [|discriminate].
  cbn [andb]. intros [= <-]. repeat split; lia.
Qed.

Lemma store_length buffer offset bytes buffer' :
  store buffer offset bytes = Some buffer' -> length buffer' = length buffer.
Proof.
  intros H. apply store_inv in H as (H0 & H1 & ->).
  rewrite !length_app, length_take, length_drop. lia.
Qed.

(** A write changes the bytes it covers and no other. *)
Lemma store_lookup buffer offset bytes buffer' (k : nat) :
  store buffer offset bytes = Some buffer' ->
  buffer' !! k =
    if decide (Z.to_nat offset <= k < Z.to_nat offset + length bytes)%nat
    then bytes !! (k - Z.to_nat offset)%nat
    else buffer !! k.
Proof.
  intros H. apply store_inv in H as (H0 & H1 & ->).
  assert (length (take (Z.to_nat offset) buffer) = Z.to_nat offset) as Hlt
    by (rewrite length_take; lia).
  destruct (decide (k < Z.to_nat offset)%nat) as [Hk|Hk].
  - rewrite lookup_app_l by lia. rewrite lookup_take_lt by lia.
    destruct (decide _) as [[? ?]|?]; [lia | reflexivity].
  - rewrite lookup_app_r by lia. rewrite Hlt.
    destruct (decide (k - Z.to_nat offset < length bytes)%nat) as [Hb|Hb].
    + rewrite lookup_app_l by lia.
      destruct (decide _) as [?|?]; [reflexivity | lia].
    + rewrite lookup_app_r by lia. rewrite lookup_drop.
      destruct (decide _) as [[? ?]|?]; [lia|]. f_equal. lia.
Qed.

Lemma slice_Some buffer offset n :
  0 <= offset -> offset + Z.of_nat n <= Z.of_nat (length buffer) ->
  slice buffer offset n = Some (take n (drop (Z.to_nat offset) buffer)).
Proof.
  intros H0 H1. unfold slice.
  destruct (0 <=? offset) eqn:E0; [|lia].
  destruct (offset + Z.of_nat n <=? Z.of_nat (length buffer)) eqn:E1; [|lia].
  reflexivity.
Qed.

(** A read depends on the length of the buffer and on the bytes it covers. *)
Lemma slice_ext b1 b2 offset n :
  length b1 = length b2 ->
  (forall k : nat, (Z.to_nat offset <= k < Z.to_nat offset + n)%nat -> b1 !! k = b2 !! k) ->
  slice b1 offset n = slice b2 offset n.
Proof.
  intros Hl Hk. unfold slice. rewrite Hl.
  destruct ((0 <=? offset) && (offset + Z.of_nat n <=? Z.of_nat (length b2))); [|reflexivity].
  f_equal. apply list_eq. intros i.
  destruct (decide (i < n)%nat) as [Hi|Hi].
  - rewrite !lookup_take_lt by lia. rewrite !lookup_drop. apply Hk. lia.
  - rewrite !lookup_take_ge by lia. reflexivity.
Qed.

(** Reading back what was just written. *)
Lemma slice_store buffer offset bytes buffer' :
  store buffer offset bytes = Some buffer' ->
  slice buffer' offset (length bytes) = Some bytes.
Proof.
  intros H. pose proof (store_length _ _ _ _ H) as Hl.
  pose proof (store_inv _ _ _ _ H) as (H0 & H1 & _).
  rewrite slice_Some by lia. f_equal. apply list_eq. intros i.
  destruct (decide (i < length bytes)%nat) as [Hi|Hi].
  - rewrite lookup_take_lt by lia. rewrite lookup_drop.
    rewrite (store_lookup _ _ _ _ _ H).
    destruct (decide _) as [?|?]; [f_equal; lia | lia].
  - rewrite lookup_take_ge by lia. symmetry. apply lookup_ge_None. lia.
Qed.

Lemma be_bytes_length n v : length (be_bytes n v) = n.
Proof. induction n as [|k IH]; simpl; [reflexivity | rewrite IH; reflexivity]. Qed.

Lemma fold_digits base ds : forall acc,
  fold_left (fun acc d => acc * base + d) ds acc
  = acc * base ^ Z.of_nat (length ds) + fold_left (fun acc d => acc * base + d) ds 0.
Proof.
  induction ds as [|x r IH]; intros acc.
  - simpl. lia.
  - cbn [fold_left length]. rewrite (IH (acc * base + x)), (IH (0 * base + x)).
    rewrite Nat2Z.inj_succ, Z.pow_succ_r by lia. lia.
Qed.

Lemma undigits_cons base d ds :
  undigits base (d :: ds) = d * base ^ Z.of_nat (length ds) + undigits base ds.
Proof.
  unfold undigits. cbn [fold_left]. rewrite fold_digits. lia.
Qed.

(** The big-endian bytes of a value give the value back, modulo their
    width. *)
Lemma be_value_be_bytes_mod n v : be_value (be_bytes n v) = v mod 256 ^ Z.of_nat n.
Proof.
  unfold be_value. induction n as [|k IH].
  - simpl. rewrite Z.mod_1_r. reflexivity.
  - cbn [be_bytes]. rewrite undigits_cons, be_bytes_length, IH.
    rewrite Nat2Z.inj_succ, Z.pow_succ_r by lia.
    assert (0 < 256 ^ Z.of_nat k) by (apply Z.pow_pos_nonneg; lia).
    rewrite (Z.mul_comm 256), Z.rem_mul_r by lia. lia.
Qed.

Lemma be_value_be_bytes n v :
  0 <= v < 256 ^ Z.of_nat n -> be_value (be_bytes n v) = v.
Proof. intros Hv. rewrite be_value_be_bytes_mod. apply Z.mod_small. exact Hv. Qed.

(** ** Typed reads and writes *)

Lemma signed_abs v : signed (v <? 0) (Z.abs v) = v.
Proof. unfold signed. destruct (v <? 0) eqn:E; lia. Qed.

(** An integer inside the range of the field is stored as its bytes. *)
Lemma writeIntBE_VNum n min max buffer v offset :
  min <= v <= max ->
  writeIntBE n min max buffer (VNum v) offset
  = store buffer offset (be_bytes n (v mod 2 ^ (8 * Z.of_nat n))).
Proof.
  intros Hv. unfold writeIntBE. cbn [to_number number_view number_of_Z js_gt js_lt js_trunc].
  change (0 <=? 0) with true. cbn iota. rewrite Z.shiftl_0_r, signed_abs.
  destruct (max <? v) eqn:E1; [lia|]. destruct (v <? min) eqn:E2; [lia|]. reflexivity.
Qed.

Lemma pow256 n : 256 ^ Z.of_nat n = 2 ^ (8 * Z.of_nat n).
Proof. change 256 with (2 ^ 8). rewrite <- Z.pow_mul_r by lia. reflexivity. Qed.

(** Any buffer holding the stored bytes reads back the stored value. *)
Lemma readUIntBE_bytes n buffer offset v :
  slice buffer offset n = Some (be_bytes n (v mod 2 ^ (8 * Z.of_nat n))) ->
  readUIntBE n buffer offset = Some (v mod 2 ^ (8 * Z.of_nat n)).
Proof.
  intros H. unfold readUIntBE. rewrite H. cbn. f_equal.
  rewrite be_value_be_bytes_mod, pow256. apply Z.mod_mod.
  apply Z.pow_nonzero; lia.
Qed.

Lemma readUIntBE_unsigned n buffer offset v :
  0 <= v < 2 ^ (8 * Z.of_nat n) ->
  slice buffer offset n = Some (be_bytes n (v mod 2 ^ (8 * Z.of_nat n))) ->
  readUIntBE n buffer offset = Some v.
Proof.
  intros Hv H. rewrite (readUIntBE_bytes _ _ _ _ H). f_equal. apply Z.mod_small. exact Hv.
Qed.

Lemma readIntBE_signed n buffer offset v :
  (0 < n)%nat ->
  - 2 ^ (8 * Z.of_nat n - 1) <= v < 2 ^ (8 * Z.of_nat n - 1) ->
  slice buffer offset n = Some (be_bytes n (v mod 2 ^ (8 * Z.of_nat n))) ->
  readIntBE n buffer offset = Some v.
Proof.
  intros Hn Hv H. unfold readIntBE. rewrite (readUIntBE_bytes _ _ _ _ H). cbn. f_equal.
  assert (2 ^ (8 * Z.of_nat n) = 2 * 2 ^ (8 * Z.of_nat n - 1)) as Hp.
  { rewrite <- Z.pow_succ_r by lia. f_equal. lia. }
  assert (0 < 2 ^ (8 * Z.of_nat n - 1)) as Hpos by (apply Z.pow_pos_nonneg; lia).
  destruct (Z_lt_le_dec v 0) as [Hneg|Hpos'].
  - assert (v mod 2 ^ (8 * Z.of_nat n) = v + 2 ^ (8 * Z.of_nat n)) as ->.
    { symmetry. apply Z.mod_unique with (q := -1); lia. }
    destruct (2 ^ (8 * Z.of_nat n - 1) <=? v + 2 ^ (8 * Z.of_nat n)) eqn:E; lia.
  - rewrite Z.mod_small by lia.
    destruct (2 ^ (8 * Z.of_nat n - 1) <=? v) eqn:E; lia.
Qed.

(** ** S5TIME *)

(** C3, as stated, fails: the value decoded from the two bytes encoded for
    1234 is neither 1200 nor 1300. *)
Lemma s5time_1234_not_hundreds :
  ~ (exists v,
        parseS5TimeFromBuffer
          (written_buffer (encodeS5TimeToBuffer (VNum 1234) [0; 0] 0)) 0 = Some (VNum v)
        /\ (v = 1200 \/ v = 1300)).
Proof.
  intros (v & Hv & Hor). vm_compute in Hv.
  injection Hv as <-. destruct Hor; discriminate.
Qed.

(** C3, amended: encoding 1234 ms selects the 10 ms timebase (the bytes are
    [0x01 0x23]) and decoding them yields 1230, within one unit of that
    timebase of 1234. *)
Theorem s5time_1234_roundtrip :
  encodeS5TimeToBuffer (VNum 1234) [0; 0] 0 = Done [1; 35]
  /\ parseS5TimeFromBuffer
       (written_buffer (encodeS5TimeToBuffer (VNum 1234) [0; 0] 0)) 0 = Some (VNum 1230)
  /\ Z.abs (1230 - 1234) <= nth 0 S5Time_timebase 0.
Proof. repeat split. vm_compute. discriminate. Qed.

(** ** STRING *)

Lemma writeUInt8_byte buffer c offset :
  is_byte c -> writeUInt8 buffer (VNum c) offset = store buffer offset [c].
Proof.
  intros Hc. unfold is_byte in Hc. unfold writeUInt8.
  rewrite writeIntBE_VNum by lia. cbn [be_bytes Z.of_nat].
  change (2 ^ (8 * 1)) with 256. change (256 ^ 0) with 1.
  rewrite Z.div_1_r, Z.mod_mod, Z.mod_small by lia. reflexivity.
Qed.

Lemma readUInt8_slice buffer offset c r n :
  slice buffer offset (S n) = Some (c :: r) ->
  readUInt8 buffer offset = Some c /\ slice buffer (offset + 1) n = Some r.
Proof.
  unfold readUInt8, readUIntBE, slice.
  destruct (0 <=? offset) eqn:E0; [|discriminate].
  destruct (offset + Z.of_nat (S n) <=? Z.of_nat (length buffer)) eqn:E1; [|discriminate].
  cbn [andb]. intros [= H].
  destruct (0 <=? offset + 1) eqn:E2; [|exfalso; zbool; lia].
  destruct (offset + Z.of_nat 1 <=? Z.of_nat (length buffer)) eqn:E3; [|exfalso; zbool; lia].
  destruct (offset + 1 + Z.of_nat n <=? Z.of_nat (length buffer)) eqn:E4; [|exfalso; zbool; lia].
  cbn [andb fmap option_fmap option_map].
  replace (Z.to_nat (offset + 1)) with (S (Z.to_nat offset)) by lia.
  destruct (drop (Z.to_nat offset) buffer) as [|x l] eqn:Ed; [discriminate|].
  cbn [take] in H. injection H as -> <-.
  assert (drop (S (Z.to_nat offset)) buffer = l) as ->.
  { change (S (Z.to_nat offset)) with (1 + Z.to_nat offset)%nat.
    rewrite Nat.add_comm, <- drop_drop, Ed. reflexivity. }
  cbn [take]. rewrite take_0. split; reflexivity.
Qed.

(** The character loop of the decoder returns the bytes it covers. *)
Lemma parse_chars_slice n : forall buffer offset l,
  slice buffer offset n = Some l -> parse_chars buffer offset n = l.
Proof.
  induction n as [|k IH]; intros buffer offset l H.
  - unfold slice in H. destruct (_ && _); [|discriminate].
    injection H as <-. reflexivity.
  - destruct l as [|c r].
    { unfold slice in H. destruct (_ && _) eqn:E; [|discriminate].
      injection H as H. apply (f_equal length) in H.
      rewrite length_take, length_drop in H. cbn [length] in H.
      apply andb_prop in E as [E0 E1]. zbool. lia. }
    apply readUInt8_slice in H as [Hc Hr].
    cbn [parse_chars]. rewrite Hc. f_equal. apply IH. exact Hr.
Qed.

Lemma store_cons buffer offset c r buffer' :
  store buffer offset (c :: r) = Some buffer' ->
  exists b1, store buffer offset [c] = Some b1 /\ store b1 (offset + 1) r = Some buffer'.
Proof.
  intros H. pose proof (store_inv _ _ _ _ H) as (H0 & H1 & _). cbn [length] in H1.
  destruct (store buffer offset [c]) as [b1|] eqn:E1.
  2:{ rewrite store_Some in E1 by (cbn [length]; lia). discriminate. }
  exists b1. split; [reflexivity|].
  pose proof (store_length _ _ _ _ E1) as Hl1.
  destruct (store b1 (offset + 1) r) as [b2|] eqn:E2.
  2:{ rewrite store_Some in E2 by lia. discriminate. }
  f_equal. apply list_eq. intros k.
  rewrite (store_lookup _ _ _ _ k E2), (store_lookup _ _ _ _ k E1),
    (store_lookup _ _ _ _ k H).
  cbn [length].
  replace (Z.to_nat (offset + 1)) with (S (Z.to_nat offset)) by lia.
  repeat (destruct (decide _) as [?|?]); try lia; try reflexivity.
  - destruct (k - Z.to_nat offset)%nat as [|j] eqn:Ek; [lia|].
    cbn. f_equal. lia.
  - replace (k - Z.to_nat offset)%nat with 0%nat by lia. reflexivity.
Qed.

(** The character loop of the encoder stores the characters. *)
Lemma encode_chars_store chars : forall buffer offset buffer',
  Forall is_byte chars ->
  store buffer offset chars = Some buffer' ->
  encode_chars chars buffer offset = Done buffer'.
Proof.
  induction chars as [|c r IH]; intros buffer offset buffer' Hb H.
  - apply store_inv in H as (_ & _ & ->). cbn [length] in *.
    rewrite Nat.add_0_r, app_nil_l, take_drop. reflexivity.
  - inversion Hb as [|? ? Hc Hr]; subst.
    apply store_cons in H as (b1 & H1 & H2).
    cbn [encode_chars]. unfold encodeCharacterToBuffer. cbn [charCodeAt0].
    rewrite writeUInt8_byte, H1 by exact Hc. cbn [attempt].
    apply IH; assumption.
Qed.

(** A text is stored as its capacity, its truncated length and its
    truncated characters. *)
Lemma encodeStringToBuffer_store value buffer offset strlen k buffer' :
  Forall is_byte value -> 0 <= strlen - 2 <= 255 ->
  k = Z.min (Z.of_nat (length value)) (strlen - 2) ->
  store buffer offset (strlen - 2 :: k :: take (Z.to_nat k) value) = Some buffer' ->
  encodeStringToBuffer value buffer offset strlen = Done buffer'.
Proof.
  intros Hb Hs Hk H. unfold encodeStringToBuffer.
  assert ((if strlen - 2 <? Z.of_nat (length value) then strlen - 2
           else Z.of_nat (length value)) = k) as ->.
  { destruct (strlen - 2 <? Z.of_nat (length value)) eqn:E; lia. }
  apply store_cons in H as (b1 & H1 & H2).
  apply store_cons in H2 as (b2 & H2 & H3).
  rewrite writeUInt8_byte, H1 by (unfold is_byte; lia).
  rewrite writeUInt8_byte, H2 by (unfold is_byte; lia).
  replace (offset + 2) with (offset + 1 + 1) by lia.
  apply encode_chars_store; [|exact H3].
  apply Forall_take. exact Hb.
Qed.

(** Any buffer holding such an image decodes to the stored characters. *)
Lemma parseStringFromBuffer_slice buffer offset expected m (chars : list Z) :
  is_byte (Z.of_nat (length chars)) ->
  slice buffer offset (2 + length chars) = Some (m :: Z.of_nat (length chars) :: chars) ->
  parseStringFromBuffer buffer offset expected = VStr chars.
Proof.
  intros Hk H. unfold parseStringFromBuffer, stringTypeSize.
  apply readUInt8_slice in H as [Hm H]. rewrite Hm. cbn [mbind option_bind].
  apply readUInt8_slice in H as [Hl H]. rewrite Hl.
  rewrite Nat2Z.id. f_equal. apply parse_chars_slice.
  replace (offset + 2) with (offset + 1 + 1) by lia. exact H.
Qed.

(** C4, as stated, fails for a value with a character that does not fit in
    one byte: the write of that character throws, the error is caught, and
    the characters from there on are not stored, while the used length
    written before them already says 16.  A 30-character value whose third
    character is the euro sign is encoded into 18 bytes that decode to its
    first two characters followed by 14 zero characters, not to its first
    16 characters. *)
Lemma wide_character_cuts_the_string :
  length wide_message = 30%nat
  /\ exists buffer items',
       DBStructure_encode [string_item "text" 16 wide_message] 0 = Some (buffer, items')
       /\ length buffer = 18%nat
       /\ DBStructure_parse items' buffer
          = Some ([{| data_name := "text"; data_type := "STRING";
                      data_value := VStr (97 :: 98 :: replicate 14 0) |}], items')
       /\ VStr (97 :: 98 :: replicate 14 0) <> VStr (take 16 wide_message).
Proof.
  split; [reflexivity|]. eexists. eexists.
  split; [vm_compute; reflexivity|]. split; [reflexivity|].
  split; [vm_compute; reflexivity|]. vm_compute. discriminate.
Qed.

(** C4, amended: a [STRING] item of capacity 16 carrying a 30-character
    value of single-byte characters is encoded into the 18 bytes [16], [16]
    and the first 16 characters, and these decode back to exactly the first
    16 characters. *)
Theorem string_capacity_16_roundtrip (name : string) (value : list Z) :
  length value = 30%nat -> Forall is_byte value ->
  let image := 16 :: 16 :: take 16 value in
  exists items',
    DBStructure_encode [string_item name 16 value] 0 = Some (image, items')
    /\ length image = 18%nat
    /\ DBStructure_parse items' image
       = Some ([{| data_name := name; data_type := "STRING";
                   data_value := VStr (take 16 value) |}], items').
Proof.
  intros Hlen Hbytes image.
  assert (length (take 16 value) = 16%nat) as Ht by (rewrite length_take; lia).
  assert (length image = 18%nat) as Hi by (unfold image; cbn [length]; lia).
  set (item' := {| item_name := name; item_type := Some "STRING"%string;
                   item_strlen := Some 16; item_size := Some 1;
                   item_value := VStr value; item_offset := Some 0 |}).
  exists [item']. split; [|split; [exact Hi|]].
  - change (Some (written_buffer (encodeStringToBuffer value (replicate 18 0) 0 18), [item'])
            = Some (image, [item'])).
    rewrite (encodeStringToBuffer_store value (replicate 18 0) 0 18 16 image Hbytes);
      [reflexivity | lia | lia |].
    change (18 - 2) with 16. change (Z.to_nat 16) with 16%nat. fold image.
    rewrite store_Some by (rewrite ?Hi; cbn; lia).
    rewrite Hi. cbn. rewrite app_nil_r. reflexivity.
  - change (Some ([{| data_name := name; data_type := "STRING";
                      data_value := parseStringFromBuffer image 0 18 |}], [item'])
            = Some ([{| data_name := name; data_type := "STRING";
                        data_value := VStr (take 16 value) |}], [item'])).
    rewrite (parseStringFromBuffer_slice image 0 18 16 (take 16 value)); [reflexivity | |].
    + rewrite Ht. unfold is_byte. lia.
    + rewrite Ht. rewrite slice_Some; [| lia | rewrite Hi; cbn; lia].
      change (Z.to_nat 0) with 0%nat. rewrite drop_0, take_ge by (rewrite Hi; lia).
      reflexivity.
Qed.

Lemma string_capacity_16_roundtrip_witness :
  length long_message = 30%nat /\ Forall is_byte long_message
  /\ exists items',
       DBStructure_encode [string_item "STRING_16_text" 16 long_message] 0
       = Some (16 :: 16 :: take 16 long_message, items')
       /\ length (16 :: 16 :: take 16 long_message) = 18%nat
       /\ DBStructure_parse items' (16 :: 16 :: take 16 long_message)
          = Some ([{| data_name := "STRING_16_text"; data_type := "STRING";
                      data_value := VStr (take 16 long_message) |}], items').
Proof.
  assert (Forall is_byte long_message) as Hb.
  { unfold long_message. cbn.
    repeat (apply List.Forall_cons; [unfold is_byte; lia|]). apply List.Forall_nil. }
  split; [reflexivity | split; [exact Hb|]].
  exact (string_capacity_16_roundtrip "STRING_16_text" long_message eq_refl Hb).
Defined.

(** ** Bits and IEC_TIMER *)

Lemma land_1_odd a : negb (Z.land a 1 =? 0) = Z.odd a.
Proof.
  change 1 with (Z.ones 1). rewrite Z.land_ones by lia.
  change (2 ^ 1) with 2. rewrite Zmod_odd. destruct (Z.odd a); reflexivity.
Qed.

(** The decoder's bit test on the signed byte is the bit of the byte. *)
Lemma signed_byte_bit x i :
  is_byte x -> 0 <= i < 8 ->
  negb (Z.land (Z.shiftr (if 2 ^ (8 * Z.of_nat 1 - 1) <=? x then x - 2 ^ (8 * Z.of_nat 1) else x) i) 1 =? 0)
  = Z.testbit x i.
Proof.
  intros Hx Hi. rewrite land_1_odd, <- Z.bit0_odd, Z.shiftr_spec by lia.
  rewrite Z.add_0_l. change (2 ^ (8 * Z.of_nat 1 - 1)) with 128.
  change (2 ^ (8 * Z.of_nat 1)) with (2 ^ 8).
  destruct (128 <=? x); [|reflexivity].
  rewrite <- (Z.mod_pow2_bits_low (x - 2 ^ 8) 8 i) by lia.
  rewrite <- (Z.mod_pow2_bits_low x 8 i) by lia.
  f_equal. replace (x - 2 ^ 8) with (x + (-1) * 2 ^ 8) by lia.
  apply Z_mod_plus_full.
Qed.

Lemma parseBooleanFromBuffer_bit buffer offset index x :
  0 <= index < 8 -> is_byte x ->
  slice buffer offset 1 = Some [x] ->
  parseBooleanFromBuffer buffer offset index = Some (Z.testbit x index).
Proof.
  intros Hi Hx Hs. unfold parseBooleanFromBuffer.
  assert (Z.rem index 8 = index) as -> by (apply Z.rem_small; lia).
  assert ((if 7 <? index then 1 else 0) = 0) as ->
    by (destruct (7 <? index) eqn:E; [zbool; lia | reflexivity]).
  rewrite Z.add_0_r. unfold readInt8, readIntBE, readUIntBE. rewrite Hs.
  cbn [fmap option_fmap option_map mbind option_bind].
  assert (be_value [x] = x) as -> by (unfold be_value, undigits; cbn [fold_left]; lia).
  assert (Z.land index 31 = index) as ->.
  { change 31 with (Z.ones 5). rewrite Z.land_ones by lia. apply Z.mod_small.
    change (2 ^ 5) with 32. lia. }
  f_equal. apply signed_byte_bit; assumption.
Qed.

Lemma readUIntBE_field n buffer (offset : nat) :
  (offset + n <= length buffer)%nat ->
  readUIntBE n buffer (Z.of_nat offset) = Some (field buffer offset n).
Proof.
  intros H. unfold readUIntBE, field. rewrite slice_Some by lia.
  rewrite Nat2Z.id. reflexivity.
Qed.

Lemma field_byte buffer (offset : nat) :
  Forall is_byte buffer -> (offset < length buffer)%nat ->
  is_byte (field buffer offset 1)
  /\ slice buffer (Z.of_nat offset) 1 = Some [field buffer offset 1].
Proof.
  intros Hb Hl. unfold field. rewrite slice_Some by lia. rewrite Nat2Z.id.
  destruct (drop offset buffer) as [|x l] eqn:Ed.
  { apply (f_equal length) in Ed. rewrite length_drop in Ed. cbn [length] in Ed. lia. }
  cbn [take]. rewrite take_0.
  assert (be_value [x] = x) as -> by (unfold be_value, undigits; cbn [fold_left]; lia).
  split; [|reflexivity].
  assert (x ∈ buffer) as Hin.
  { apply list_elem_of_lookup. exists offset.
    rewrite <- (Nat.add_0_r offset), <- lookup_drop, Ed. reflexivity. }
  rewrite Forall_forall in Hb. apply Hb. exact Hin.
Qed.

(** C8: decoding a single [IEC_TIMER] item from its 16 bytes yields exactly
    the six entries [parent.start], [parent.PT], [parent.ET], [parent.IN],
    [parent.Q], [parent.end], and no entry for the parent itself; [IN] and
    [Q] are bit 0 and bit 1 of the byte at sub-offset 12. *)
Theorem iec_timer_decode (name : string) (buffer : list Z) :
  length buffer = 16%nat -> Forall is_byte buffer ->
  fst <$> DBStructure_parse [declare name "IEC_TIMER" VUndef] buffer
  = Some [ {| data_name := name +:+ ".start"; data_type := "UDINT";
              data_value := VNum (field buffer 0 4) |};
           {| data_name := name +:+ ".PT"; data_type := "TIME";
              data_value := VNum (field buffer 4 4) |};
           {| data_name := name +:+ ".ET"; data_type := "TIME";
              data_value := VNum (field buffer 8 4) |};
           {| data_name := name +:+ ".IN"; data_type := "BOOL";
              data_value := VBool (Z.testbit (field buffer 12 1) 0) |};
           {| data_name := name +:+ ".Q"; data_type := "BOOL";
              data_value := VBool (Z.testbit (field buffer 12 1) 1) |};
           {| data_name := name +:+ ".end"; data_type := "UINT";
              data_value := VNum (field buffer 14 2) |} ].
Proof.
  intros Hl Hb.
  change (DBStructure_parse [declare name "IEC_TIMER" VUndef] buffer)
    with (Some (flatten_fields name
            [("start", "UDINT", caught "UDINT" 0 (VNum <$> readUInt32BE buffer (Z.of_nat 0)));
             ("PT", "TIME", caught "TIME" 4 (VNum <$> readUInt32BE buffer (Z.of_nat 4)));
             ("ET", "TIME", caught "TIME" 8 (VNum <$> readUInt32BE buffer (Z.of_nat 8)));
             ("IN", "BOOL", caught "BOOL" 12
                (VBool <$> parseBooleanFromBuffer buffer (Z.of_nat 12) 0));
             ("Q", "BOOL", caught "BOOL" 12
                (VBool <$> parseBooleanFromBuffer buffer (Z.of_nat 12) 1));
             ("end", "UINT", caught "UINT" 14 (VNum <$> readUInt16BE buffer (Z.of_nat 14)))]%string,
          [declare name (toLocaleUpperCase "IEC_TIMER") VUndef])).
  destruct (field_byte buffer 12 Hb ltac:(lia)) as [Hx Hs].
  unfold readUInt32BE, readUInt16BE.
  rewrite !readUIntBE_field by lia.
  rewrite !(parseBooleanFromBuffer_bit buffer (Z.of_nat 12) _ (field buffer 12 1))
    by (assumption || lia).
  reflexivity.
Qed.

Lemma iec_timer_decode_witness :
  length timer_image = 16%nat /\ Forall is_byte timer_image
  /\ fst <$> DBStructure_parse [declare "T1" "IEC_TIMER" VUndef] timer_image
     = Some [ {| data_name := "T1.start"; data_type := "UDINT"; data_value := VNum 1 |};
              {| data_name := "T1.PT"; data_type := "TIME"; data_value := VNum 1000 |};
              {| data_name := "T1.ET"; data_type := "TIME"; data_value := VNum 250 |};
              {| data_name := "T1.IN"; data_type := "BOOL"; data_value := VBool true |};
              {| data_name := "T1.Q"; data_type := "BOOL"; data_value := VBool false |};
              {| data_name := "T1.end"; data_type := "UINT"; data_value := VNum 0 |} ].
Proof.
  assert (Forall is_byte timer_image) as Hb.
  { unfold timer_image.
    repeat (apply List.Forall_cons; [unfold is_byte; lia|]). apply List.Forall_nil. }
  split; [reflexivity | split; [exact Hb|]].
  exact (iec_timer_decode "T1" timer_image eq_refl Hb).
Defined.

(** ** Per-transfer retry *)

(** A read is attempted at most three times: three consecutive failures
    exhaust it, with exactly three raw calls. *)
Lemma read_with_retries_exhausted db offset size w e1 e2 e3 :
  net w (calls w) = NetErr e1 ->
  net w (S (calls w)) = NetErr e2 ->
  net w (S (S (calls w))) = NetErr e3 ->
  fst (read_with_retries db offset size 3 w) = inl e3
  /\ calls (snd (read_with_retries db offset size 3 w)) = S (S (S (calls w))).
Proof.
  intros H1 H2 H3. cbn [read_with_retries]. unfold read_default, raw_call.
  cbn [net calls]. rewrite H1. cbn [net calls]. rewrite H2. cbn [net calls]. rewrite H3.
  split; reflexivity.
Qed.

(** A read that fails once is tried again. *)
Lemma read_with_retries_second_attempt db offset size w e output :
  net w (calls w) = NetErr e ->
  net w (S (calls w)) = NetOk output ->
  fst (read_with_retries db offset size 3 w) = inr output
  /\ calls (snd (read_with_retries db offset size 3 w)) = S (S (calls w)).
Proof.
  intros H1 H2. cbn [read_with_retries]. unfold read_default, raw_call.
  cbn [net calls]. rewrite H1. cbn [net calls]. rewrite H2. split; reflexivity.
Qed.

(** A write makes exactly one raw call, whatever its outcome, and rejects
    as soon as that call fails. *)
Lemma write_with_retries_one_call db offset size buff w :
  calls (snd (write_with_retries db offset size buff w)) = S (calls w)
  /\ fst (write_with_retries db offset size buff w)
     = match net w (calls w) with
       | NetOk _ => Resolved tt
       | NetErr e => Rejected (WriteFailed db offset size e)
       end.
Proof.
  unfold write_with_retries, write_default, raw_call.
  destruct (net w (calls w)); split; reflexivity.
Qed.

(** C5, on a transport whose first raw call fails and whose later calls
    succeed: the write rejects after its single [DBWrite], where the read
    of the same range is tried again and succeeds. *)
Theorem write_is_not_retried :
  fst (write_with_retries 1 0 2 [0; 0] flaky_world) = Rejected (WriteFailed 1 0 2 5)
  /\ calls (snd (write_with_retries 1 0 2 [0; 0] flaky_world)) = 1%nat
  /\ fst (read_with_retries 1 0 2 3 flaky_world) = inr [0; 0]
  /\ calls (snd (read_with_retries 1 0 2 3 flaky_world)) = 2%nat.
Proof. repeat split. Qed.

(** ** Admission gate *)

Lemma before_attempt_spec i w :
  (if i <? 19 then delay (50 * i) else ret tt) w = (Resolved tt, before_attempt i w)
  /\ calls (before_attempt i w) = calls w
  /\ trace (before_attempt i w)
     = rev (if i <? 19 then [EvDelay (50 * i)] else []) ++ trace w.
Proof.
  unfold before_attempt. destruct (i <? 19); repeat split.
Qed.

Lemma isAvailable_spec host w :
  exists free,
    isAvailable host w = (Resolved free, snd (isAvailable host w))
    /\ calls (snd (isAvailable host w)) = calls w
    /\ trace (snd (isAvailable host w)) = EvGate host free :: trace w.
Proof.
  unfold isAvailable.
  destruct (seq_isAvailable (now w) host (sequences w)) as [free s].
  exists free. repeat split.
Qed.

(** A request that finds the gate busy at every check gives up without
    running: the loop only waits and checks. *)
Lemma gate_loop_busy {A} (request : M A) host attempts : forall i w,
  gate_stays_busy host attempts i w ->
  fst (gate_loop request host attempts i w) = Rejected Unreachable
  /\ calls (snd (gate_loop request host attempts i w)) = calls w
  /\ trace (snd (gate_loop request host attempts i w))
     = rev (busy_events host attempts i) ++ trace w.
Proof.
  induction attempts as [|k IH]; intros i w Hbusy.
  - repeat split.
  - destruct Hbusy as [Hfree Hrest].
    destruct (before_attempt_spec i w) as (Hd & Hdc & Hdt).
    destruct (isAvailable_spec host (before_attempt i w)) as (free & Ha & Hac & Hat).
    rewrite Ha in Hfree. cbn [fst] in Hfree. injection Hfree as ->.
    specialize (IH (i + 1) _ Hrest). destruct IH as (IHr & IHc & IHt).
    assert (gate_loop request host (S k) i w
            = gate_loop request host k (i + 1) (snd (isAvailable host (before_attempt i w))))
      as ->.
    { cbn [gate_loop]. unfold bind at 1. rewrite Hd. unfold bind at 1. rewrite Ha.
      reflexivity. }
    rewrite IHr, IHc, IHt, Hac, Hdc, Hat, Hdt.
    repeat split. cbn [busy_events].
    rewrite rev_app_distr. cbn [rev]. rewrite <- !app_assoc. reflexivity.
Qed.

Lemma busy_world_stays_busy : gate_stays_busy "plc" 20 0 busy_world.
Proof. vm_compute. repeat split. Qed.

(** C6, as stated, fails: on a host that is busy at all twenty checks, the
    request never waits the 50 ms x 19 the claim places before the attempt
    of index 19. *)
Lemma no_wait_before_last_attempt :
  gate_stays_busy "plc" 20 0 busy_world
  /\ ~ In (EvDelay (50 * 19))
         (trace (snd (getS7Data_one plc_config (word_block 1 0) busy_world))).
Proof.
  split; [exact busy_world_stays_busy|].
  unfold getS7Data_one.
  destruct (gate_loop_busy (S7_read_static plc_config (word_block 1 0)) "plc" 20 0
              busy_world busy_world_stays_busy) as (_ & _ & Ht).
  cbn [cfg_host plc_config]. rewrite Ht. vm_compute.
  intros H. repeat (destruct H as [H|H]; [discriminate|]). exact H.
Qed.

(** C6, amended: a single-target request, read or write, that finds the
    gate of its host busy checks it twenty times, waiting 50 ms times the
    attempt index before each of the attempts of index 0 to 18 and not at
    all before the attempt of index 19; when all twenty checks find the gate
    busy it fails with the unreachable-peer error and has made no transport
    call. *)
Theorem busy_gate_gives_up (config : S7DBConfig) (db : S7DBStructure) (w : World) :
  gate_stays_busy (cfg_host config) 20 0 w ->
  let events := busy_events (cfg_host config) 20 0 in
  delays_of events = map (fun i => 50 * i) (seqZ 0 19)
  /\ gate_checks_of events = replicate 20 false
  /\ existsb is_transport events = false
  /\ fst (getS7Data_one config db w) = Rejected Unreachable
  /\ calls (snd (getS7Data_one config db w)) = calls w
  /\ trace (snd (getS7Data_one config db w)) = rev events ++ trace w
  /\ fst (setS7Data_one config db w) = Rejected Unreachable
  /\ calls (snd (setS7Data_one config db w)) = calls w
  /\ trace (snd (setS7Data_one config db w)) = rev events ++ trace w.
Proof.
  intros Hbusy events.
  destruct (gate_loop_busy (S7_read_static config db) _ 20 0 w Hbusy) as (Hr & Hc & Ht).
  destruct (gate_loop_busy (S7_write_static config db) _ 20 0 w Hbusy) as (Hr' & Hc' & Ht').
  unfold getS7Data_one, setS7Data_one.
  repeat split; assumption || reflexivity.
Qed.

Lemma busy_gate_gives_up_witness :
  gate_stays_busy "plc" 20 0 busy_world
  /\ fst (getS7Data_one plc_config (word_block 1 0) busy_world) = Rejected Unreachable
  /\ calls (snd (getS7Data_one plc_config (word_block 1 0) busy_world)) = 0%nat.
Proof.
  pose proof (busy_gate_gives_up plc_config (word_block 1 0) busy_world
                busy_world_stays_busy) as H.
  cbv zeta in H. destruct H as (_ & _ & _ & Hr & Hc & _).
  split; [exact busy_world_stays_busy | split; [exact Hr | exact Hc]].
Defined.

(** ** Batches *)

Lemma getS7Data_batch_run config dbs : forall w,
  exists groups w',
    batch_read config dbs w groups w'
    /\ length groups = length dbs
    /\ getS7Data_batch config dbs w = (Resolved (concat groups), w').
Proof.
  induction dbs as [|db rest IH]; intros w.
  - exists [], w. repeat split. constructor.
  - destruct (IH (settle rest (snd (getS7Data_one config db w)))) as (groups & w' & Hrun & Hlen & Heq).
    exists (carried (fst (getS7Data_one config db w)) :: groups), w'.
    split; [constructor; exact Hrun|]. split; [cbn [length]; lia|].
    cbn [getS7Data_batch]. unfold bind at 1. unfold try_catch, bind at 1.
    destruct (getS7Data_one config db w) as [[result|e] w1] eqn:E1; cbn [fst snd] in *.
    + unfold ret at 1. unfold bind at 1.
      assert ((match rest with [] => ret tt | _ :: _ => delay 5 end) w1
              = (Resolved tt, settle rest w1)) as -> by (destruct rest; reflexivity).
      unfold bind at 1. rewrite Heq. reflexivity.
    + unfold ret at 1. unfold bind at 1.
      assert ((match rest with [] => ret tt | _ :: _ => delay 5 end) w1
              = (Resolved tt, settle rest w1)) as -> by (destruct rest; reflexivity).
      unfold bind at 1. rewrite Heq. reflexivity.
Qed.

Lemma setS7Data_batch_run config dbs : forall w,
  exists output w',
    batch_write config dbs w output w'
    /\ length output = length dbs
    /\ setS7Data_batch config dbs w = (Resolved output, w').
Proof.
  induction dbs as [|db rest IH]; intros w.
  - exists [], w. repeat split. constructor.
  - destruct (IH (settle rest (snd (setS7Data_one config db w)))) as (output & w' & Hrun & Hlen & Heq).
    exists (outcome (fst (setS7Data_one config db w)) :: output), w'.
    split; [constructor; exact Hrun|]. split; [cbn [length]; lia|].
    cbn [setS7Data_batch]. unfold bind at 1. unfold try_catch, bind at 1.
    destruct (setS7Data_one config db w) as [[[]|e] w1] eqn:E1; cbn [fst snd] in *.
    + unfold ret at 1. unfold bind at 1.
      assert ((match rest with [] => ret tt | _ :: _ => delay 5 end) w1
              = (Resolved tt, settle rest w1)) as -> by (destruct rest; reflexivity).
      unfold bind at 1. rewrite Heq. reflexivity.
    + unfold ret at 1. unfold bind at 1.
      assert ((match rest with [] => ret tt | _ :: _ => delay 5 end) w1
              = (Resolved tt, settle rest w1)) as -> by (destruct rest; reflexivity).
      unfold bind at 1. rewrite Heq. reflexivity.
Qed.

(** C7, as stated, fails for writes: a batch of two writes whose first
    [DBWrite] fails does not resolve. *)
Lemma batch_write_rejects :
  ~ (exists u,
        fst (setS7Data plc_config (Many [word_block 1 7; word_block 2 9])
               (fresh_world ∅ third_call_fails [])) = Resolved u).
Proof. intros [u Hu]. vm_compute in Hu. discriminate. Qed.

(** C7, amended: every entry of a batch is attempted, in order, whatever
    happens to the entries before it.  A batch read always resolves, with
    the concatenation, in entry order, of what each entry contributes: its
    decoded values, or its one carried error.  A batch write resolves only
    when every entry succeeded; otherwise it rejects, with a sequence
    aligned with the entries that holds [false] for each success and the
    error for each failure. *)
Theorem batch_outcomes (config : S7DBConfig) (dbs : list S7DBStructure) (w : World) :
  (exists groups w',
      batch_read config dbs w groups w'
      /\ length groups = length dbs
      /\ getS7Data config (Many dbs) w = (Resolved (concat groups), w'))
  /\ (exists output w',
         batch_write config dbs w output w'
         /\ length output = length dbs
         /\ setS7Data config (Many dbs) w
            = (if all_false output then Resolved tt else Rejected (BatchFailed output), w')).
Proof.
  split.
  - exact (getS7Data_batch_run config dbs w).
  - destruct (setS7Data_batch_run config dbs w) as (output & w' & Hrun & Hlen & Heq).
    exists output, w'. repeat split; try assumption.
    cbn [setS7Data]. unfold bind. rewrite Heq. fold (all_false output).
    destruct (all_false output); reflexivity.
Qed.

(** ** Variable router *)

Lemma validate_well_formed need_value n vs : forall i,
  Forall (well_formed need_value) vs -> validate need_value n i vs = AllValid.
Proof.
  induction vs as [|v r IH]; intros i Hwf; [reflexivity|].
  inversion Hwf as [|? ? Hv Hr]; subst. cbn [validate].
  destruct v as [[name|] value| |]; try contradiction.
  destruct Hv as [Hname Hvalue].
  destruct name as [|c s]; [contradiction|].
  destruct value as [x|].
  - apply IH. exact Hr.
  - destruct need_value; [|apply IH; exact Hr].
    exfalso. apply Hvalue; reflexivity.
Qed.

Lemma find_item_undeclared name datablocks :
  undeclared datablocks name -> find_item name datablocks = None.
Proof.
  induction datablocks as [|d r IH]; intros Hun; [reflexivity|].
  cbn [find_item].
  destruct (find (fun item => String.eqb name (item_name item)) (req_items d))
    as [item|] eqn:Ef.
  - apply find_some in Ef as [Hin Heq]. apply String.eqb_eq in Heq.
    exfalso. apply (Hun d item); [left; reflexivity | exact Hin | congruence].
  - apply IH. intros d' item Hd Hi. apply (Hun d' item); [right; exact Hd | exact Hi].
Qed.

(** Pinning the layout keeps the declared names. *)
Lemma undeclared_pinned config datablocks name :
  undeclared datablocks name ->
  undeclared (h_datablocks (PLC_handler config datablocks)) name.
Proof.
  intros Hun d' item' Hd Hi. cbn [PLC_handler h_datablocks] in Hd.
  apply in_map_iff in Hd as (d & <- & Hd). cbn [req_items] in Hi.
  assert (In (item_name item') (map item_name (req_items d))) as Hn.
  { unfold DBStructure_calculateSize in Hi.
    pose proof (calc_loop_fields (req_offset d) (req_items d) (0, 0)) as (Hnames & _).
    destruct (calc_loop (req_offset d) (0, 0) (req_items d)) as [st items'].
    cbn [snd] in *. rewrite <- Hnames. apply in_map. exact Hi. }
  apply in_map_iff in Hn as (item & Heq & Hin).
  intros Hname. apply (Hun d item Hd Hin). congruence.
Qed.

Lemma no_read_requests datablocks variables :
  Forall (fun v => undeclared datablocks (var_name v)) variables ->
  flat_map (fun v => read_request (var_name v) datablocks) variables = [].
Proof.
  induction 1 as [|v r Hv _ IH]; [reflexivity|].
  cbn [flat_map]. rewrite IH. unfold read_request.
  rewrite (find_item_undeclared _ _ Hv). reflexivity.
Qed.

Lemma no_write_requests datablocks variables :
  Forall (fun v => undeclared datablocks (var_name v)) variables ->
  flat_map (fun v => write_request (var_name v) (var_value v) datablocks) variables = [].
Proof.
  induction 1 as [|v r Hv _ IH]; [reflexivity|].
  cbn [flat_map]. rewrite IH. unfold write_request.
  rewrite (find_item_undeclared _ _ Hv). reflexivity.
Qed.

(** C10: when the variables passed to [read] (to [write]) are well-formed
    objects carrying a name (and a value) and no name is the name of a
    declared item, the call returns [undefined], not an error value, and
    leaves the world as it found it: no transport call, no gate, no wait. *)
Theorem unmatched_names_return_undefined (config : S7DBConfig)
    (datablocks : list S7DBStructure) (args : CallArgs) (variables : list VariableArg)
    (w : World) :
  normalise args = Some variables ->
  Forall (fun v => undeclared datablocks (var_name v)) variables ->
  (Forall (well_formed false) variables ->
   read (PLC_handler config datablocks) args w = (Resolved RetUndefined, w))
  /\ (Forall (well_formed true) variables ->
      write (PLC_handler config datablocks) args w = (Resolved RetUndefined, w)).
Proof.
  intros Hargs Hun.
  assert (Forall (fun v => undeclared (h_datablocks (PLC_handler config datablocks))
                             (var_name v)) variables) as Hun'.
  { eapply List.Forall_impl; [|exact Hun]. intros v. apply undeclared_pinned. }
  split; intros Hwf.
  - unfold read. rewrite Hargs, (validate_well_formed _ _ _ _ Hwf).
    rewrite (no_read_requests _ _ Hun'). reflexivity.
  - unfold write. rewrite Hargs, (validate_well_formed _ _ _ _ Hwf).
    rewrite (no_write_requests _ _ Hun'). reflexivity.
Qed.

Lemma unmatched_names_return_undefined_witness :
  let variables := [VarObject (Some "missing"%string) (Some (VNum 1))] in
  normalise (ArgsSpread variables) = Some variables
  /\ Forall (fun v => undeclared sample_blocks (var_name v)) variables
  /\ Forall (well_formed false) variables
  /\ Forall (well_formed true) variables
  /\ read (PLC_handler plc_config sample_blocks) (ArgsSpread variables) flaky_world
     = (Resolved RetUndefined, flaky_world)
  /\ write (PLC_handler plc_config sample_blocks) (ArgsSpread variables) flaky_world
     = (Resolved RetUndefined, flaky_world).
Proof.
  intros variables.
  assert (Forall (fun v => undeclared sample_blocks (var_name v)) variables) as Hun.
  { apply List.Forall_cons; [|apply List.Forall_nil].
    intros d item [<-|[]] [<-|[<-|[]]]; simpl; discriminate. }
  assert (forall b, Forall (well_formed b) variables) as Hwf.
  { intros b. apply List.Forall_cons; [|apply List.Forall_nil].
    simpl. split; [discriminate | intros _; discriminate]. }
  pose proof (unmatched_names_return_undefined plc_config sample_blocks
                (ArgsSpread variables) variables flaky_world eq_refl Hun) as [Hr Hw].
  split; [reflexivity|]. split; [exact Hun|].
  split; [exact (Hwf false)|]. split; [exact (Hwf true)|].
  split; [exact (Hr (Hwf false)) | exact (Hw (Hwf true))].
Defined.

(** ** Round trip: bits *)

Lemma update_checked_all :
  forallb (fun byte => forallb (update_checked byte) (seqZ 0 8)) (seqZ 0 256) = true.
Proof. vm_compute. reflexivity. Qed.

(** Writing a boolean keeps a byte a byte and changes one bit. *)
Lemma updated_byte_spec value byte index :
  is_byte byte -> 0 <= index < 8 ->
  is_byte (updated_byte value byte index)
  /\ forall j, 0 <= j < 8 ->
       Z.testbit (updated_byte value byte index) j
       = if j =? index then value else Z.testbit byte j.
Proof.
  intros Hb Hi. unfold is_byte in *.
  pose proof update_checked_all as H.
  rewrite forallb_forall in H.
  assert (In byte (seqZ 0 256)) as Hin1
    by (apply list_elem_of_In, elem_of_seqZ; lia).
  specialize (H byte Hin1). rewrite forallb_forall in H.
  assert (In index (seqZ 0 8)) as Hin2
    by (apply list_elem_of_In, elem_of_seqZ; lia).
  specialize (H index Hin2). unfold update_checked in H.
  rewrite forallb_forall in H.
  assert (In value [true; false]) as Hin3 by (destruct value; simpl; auto).
  specialize (H value Hin3). cbv zeta in H.
  apply andb_prop in H as [Hr Hbits]. apply andb_prop in Hr as [Hlo Hhi].
  split; [zbool; lia|].
  intros j Hj. rewrite forallb_forall in Hbits.
  assert (In j (seqZ 0 8)) as Hin4
    by (apply list_elem_of_In, elem_of_seqZ; lia).
  specialize (Hbits j Hin4). apply Bool.eqb_prop in Hbits. exact Hbits.
Qed.

(** ** Round trip: scalar values *)

Lemma be_bytes_bytes n v : Forall is_byte (be_bytes n v).
Proof.
  induction n as [|k IH]; cbn [be_bytes]; constructor; [|exact IH].
  unfold is_byte. pose proof (Z.mod_pos_bound (v / 256 ^ Z.of_nat k) 256). lia.
Qed.

Lemma store_bytes buffer offset bytes buffer' :
  Forall is_byte buffer -> Forall is_byte bytes ->
  store buffer offset bytes = Some buffer' -> Forall is_byte buffer'.
Proof.
  intros Hb Hy H. apply store_inv in H as (_ & _ & ->).
  apply Forall_app. split; [apply Forall_take; exact Hb|].
  apply Forall_app. split; [exact Hy | apply Forall_drop; exact Hb].
Qed.

Lemma attempt_default buffer r : written_buffer (attempt buffer r) = default buffer r.
Proof. destruct r; reflexivity. Qed.

Lemma coerce_VNum type z : coerce type (VNum z) = VNum z.
Proof. unfold coerce. destruct (typeIsNumber type); reflexivity. Qed.

(** The image of an unsigned integer field. *)
Lemma stored_unsigned type n max z :
  (forall buffer v offset i strlen,
      encodeValueToBuffer buffer v type offset i strlen
      = written_buffer (attempt buffer (writeIntBE n 0 max buffer v offset))) ->
  (forall buffer offset i strlen,
      parseValueFromBuffer buffer type offset i strlen
      = caught type offset (VNum <$> readUIntBE n buffer offset)) ->
  variableTypeSize type = Z.of_nat n ->
  max < 2 ^ (8 * Z.of_nat n) ->
  0 <= z <= max ->
  stored_as type (VNum z) (be_bytes n (z mod 2 ^ (8 * Z.of_nat n))).
Proof.
  intros Henc Hdec Hsize Hmax Hz. unfold stored_as. rewrite be_bytes_length.
  split; [apply be_bytes_bytes|]. split; [symmetry; exact Hsize|]. split.
  - intros buffer offset i strlen.
    rewrite coerce_VNum, Henc, attempt_default, writeIntBE_VNum by exact Hz. reflexivity.
  - split; [|apply coerce_VNum]. intros buffer offset i strlen Hs.
    rewrite Hdec, (readUIntBE_unsigned n buffer offset z) by (lia || exact Hs). reflexivity.
Qed.

(** The image of a signed integer field. *)
Lemma stored_signed type n z :
  (0 < n)%nat ->
  (forall buffer v offset i strlen,
      encodeValueToBuffer buffer v type offset i strlen
      = written_buffer
          (attempt buffer
             (writeIntBE n (- 2 ^ (8 * Z.of_nat n - 1)) (2 ^ (8 * Z.of_nat n - 1) - 1)
                buffer v offset))) ->
  (forall buffer offset i strlen,
      parseValueFromBuffer buffer type offset i strlen
      = caught type offset (VNum <$> readIntBE n buffer offset)) ->
  variableTypeSize type = Z.of_nat n ->
  - 2 ^ (8 * Z.of_nat n - 1) <= z <= 2 ^ (8 * Z.of_nat n - 1) - 1 ->
  stored_as type (VNum z) (be_bytes n (z mod 2 ^ (8 * Z.of_nat n))).
Proof.
  intros Hn Henc Hdec Hsize Hz. unfold stored_as. rewrite be_bytes_length.
  split; [apply be_bytes_bytes|]. split; [symmetry; exact Hsize|]. split.
  - intros buffer offset i strlen.
    rewrite coerce_VNum, Henc, attempt_default, writeIntBE_VNum by exact Hz. reflexivity.
  - split; [|apply coerce_VNum]. intros buffer offset i strlen Hs.
    rewrite Hdec, (readIntBE_signed n buffer offset z) by (lia || exact Hs). reflexivity.
Qed.

(** The image of a floating-point field: its bit pattern. *)
Lemma stored_float type n (wrap : Z -> S7Value) bits :
  coerce type (wrap bits) = wrap bits ->
  (forall buffer offset i strlen,
      encodeValueToBuffer buffer (wrap bits) type offset i strlen
      = written_buffer (attempt buffer (store buffer offset (be_bytes n bits)))) ->
  (forall buffer offset i strlen,
      parseValueFromBuffer buffer type offset i strlen
      = caught type offset (wrap <$> readUIntBE n buffer offset)) ->
  variableTypeSize type = Z.of_nat n ->
  0 <= bits < 2 ^ (8 * Z.of_nat n) ->
  stored_as type (wrap bits) (be_bytes n bits).
Proof.
  intros Hco Henc Hdec Hsize Hb. unfold stored_as. rewrite be_bytes_length.
  split; [apply be_bytes_bytes|]. split; [symmetry; exact Hsize|]. split.
  - intros buffer offset i strlen. rewrite Hco, Henc, attempt_default. reflexivity.
  - split; [|exact Hco]. intros buffer offset i strlen Hs.
    rewrite Hdec. unfold readUIntBE. rewrite Hs. cbn.
    rewrite be_value_be_bytes by (rewrite pow256; exact Hb). reflexivity.
Qed.

(** The image of a character: its code. *)
Lemma stored_char c : is_byte c -> stored_as "CHAR" (VStr [c]) [c].
Proof.
  intros Hc. unfold stored_as.
  split; [apply List.Forall_cons; [exact Hc | apply List.Forall_nil]|].
  split; [reflexivity|]. split.
  - intros buffer offset i strlen.
    change (encodeValueToBuffer buffer (coerce "CHAR" (VStr [c])) "CHAR" offset i strlen)
      with (written_buffer (attempt buffer (writeUInt8 buffer (VNum c) offset))).
    rewrite attempt_default, writeUInt8_byte by exact Hc. reflexivity.
  - split; [|reflexivity]. intros buffer offset i strlen Hs.
    change (parseValueFromBuffer buffer "CHAR" offset i strlen)
      with (caught "CHAR" offset ((fun x => VStr [x]) <$> readUIntBE 1 buffer offset)).
    unfold readUIntBE. cbn [length] in Hs. rewrite Hs. reflexivity.
Qed.

Lemma in_range_inv lo hi v :
  in_range lo hi v = true -> exists z, v = VNum z /\ lo <= z <= hi.
Proof.
  destruct v; try discriminate. cbn [in_range]. intros H.
  apply andb_prop in H as [H1 H2]. zbool. eauto.
Qed.

Lemma coerce_finite type v :
  typeIsNumber type = true -> to_number v = v ->
  js_isFinite (number_view v) = true -> coerce type v = v.
Proof.
  intros Ht Hn Hf. unfold coerce, isFinite. rewrite Ht, Hn, Hf. reflexivity.
Qed.

Ltac unsigned_image n max :=
  match goal with
  | H : in_range _ _ ?v = true |- _ =>
      apply in_range_inv in H as (? & -> & ?);
      eexists; apply (stored_unsigned _ n max);
      [intros; reflexivity | intros; reflexivity | reflexivity | lia | lia]
  end.

Ltac signed_image n :=
  match goal with
  | H : in_range _ _ ?v = true |- _ =>
      apply in_range_inv in H as (? & -> & ?);
      eexists; apply (stored_signed _ n);
      [lia | intros; reflexivity | intros; reflexivity | reflexivity | lia]
  end.

(** Every value of an exact type is a boolean of type [BOOL], or has an
    image in bytes under a scalar type. *)
Lemma fits_cases type v :
  fits type v = true ->
  (type = "BOOL"%string /\ exists b, v = VBool b)
  \/ (isBoolean type = false /\ isString type = false /\ typeIsObject type = false
      /\ toLocaleUpperCase type = type /\ exists bytes, stored_as type v bytes).
Proof.
  unfold fits. rewrite existsb_exists. intros ([name pred] & Hin & H).
  apply andb_prop in H as [Hname Hpred]. apply String.eqb_eq in Hname.
  cbn [fst snd] in *. subst name.
  unfold exact_types in Hin. cbn [In] in Hin.
  repeat (destruct Hin as [Hin|Hin]; [injection Hin as <- <-|]); [..|contradiction].
  - left. split; [reflexivity|]. destruct v; try discriminate. eauto.
  - right. repeat (split; [reflexivity|]). unsigned_image 1%nat 255.
  - right. repeat (split; [reflexivity|]). unsigned_image 1%nat 255.
  - right. repeat (split; [reflexivity|]). signed_image 1%nat.
  - right. repeat (split; [reflexivity|]). signed_image 2%nat.
  - right. repeat (split; [reflexivity|]). unsigned_image 2%nat 65535.
  - right. repeat (split; [reflexivity|]). unsigned_image 2%nat 65535.
  - right. repeat (split; [reflexivity|]). signed_image 4%nat.
  - right. repeat (split; [reflexivity|]). unsigned_image 4%nat 4294967295.
  - right. repeat (split; [reflexivity|]). unsigned_image 4%nat 4294967295.
  - right. repeat (split; [reflexivity|]). unsigned_image 4%nat 4294967295.
  - right. repeat (split; [reflexivity|]). unsigned_image 4%nat 4294967295.
  - right. repeat (split; [reflexivity|]).
    destruct v; try discriminate. cbn [is_single] in Hpred.
    apply andb_prop in Hpred as [Hr Hf]. apply andb_prop in Hr as [H0 H1]. zbool.
    eexists. apply (stored_float "REAL" 4 VReal32 bits);
      [| intros; reflexivity | intros; reflexivity | reflexivity | cbn; lia].
    exact (coerce_finite "REAL" (VReal32 bits) eq_refl eq_refl Hf).
  - right. repeat (split; [reflexivity|]).
    destruct v; try discriminate. cbn [is_single] in Hpred.
    apply andb_prop in Hpred as [Hr Hf]. apply andb_prop in Hr as [H0 H1]. zbool.
    eexists. apply (stored_float "FLOAT" 4 VReal32 bits);
      [| intros; reflexivity | intros; reflexivity | reflexivity | cbn; lia].
    exact (coerce_finite "FLOAT" (VReal32 bits) eq_refl eq_refl Hf).
  - right. repeat (split; [reflexivity|]).
    destruct v; try discriminate. cbn [is_double] in Hpred.
    apply andb_prop in Hpred as [Hr Hf]. apply andb_prop in Hr as [H0 H1]. zbool.
    eexists. apply (stored_float "LREAL" 8 VReal64 bits);
      [| intros; reflexivity | intros; reflexivity | reflexivity | cbn; lia].
    exact (coerce_finite "LREAL" (VReal64 bits) eq_refl eq_refl Hf).
  - right. repeat (split; [reflexivity|]).
    destruct v; try discriminate. cbn [is_double] in Hpred.
    apply andb_prop in Hpred as [Hr Hf]. apply andb_prop in Hr as [H0 H1]. zbool.
    eexists. apply (stored_float "DOUBLE" 8 VReal64 bits);
      [| intros; reflexivity | intros; reflexivity | reflexivity | cbn; lia].
    exact (coerce_finite "DOUBLE" (VReal64 bits) eq_refl eq_refl Hf).
  - right. repeat (split; [reflexivity|]).
    destruct v as [| | | | | |units| | |]; try discriminate.
    destruct units as [|c [|]]; try discriminate. cbn [is_char] in Hpred.
    apply andb_prop in Hpred as [H0 H1]. zbool.
    exists [c]. apply stored_char. unfold is_byte. lia.
Qed.

(** ** Round trip: items *)

Lemma roundUpToEven_idem n : roundUpToEven (roundUpToEven n) = roundUpToEven n.
Proof.
  pose proof (roundUpToEven_even n) as He. unfold roundUpToEven at 1.
  rewrite Z.even_spec in He. destruct He as [k Hk]. rewrite Hk.
  rewrite Z.mul_comm, Z.rem_mul by lia. lia.
Qed.

Lemma agree_below_refl st b : agree_below st b b.
Proof. repeat split. Qed.

Lemma agree_below_trans st b1 b2 b3 :
  agree_below st b1 b2 -> agree_below st b2 b3 -> agree_below st b1 b3.
Proof.
  intros (Hl1 & Hb1 & Ht1) (Hl2 & Hb2 & Ht2). split; [congruence|]. split.
  - intros k Hk. rewrite Hb1, Hb2 by exact Hk. reflexivity.
  - intros j Hj. rewrite Ht1, Ht2 by exact Hj. reflexivity.
Qed.

(** Agreement before a cursor gives agreement before any earlier cursor. *)
Lemma agree_below_earlier st st' b1 b2 :
  0 <= fst st ->
  fst st < fst st' \/ (fst st = fst st' /\ snd st <= snd st') ->
  agree_below st' b1 b2 -> agree_below st b1 b2.
Proof.
  intros H0 Hle (Hl & Hb & Ht). split; [exact Hl|]. split.
  - intros k Hk. apply Hb. lia.
  - intros j Hj. destruct Hle as [Hlt|[Heq Hle]].
    + unfold byte_of. rewrite (Hb (Z.to_nat (fst st))) by lia. reflexivity.
    + rewrite Heq. apply Ht. lia.
Qed.

(** A write at or after the byte that follows a cursor keeps everything
    before the cursor. *)
Lemma store_agree st buffer offset bytes buffer' :
  cursor_ok st -> cursor_end st <= offset ->
  store buffer offset bytes = Some buffer' -> agree_below st buffer buffer'.
Proof.
  intros [Ho Hb] He H. unfold cursor_end in He.
  split; [symmetry; exact (store_length _ _ _ _ H)|]. split.
  - intros k Hk. rewrite (store_lookup _ _ _ _ k H).
    destruct (decide _) as [[? ?]|?]; [|reflexivity].
    destruct (0 <? snd st); lia.
  - intros j Hj. unfold byte_of. rewrite (store_lookup _ _ _ _ _ H).
    destruct (decide _) as [[? ?]|?]; [|reflexivity].
    destruct (0 <? snd st) eqn:E; zbool; lia.
Qed.

Lemma aligned_ge ts st : cursor_ok st -> cursor_end st <= aligned ts st.
Proof.
  intros [Ho Hb]. destruct st as [o b]. unfold cursor_end, aligned. cbn [fst snd] in *.
  destruct (0 <? b); destruct (1 <? ts); name_roundings; lia.
Qed.

(** The type of an annotated item is not empty and is in upper case. *)
Lemma annotated_type item :
  item_type item = Some (normal_type item) ->
  String.eqb (normal_type item) "" = false
  /\ toLocaleUpperCase (normal_type item) = normal_type item.
Proof.
  intros H. unfold normal_type in *. destruct (item_type item) as [t|]; [|discriminate].
  injection H as H. destruct (String.eqb t "") eqn:E.
  - apply String.eqb_eq in E. subst t. discriminate.
  - rewrite toLocaleUpperCase_empty, E. split; [reflexivity|].
    apply toLocaleUpperCase_idem.
Qed.

(** A single item that is neither a boolean nor a composite: what the
    calculator, the encoder and the decoder do with it at a cursor. *)
Lemma plain_unfold item type ts st start :
  item_type item = Some type -> item_size item = Some 1 ->
  String.eqb type "" = false -> toLocaleUpperCase type = type ->
  isBoolean type = false -> typeIsObject type = false ->
  ts = (if isString type
        then or_default (item_strlen item) 254 + 2
             + Z.rem (or_default (item_strlen item) 254 + 2) 2
        else variableTypeSize type) ->
  (isString type = true -> (1 <? ts) = true) ->
  cursor_ok st ->
  fst (calc_step start st item) = (aligned ts st + ts, 0)
  /\ (forall buffer,
        encode_step buffer st item
        = Some (encodeValueToBuffer buffer (coerce type (item_value item)) type
                  (aligned ts st) (0 - 1) ts,
                (aligned ts st + ts, 0)))
  /\ (forall b2,
        parse_step b2 st item
        = Some ((aligned ts st + ts, 0),
                [{| data_name := item_name item; data_type := type;
                    data_value := parseValueFromBuffer b2 type (aligned ts st) (0 - 1) ts |}],
                item)).
Proof.
  intros Ht Hs Hne Hup Hbool Hobj Hts Hstr [Ho Hb].
  destruct st as [o b]. cbn [fst snd] in *. unfold aligned.
  split; [|split].
  - unfold calc_step, normal_type, normal_size. rewrite Ht, Hs, Hne, Hup, Hbool.
    change (0 <? 1) with true. change (1 <? 1) with false. cbn iota.
    cbn [negb]. rewrite andb_true_r.
    assert (b = 0 \/ (0 <? b) = true) as [-> | Eb]
      by (destruct (0 <? b) eqn:Eb; [right; reflexivity | left; zbool; lia]).
    + destruct (isString type) eqn:Es.
      * rewrite or_default_nonzero by lia. rewrite <- Hts. rewrite (Hstr eq_refl).
        cbn. rewrite !roundUpToEven_idem. reflexivity.
      * rewrite <- Hts. cbn. destruct (1 <? ts); rewrite ?roundUpToEven_idem; reflexivity.
    + rewrite Eb. destruct (isString type) eqn:Es.
      * rewrite or_default_nonzero by lia. rewrite <- Hts. rewrite (Hstr eq_refl).
        cbn. rewrite !roundUpToEven_idem. reflexivity.
      * rewrite <- Hts. cbn. destruct (1 <? ts); rewrite ?roundUpToEven_idem; reflexivity.
  - intros buffer. unfold encode_step. rewrite Ht. cbn [mbind option_bind].
    rewrite Hs, Hup, Hbool, Hobj. rewrite <- Hts.
    change (is_array (Some 1)) with false. cbn [andb]. cbn iota.
    change (8 <=? 0) with false. cbn iota.
    destruct (isString type) eqn:Es.
    + rewrite (Hstr eq_refl). reflexivity.
    + rewrite orb_false_r. reflexivity.
  - intros b2. unfold parse_step. rewrite Ht. cbn [mbind option_bind].
    rewrite Hs, Hup, Hbool, Hobj. rewrite <- Hts.
    change (is_array (Some 1)) with false. cbn [andb]. cbn iota.
    change (8 <=? 0) with false. cbn iota.
    destruct item. cbn in *. subst. reflexivity.
Qed.

(** A single item of an exact scalar type. *)
Lemma scalar_item item bytes st buffer start :
  ready item -> normal_size item = 1 ->
  isBoolean (normal_type item) = false -> isString (normal_type item) = false ->
  typeIsObject (normal_type item) = false ->
  stored_as (normal_type item) (item_value item) bytes ->
  cursor_ok st -> Forall is_byte buffer ->
  cursor_end (fst (calc_step start st item)) <= Z.of_nat (length buffer) ->
  item_round_trip item st (fst (calc_step start st item)) buffer.
Proof.
  intros (_ & Ht & Hs) Hone Hbool Hstr Hobj (Hbytes & Hlen & Henc & Hdec & _) Hc Hbuf Hend.
  destruct (annotated_type item Ht) as [Hne Hup]. rewrite Hone in Hs.
  set (type := normal_type item) in *.
  destruct (plain_unfold item type (variableTypeSize type) st start Ht Hs Hne Hup Hbool Hobj)
    as (Hcalc & Hencode & Hparse);
    [rewrite Hstr; reflexivity | rewrite Hstr; discriminate | exact Hc |].
  rewrite Hcalc in *. unfold cursor_end in Hend. cbn [fst snd] in Hend.
  change (0 <? 0) with false in Hend. cbn iota in Hend.
  pose proof (aligned_ge (variableTypeSize type) st Hc) as Hplace.
  pose proof (variableTypeSize_pos type) as Hw.
  assert (0 <= aligned (variableTypeSize type) st) as Hp0.
  { destruct Hc as [Ho Hb]. unfold cursor_end in Hplace. destruct (0 <? snd st); lia. }
  destruct (store buffer (aligned (variableTypeSize type) st) bytes) as [buffer1|] eqn:Est.
  2:{ rewrite store_Some in Est by lia. discriminate. }
  exists buffer1. split; [|split; [|split]].
  - rewrite Hencode, Henc, Est. reflexivity.
  - exact (store_bytes _ _ _ _ Hbuf Hbytes Est).
  - eapply store_agree; [exact Hc | exact Hplace | exact Est].
  - intros b2 _ Hagree. eexists. split; [apply Hparse|].
    split; [reflexivity|]. split; [reflexivity|]. intros _. cbn [data_value].
    apply Hdec. rewrite <- (slice_store _ _ _ _ Est). symmetry.
    destruct Hagree as (Hl & Hbelow & _). apply slice_ext; [exact Hl|].
    intros k Hk. apply Hbelow. cbn [fst]. lia.
Qed.

Lemma byte_of_lookup buffer (o : Z) :
  Forall is_byte buffer -> 0 <= o < Z.of_nat (length buffer) ->
  buffer !! Z.to_nat o = Some (byte_of buffer o)
  /\ is_byte (byte_of buffer o)
  /\ slice buffer o 1 = Some [byte_of buffer o].
Proof.
  intros Hb Ho. unfold byte_of.
  destruct (buffer !! Z.to_nat o) as [x|] eqn:E.
  2:{ apply lookup_ge_None in E. lia. }
  cbn [default]. split; [reflexivity|]. split.
  - rewrite Forall_forall in Hb. apply Hb. apply list_elem_of_lookup. eauto.
  - rewrite slice_Some by lia. f_equal.
    apply list_eq. intros k. destruct k as [|k].
    + rewrite lookup_take_lt by lia. rewrite lookup_drop, Nat.add_0_r. exact E.
    + rewrite lookup_take_ge by lia. reflexivity.
Qed.

(** A single boolean item: the encoder sets or clears the bit of the
    cursor in the byte of the cursor, where the decoder reads it. *)
Lemma bool_item item bv st buffer start :
  ready item -> normal_type item = "BOOL"%string -> normal_size item = 1 ->
  item_value item = VBool bv ->
  cursor_ok st -> Forall is_byte buffer ->
  cursor_end (fst (calc_step start st item)) <= Z.of_nat (length buffer) ->
  item_round_trip item st (fst (calc_step start st item)) buffer.
Proof.
  intros (_ & Ht & Hs) Htype Hone Hv [Ho Hb] Hbuf Hend.
  rewrite Htype in Ht. rewrite Hone in Hs.
  destruct st as [o b]. cbn [fst snd] in *.
  assert (fst (calc_step start (o, b) item)
          = if 8 <=? b + 1 then (o + 1, 0) else (o, b + 1)) as Hadv.
  { unfold calc_step. rewrite Htype, Hone.
    change (isString "BOOL") with false. change (isBoolean "BOOL") with true.
    change (1 <? 1) with false. cbn iota. cbn [negb]. rewrite andb_false_r.
    destruct (8 <=? b + 1); reflexivity. }
  rewrite Hadv in *.
  assert (o < Z.of_nat (length buffer)) as Hlt.
  { unfold cursor_end in Hend. destruct (8 <=? b + 1) eqn:E; cbn [fst snd] in Hend.
    - change (0 <? 0) with false in Hend. cbn iota in Hend. lia.
    - destruct (0 <? b + 1) eqn:E'; zbool; lia. }
  destruct (byte_of_lookup buffer o Hbuf ltac:(lia)) as (Hx & Hxb & Hxs).
  set (x := byte_of buffer o) in *.
  destruct (updated_byte_spec bv x b Hxb Hb) as (Hx'b & Hbits).
  set (x' := updated_byte bv x b) in *.
  assert (encodeBooleanToBuffer bv buffer o b
          = attempt buffer (store buffer o [x'])) as Henc.
  { unfold encodeBooleanToBuffer, readUInt8, readUIntBE. rewrite Hxs.
    cbn [fmap option_fmap option_map].
    assert (be_value [x] = x) as -> by (unfold be_value, undigits; cbn [fold_left]; lia).
    fold x'. rewrite writeUInt8_byte by exact Hx'b. reflexivity. }
  destruct (store buffer o [x']) as [buffer1|] eqn:Est.
  2:{ rewrite store_Some in Est by (cbn [length]; lia). discriminate. }
  assert (buffer1 !! Z.to_nat o = Some x') as Hx1.
  { rewrite (store_lookup _ _ _ _ _ Est). cbn [length].
    destruct (decide _) as [?|?]; [|lia]. rewrite Nat.sub_diag. reflexivity. }
  pose proof (store_length _ _ _ _ Est) as Hl1.
  exists buffer1. split; [|split; [|split]].
  - unfold encode_step. rewrite Ht. cbn [mbind option_bind]. rewrite Hs, Hv.
    change (toLocaleUpperCase "BOOL") with "BOOL"%string.
    change (isString "BOOL") with false. change (isBoolean "BOOL") with true.
    change (typeIsObject "BOOL") with false.
    change (variableTypeSize "BOOL") with 1.
    change (is_array (Some 1)) with false. cbn [andb].
    change (1 <? 1) with false. cbn [orb]. cbn iota.
    change (encodeValueToBuffer buffer (coerce "BOOL" (VBool bv)) "BOOL" o (b + 1 - 1) 1)
      with (written_buffer (encodeBooleanToBuffer bv buffer o (b + 1 - 1))).
    rewrite Z.add_simpl_r, Henc, Z.add_0_r. cbn [attempt written_buffer].
    destruct (8 <=? b + 1); reflexivity.
  - eapply store_bytes; [exact Hbuf | | exact Est].
    apply List.Forall_cons; [exact Hx'b | apply List.Forall_nil].
  - split; [symmetry; exact Hl1|]. cbn [fst snd]. split.
    + intros k Hk. rewrite (store_lookup _ _ _ _ k Est).
      destruct (decide _) as [[? ?]|?]; [lia | reflexivity].
    + intros j Hj. unfold byte_of at 2. rewrite Hx1. cbn [default].
      rewrite Hbits by lia. destruct (j =? b) eqn:E; [zbool; lia | reflexivity].
  - intros b2 Hb2 Hagree.
    assert (Z.of_nat (length b2) = Z.of_nat (length buffer)) as Hl2
      by (destruct Hagree as (Hl & _); lia).
    destruct (byte_of_lookup b2 o Hb2 ltac:(lia)) as (Hy & Hyb & Hys).
    assert (Z.testbit (byte_of b2 o) b = bv) as Hread.
    { destruct Hagree as (_ & Hbelow & Hbit).
      destruct (8 <=? b + 1); cbn [fst snd] in *.
      - unfold byte_of. rewrite <- (Hbelow (Z.to_nat o)) by lia. rewrite Hx1.
        cbn [default]. rewrite Hbits by lia. rewrite Z.eqb_refl. reflexivity.
      - rewrite <- Hbit by lia. unfold byte_of. rewrite Hx1. cbn [default].
        rewrite Hbits by lia. rewrite Z.eqb_refl. reflexivity. }
    exists {| data_name := item_name item; data_type := "BOOL"; data_value := VBool bv |}.
    split.
    + unfold parse_step. rewrite Ht. cbn [mbind option_bind]. rewrite Hs.
      change (toLocaleUpperCase "BOOL") with "BOOL"%string.
      change (isString "BOOL") with false. change (isBoolean "BOOL") with true.
      change (typeIsObject "BOOL") with false.
      change (variableTypeSize "BOOL") with 1.
      change (is_array (Some 1)) with false. cbn [andb].
      change (1 <? 1) with false. cbn iota.
      change (parseValueFromBuffer b2 "BOOL" o (b + 1 - 1) 1)
        with (caught "BOOL" o (VBool <$> parseBooleanFromBuffer b2 o (b + 1 - 1))).
      rewrite Z.add_simpl_r.
      rewrite (parseBooleanFromBuffer_bit b2 o b (byte_of b2 o) Hb Hyb Hys).
      rewrite Hread, Z.add_0_r. cbn [fmap option_fmap option_map caught].
      destruct item. cbn in *. subst.
      destruct (8 <=? b + 1); reflexivity.
    + unfold faithful. cbn [data_name data_type data_value]. rewrite Htype, Hv.
      repeat split.
Qed.

(** ** Round trip: lossy items *)

Lemma kept_refl offset b : kept offset b b.
Proof. repeat split. intros H; exact H. Qed.

Lemma kept_trans offset offset' b1 b2 b3 :
  offset <= offset' -> kept offset b1 b2 -> kept offset' b2 b3 -> kept offset b1 b3.
Proof.
  intros Hle (Hl1 & Hb1 & Hk1) (Hl2 & Hb2 & Hk2). split; [congruence|]. split.
  - intros H. apply Hb2, Hb1, H.
  - intros k Hk. rewrite Hk1 by exact Hk. apply Hk2. lia.
Qed.

Lemma store_kept buffer offset bytes buffer' :
  Forall is_byte bytes -> store buffer offset bytes = Some buffer' ->
  kept offset buffer buffer'.
Proof.
  intros Hy H. split; [symmetry; exact (store_length _ _ _ _ H)|]. split.
  - intros Hb. exact (store_bytes _ _ _ _ Hb Hy H).
  - intros k Hk. rewrite (store_lookup _ _ _ _ k H).
    pose proof (store_inv _ _ _ _ H) as (H0 & _).
    destruct (decide _) as [[? ?]|?]; [lia | reflexivity].
Qed.

Lemma writeIntBE_kept n min max buffer value offset buffer' :
  writeIntBE n min max buffer value offset = Some buffer' -> kept offset buffer buffer'.
Proof.
  unfold writeIntBE. destruct (_ || _); [discriminate|].
  apply store_kept, be_bytes_bytes.
Qed.

Lemma attempt_kept n min max buffer value offset :
  kept offset buffer
    (written_buffer (attempt buffer (writeIntBE n min max buffer value offset))).
Proof.
  destruct (writeIntBE n min max buffer value offset) as [b|] eqn:E; cbn [attempt written_buffer].
  - exact (writeIntBE_kept _ _ _ _ _ _ _ E).
  - apply kept_refl.
Qed.

Lemma encode_chars_kept chars : forall buffer offset,
  kept offset buffer (written_buffer (encode_chars chars buffer offset)).
Proof.
  induction chars as [|c r IH]; intros buffer offset; cbn [encode_chars].
  - apply kept_refl.
  - unfold encodeCharacterToBuffer, writeUInt8.
    destruct (writeIntBE 1 0 255 buffer (charCodeAt0 [c]) offset) as [b|] eqn:E;
      cbn [attempt written_buffer].
    + apply (kept_trans offset (offset + 1) buffer b); [lia | | apply IH].
      exact (writeIntBE_kept _ _ _ _ _ _ _ E).
    + apply kept_refl.
Qed.

Lemma encodeStringToBuffer_kept value buffer offset strlen :
  kept offset buffer (written_buffer (encodeStringToBuffer value buffer offset strlen)).
Proof.
  unfold encodeStringToBuffer, writeUInt8.
  destruct (writeIntBE 1 0 255 buffer _ offset) as [b1|] eqn:E1; [|apply kept_refl].
  apply (kept_trans offset (offset + 1) buffer b1);
    [lia | exact (writeIntBE_kept _ _ _ _ _ _ _ E1) |].
  destruct (writeIntBE 1 0 255 b1 _ (offset + 1)) as [b2|] eqn:E2; [|apply kept_refl].
  apply (kept_trans (offset + 1) (offset + 2) b1 b2);
    [lia | exact (writeIntBE_kept _ _ _ _ _ _ _ E2) | apply encode_chars_kept].
Qed.

Lemma lossy_type_cases type :
  lossy_type type = true -> type = "STRING"%string \/ type = "S5TIME"%string.
Proof.
  unfold lossy_type, isString. intros H. apply orb_prop in H as [H|H];
    apply String.eqb_eq in H; [left | right]; exact H.
Qed.

(** The encoder of a lossy type writes at or after the offset it is given. *)
Lemma lossy_kept type buffer v offset i strlen :
  lossy_type type = true ->
  kept offset buffer (encodeValueToBuffer buffer v type offset i strlen).
Proof.
  intros H. destruct (lossy_type_cases type H) as [-> | ->].
  - change (encodeValueToBuffer buffer v "STRING" offset i strlen)
      with (written_buffer (encodeStringToBuffer (to_units v) buffer offset strlen)).
    apply encodeStringToBuffer_kept.
  - change (encodeValueToBuffer buffer v "S5TIME" offset i strlen)
      with (written_buffer (encodeS5TimeToBuffer v buffer offset)).
    unfold encodeS5TimeToBuffer, writeUInt16BE. apply attempt_kept.
Qed.

Lemma kept_agree st offset b b' :
  cursor_ok st -> cursor_end st <= offset -> kept offset b b' -> agree_below st b b'.
Proof.
  intros [Ho Hb] He (Hl & _ & Hk). unfold cursor_end in He.
  split; [exact Hl|]. split.
  - intros k Hlt. apply Hk. destruct (0 <? snd st); lia.
  - intros j Hj. unfold byte_of. rewrite (Hk (Z.to_nat (fst st))); [reflexivity|].
    destruct (0 <? snd st) eqn:E; zbool; lia.
Qed.

(** A single [STRING] or [S5TIME] item: the decoder gives an entry of the
    name and type of the item. *)
Lemma lossy_item item st buffer start :
  ready item -> normal_size item = 1 -> lossy_type (normal_type item) = true ->
  cursor_ok st -> Forall is_byte buffer ->
  item_round_trip item st (fst (calc_step start st item)) buffer.
Proof.
  intros (Hsup & Ht & Hs) Hone Hlossy Hc Hbuf.
  destruct (annotated_type item Ht) as [Hne Hup]. rewrite Hone in Hs.
  unfold supported_item in Hsup. cbv zeta in Hsup.
  set (type := normal_type item) in *.
  assert (isBoolean type = false /\ typeIsObject type = false) as [Hbool Hobj]
    by (destruct (lossy_type_cases type Hlossy) as [-> | ->]; split; reflexivity).
  set (ts := if isString type
             then or_default (item_strlen item) 254 + 2
                  + Z.rem (or_default (item_strlen item) 254 + 2) 2
             else variableTypeSize type).
  assert (isString type = true -> (1 <? ts) = true) as Hwide.
  { intros Hstr. unfold ts. rewrite Hstr in *.
    apply andb_prop in Hsup as [Hcap _]. cbn iota in Hcap. zbool.
    pose proof (Z.rem_nonneg (or_default (item_strlen item) 254 + 2) 2). lia. }
  destruct (plain_unfold item type ts st start Ht Hs Hne Hup Hbool Hobj eq_refl Hwide Hc)
    as (Hcalc & Hencode & Hparse).
  rewrite Hcalc.
  pose proof (lossy_kept type buffer (coerce type (item_value item)) (aligned ts st)
                (0 - 1) ts Hlossy) as Hkept.
  eexists. split; [apply Hencode|]. split; [apply Hkept, Hbuf|]. split.
  - exact (kept_agree st _ _ _ Hc (aligned_ge ts st Hc) Hkept).
  - intros b2 _ _. eexists. split; [apply Hparse|].
    split; [reflexivity|]. split; [reflexivity|]. fold type. congruence.
Qed.

(** ** Round trip: arrays *)

(** An array item of a type that is neither boolean nor a composite: what
    the calculator, the encoder and the decoder do with it at a cursor. *)
Lemma array_unfold item type ts n elems st start :
  item_type item = Some type -> item_size item = Some n -> 1 < n ->
  String.eqb type "" = false -> toLocaleUpperCase type = type ->
  isBoolean type = false -> typeIsObject type = false ->
  ts = (if isString type
        then or_default (item_strlen item) 254 + 2
             + Z.rem (or_default (item_strlen item) 254 + 2) 2
        else variableTypeSize type) ->
  item_value item = VArr elems -> cursor_ok st ->
  fst (calc_step start st item) = (roundUpToEven (array_base st + ts * n), 0)
  /\ (forall buffer,
        encode_step buffer st item
        = Some (let r := encode_elems type ts (Z.to_nat n) elems buffer
                           (array_base st, 0) in
                (fst r, (roundUpToEven (fst (snd r)), snd (snd r)))))
  /\ (forall b2,
        parse_step b2 st item
        = Some (let r := parse_elems b2 type ts (Z.to_nat n) (array_base st, 0) in
                ((roundUpToEven (fst (snd r)), snd (snd r)),
                 [{| data_name := item_name item; data_type := type;
                     data_value := VArr (fst r) |}],
                 item))).
Proof.
  intros Ht Hs Hn Hne Hup Hbool Hobj Hts Hv [Ho Hb].
  assert ((1 <? n) = true) as Hn' by (zbool; lia).
  destruct st as [o b]. cbn [fst snd] in *. unfold array_base.
  split; [|split].
  - unfold calc_step, normal_type, normal_size. rewrite Ht, Hs, Hne, Hup, Hbool.
    assert ((0 <? n) = true) as -> by (zbool; lia). rewrite Hn'. cbn iota.
    cbn [negb]. rewrite andb_true_r.
    assert (b = 0 \/ (0 <? b) = true) as [-> | Eb]
      by (destruct (0 <? b) eqn:Eb; [right; reflexivity | left; zbool; lia]).
    + destruct (isString type) eqn:Es.
      * rewrite or_default_nonzero by lia. rewrite <- Hts.
        cbn. rewrite !roundUpToEven_idem. reflexivity.
      * rewrite <- Hts. reflexivity.
    + rewrite Eb. destruct (isString type) eqn:Es.
      * rewrite or_default_nonzero by lia. rewrite <- Hts. cbn.
        destruct (1 <? ts); rewrite ?roundUpToEven_idem; reflexivity.
      * rewrite <- Hts. cbn.
        destruct (1 <? ts); rewrite ?roundUpToEven_idem; reflexivity.
  - intros buffer. unfold encode_step. rewrite Ht. cbn [mbind option_bind].
    rewrite Hs, Hup, Hbool, Hv. rewrite <- Hts. cbn [is_array as_array default].
    rewrite Hn'. cbn [andb]. cbn iota.
    destruct (encode_elems _ _ _ _ _ _) as [b1 [o1 bits1]]. reflexivity.
  - intros b2. unfold parse_step. rewrite Ht. cbn [mbind option_bind].
    rewrite Hs, Hup, Hbool, Hobj. rewrite <- Hts. cbn [is_array default]. rewrite Hn'.
    cbn [andb]. cbn iota.
    destruct (parse_elems _ _ _ _ _) as [es [o1 bits1]].
    destruct item. cbn in *. subst. reflexivity.
Qed.

(** The loops over the elements of an array: each element is stored at its
    stride and read back from there. *)
Lemma elems_round_trip type :
  isBoolean type = false -> typeIsObject type = false ->
  forall elems offset buffer,
  Forall (fun v => exists bytes, stored_as type v bytes) elems ->
  0 <= offset ->
  offset + variableTypeSize type * Z.of_nat (length elems) <= Z.of_nat (length buffer) ->
  exists buffer1,
    encode_elems type (variableTypeSize type) (length elems) elems buffer (offset, 0)
    = (buffer1, (offset + variableTypeSize type * Z.of_nat (length elems), 0))
    /\ kept offset buffer buffer1
    /\ forall b2, length buffer1 = length b2 ->
         (forall k : nat,
            offset <= Z.of_nat k
                   < offset + variableTypeSize type * Z.of_nat (length elems) ->
            buffer1 !! k = b2 !! k) ->
         parse_elems b2 type (variableTypeSize type) (length elems) (offset, 0)
         = (elems, (offset + variableTypeSize type * Z.of_nat (length elems), 0)).
Proof.
  intros Hbool Hobj. pose proof (variableTypeSize_pos type) as Hw.
  set (ts := variableTypeSize type) in *.
  induction elems as [|v r IH]; intros offset buffer Hall Ho Hfit.
  - exists buffer. cbn [length encode_elems parse_elems Z.of_nat].
    rewrite Z.mul_0_r, Z.add_0_r. split; [reflexivity|].
    split; [apply kept_refl | reflexivity].
  - inversion Hall as [|? ? (bytes & Hbytes & Hlen & Henc & Hdec & Hco) Hrest]; subst.
    fold ts in Hlen.
    cbn [length] in *. rewrite Nat2Z.inj_succ in *.
    destruct (store buffer offset bytes) as [b1|] eqn:Est.
    2:{ rewrite store_Some in Est by lia. discriminate. }
    pose proof (store_length _ _ _ _ Est) as Hl1.
    destruct (IH (offset + ts) b1 Hrest ltac:(lia) ltac:(lia))
      as (buffer1 & Hloop & Hkept & Hback).
    assert (offset + ts + ts * Z.of_nat (length r)
            = offset + ts * Z.succ (Z.of_nat (length r))) as Hsum by lia.
    exists buffer1. split; [|split].
    + cbn [encode_elems tail]. rewrite Hbool, Hobj. rewrite Henc, Est.
      change (default buffer (Some b1)) with b1. rewrite Hloop, Hsum. reflexivity.
    + apply (kept_trans offset (offset + ts) buffer b1); [lia | | exact Hkept].
      exact (store_kept _ _ _ _ Hbytes Est).
    + intros b2 Hl2 Hsame. cbn [parse_elems]. rewrite Hbool.
      rewrite (Hback b2 Hl2).
      2:{ intros k Hk. apply Hsame. lia. }
      rewrite Hdec, Hco, Hsum; [reflexivity|].
      rewrite <- (slice_store _ _ _ _ Est).
      destruct Hkept as (Hlk & _ & Hbelow).
      transitivity (slice buffer1 offset (length bytes)).
      * symmetry. apply slice_ext; [exact Hl2|]. intros k Hk. apply Hsame. lia.
      * symmetry. apply slice_ext; [exact Hlk|]. intros k Hk. apply Hbelow. lia.
Qed.

Lemma array_base_ge st : cursor_ok st -> cursor_end st <= array_base st.
Proof.
  intros [Ho Hb]. destruct st as [o b]. unfold cursor_end, array_base. cbn [fst snd] in *.
  destruct (0 <? b); name_roundings; lia.
Qed.

Lemma fits_stored type v :
  isBoolean type = false -> fits type v = true ->
  typeIsObject type = false /\ exists bytes, stored_as type v bytes.
Proof.
  intros Hbool Hfit.
  destruct (fits_cases _ _ Hfit) as [[-> _]|(_ & _ & Hobj & _ & Himg)].
  - discriminate.
  - split; assumption.
Qed.

(** An array of an exact type that is not boolean. *)
Lemma array_item item elems st buffer start :
  ready item -> 1 < normal_size item ->
  isBoolean (normal_type item) = false -> isString (normal_type item) = false ->
  item_value item = VArr elems -> Z.of_nat (length elems) = normal_size item ->
  Forall (fun v => fits (normal_type item) v = true) elems ->
  cursor_ok st -> Forall is_byte buffer ->
  cursor_end (fst (calc_step start st item)) <= Z.of_nat (length buffer) ->
  item_round_trip item st (fst (calc_step start st item)) buffer.
Proof.
  intros (_ & Ht & Hs) Hn Hbool Hstr Hv Hlen Hfits Hc Hbuf Hend.
  destruct (annotated_type item Ht) as [Hne Hup].
  set (type := normal_type item) in *. set (n := normal_size item) in *.
  assert (typeIsObject type = false) as Hobj.
  { destruct elems as [|v r]; [cbn [length] in Hlen; lia|].
    inversion Hfits as [|? ? Hfit _]; subst. apply (fits_stored type v Hbool Hfit). }
  assert (Forall (fun v => exists bytes, stored_as type v bytes) elems) as Hall.
  { eapply List.Forall_impl; [|exact Hfits]. intros v Hfit.
    apply (fits_stored type v Hbool Hfit). }
  destruct (array_unfold item type (variableTypeSize type) n elems st start
              Ht Hs Hn Hne Hup Hbool Hobj) as (Hcalc & Hencode & Hparse);
    [rewrite Hstr; reflexivity | exact Hv | exact Hc |].
  rewrite Hcalc in *. unfold cursor_end in Hend. cbn [fst snd] in Hend.
  change (0 <? 0) with false in Hend. cbn iota in Hend.
  pose proof (array_base_ge st Hc) as Hbase.
  pose proof (variableTypeSize_pos type) as Hw.
  assert (0 <= array_base st) as Hb0.
  { destruct Hc as [Ho Hb]. unfold cursor_end in Hbase. destruct (0 <? snd st); lia. }
  assert (array_base st + variableTypeSize type * n
          <= roundUpToEven (array_base st + variableTypeSize type * n)) as Hround
    by (apply roundUpToEven_bounds; nia).
  assert (Z.to_nat n = length elems) as Hcount by lia.
  destruct (elems_round_trip type Hbool Hobj elems (array_base st) buffer Hall Hb0)
    as (buffer1 & Hloop & Hkept & Hback); [rewrite Hlen; lia|].
  rewrite Hlen in Hloop, Hback.
  exists buffer1. split; [|split; [|split]].
  - rewrite Hencode, Hcount, Hloop. reflexivity.
  - apply Hkept, Hbuf.
  - exact (kept_agree st _ _ _ Hc Hbase Hkept).
  - intros b2 _ (Hl2 & Hbelow & _). eexists. split.
    + rewrite Hparse, Hcount, Hback; [reflexivity | exact Hl2 |].
      intros k Hk. apply Hbelow. cbn [fst]. lia.
    + split; [reflexivity|]. split; [reflexivity|]. intros _. symmetry. exact Hv.
Qed.

(** The loops over the elements of an array of a lossy type: the encoder
    writes at or after the first element, and both loops leave the cursor
    after the last. *)
Lemma lossy_elems type ts :
  lossy_type type = true ->
  forall n elems offset buffer,
  exists buffer1,
    encode_elems type ts n elems buffer (offset, 0)
    = (buffer1, (offset + ts * Z.of_nat n, 0))
    /\ (0 <= ts -> kept offset buffer buffer1)
    /\ forall b2, exists es,
         parse_elems b2 type ts n (offset, 0) = (es, (offset + ts * Z.of_nat n, 0)).
Proof.
  intros Hlossy.
  assert (isBoolean type = false /\ typeIsObject type = false) as [Hbool Hobj]
    by (destruct (lossy_type_cases type Hlossy) as [-> | ->]; split; reflexivity).
  induction n as [|n IH]; intros elems offset buffer.
  - exists buffer. cbn [encode_elems parse_elems Z.of_nat].
    rewrite Z.mul_0_r, Z.add_0_r. split; [reflexivity|].
    split; [intros _; apply kept_refl|]. intros b2. exists []. reflexivity.
  - set (b1 := encodeValueToBuffer buffer
                 (coerce type match elems with [] => VUndef | v :: _ => v end)
                 type offset (0 - 1) ts).
    destruct (IH (tail elems) (offset + ts) b1) as (buffer1 & Hloop & Hkept & Hback).
    assert (offset + ts + ts * Z.of_nat n = offset + ts * Z.of_nat (S n)) as Hsum by lia.
    exists buffer1. split; [|split].
    + cbn [encode_elems]. rewrite Hbool, Hobj. fold b1. rewrite Hloop, Hsum. reflexivity.
    + intros Hts. apply (kept_trans offset (offset + ts) buffer b1); [lia | | exact (Hkept Hts)].
      apply lossy_kept, Hlossy.
    + intros b2. destruct (Hback b2) as (es & Hes). eexists.
      cbn [parse_elems]. rewrite Hbool, Hes, Hsum. reflexivity.
Qed.

(** An array of [STRING] or [S5TIME] elements. *)
Lemma lossy_array_item item elems st buffer start :
  ready item -> 1 < normal_size item -> lossy_type (normal_type item) = true ->
  item_value item = VArr elems ->
  cursor_ok st -> Forall is_byte buffer ->
  item_round_trip item st (fst (calc_step start st item)) buffer.
Proof.
  intros (Hsup & Ht & Hs) Hn Hlossy Hv Hc Hbuf.
  destruct (annotated_type item Ht) as [Hne Hup].
  unfold supported_item in Hsup. cbv zeta in Hsup.
  set (type := normal_type item) in *. set (n := normal_size item) in *.
  assert (isBoolean type = false /\ typeIsObject type = false) as [Hbool Hobj]
    by (destruct (lossy_type_cases type Hlossy) as [-> | ->]; split; reflexivity).
  set (ts := if isString type
             then or_default (item_strlen item) 254 + 2
                  + Z.rem (or_default (item_strlen item) 254 + 2) 2
             else variableTypeSize type).
  assert (0 <= ts) as Hts.
  { unfold ts. apply andb_prop in Hsup as [Hcap _]. destruct (isString type).
    - zbool. pose proof (Z.rem_nonneg (or_default (item_strlen item) 254 + 2) 2). lia.
    - pose proof (variableTypeSize_pos type). lia. }
  destruct (array_unfold item type ts n elems st start Ht Hs Hn Hne Hup Hbool Hobj
              eq_refl Hv Hc) as (Hcalc & Hencode & Hparse).
  rewrite Hcalc.
  destruct (lossy_elems type ts Hlossy (Z.to_nat n) elems (array_base st) buffer)
    as (buffer1 & Hloop & Hkept & Hback).
  rewrite Z2Nat.id in Hloop, Hback by lia. specialize (Hkept Hts).
  exists buffer1. split; [|split; [|split]].
  - rewrite Hencode, Hloop. reflexivity.
  - apply Hkept, Hbuf.
  - exact (kept_agree st _ _ _ Hc (array_base_ge st Hc) Hkept).
  - intros b2 _ _. destruct (Hback b2) as (es & Hes). eexists. split.
    + rewrite Hparse, Hes. reflexivity.
    + split; [reflexivity|]. split; [reflexivity|]. fold type. congruence.
Qed.

(** ** Round trip: datablocks *)

Lemma or_default_idem o d : or_default (Some (or_default o d)) d = or_default o d.
Proof.
  unfold or_default. destruct o as [z|].
  - destruct (z =? 0) eqn:E.
    + destruct (d =? 0) eqn:E'; [zbool; lia | reflexivity].
    + rewrite E. reflexivity.
  - destruct (d =? 0) eqn:E'; [zbool; lia | reflexivity].
Qed.

Lemma supported_typesize item : supported_item item = true -> 0 <= item_typesize item.
Proof.
  unfold supported_item, item_typesize. cbv zeta. intros H.
  apply andb_prop in H as [Hcap _].
  destruct (isString (normal_type item)).
  - zbool. pose proof (Z.rem_nonneg (or_default (item_strlen item) 254 + 2) 2). lia.
  - pose proof (variableTypeSize_pos (normal_type item)). lia.
Qed.

(** The calculator keeps the cursor well formed and never moves it back. *)
Lemma calc_step_order start st item :
  supported_item item = true -> cursor_ok st ->
  cursor_ok (fst (calc_step start st item))
  /\ (fst st < fst (fst (calc_step start st item))
      \/ (fst st = fst (fst (calc_step start st item))
          /\ snd st <= snd (fst (calc_step start st item)))).
Proof.
  intros Hsup [Ho Hb]. destruct st as [o b]. cbn [fst snd] in *.
  pose proof (supported_typesize item Hsup) as Hts.
  destruct (calc_step_bits start o b item Hts Ho Hb) as (H1 & H2 & H3).
  pose proof (normal_size_pos item) as Hsz.
  assert (0 <= item_bits item) as Hbits.
  { unfold item_bits, minimal_stride. destruct (isBoolean (normal_type item)); nia. }
  split; [split; assumption | lia].
Qed.

Lemma cursor_end_mono st st' :
  cursor_ok st -> cursor_ok st' ->
  fst st < fst st' \/ (fst st = fst st' /\ snd st <= snd st') ->
  cursor_end st <= cursor_end st'.
Proof.
  intros [Ho Hb] [Ho' Hb'] Hle. unfold cursor_end.
  destruct (0 <? snd st) eqn:E; destruct (0 <? snd st') eqn:E'; zbool; lia.
Qed.

(** The total covers the cursor the loop starts from. *)
Lemma calc_loop_covers start items : forall st,
  Forall (fun item => supported_item item = true) items -> cursor_ok st ->
  cursor_end st <= calc_finish (fst (calc_loop start st items)).
Proof.
  induction items as [|item rest IH]; intros st Hr Hc.
  - cbn [calc_loop fst]. unfold calc_finish, cursor_end. destruct st as [o b].
    destruct Hc as [Ho Hb]. cbn [fst snd] in *.
    destruct (0 <? b); name_roundings; lia.
  - inversion Hr as [|? ? Hsup Hrest]; subst.
    destruct (calc_step_order start st item Hsup Hc) as [Hc' Hle].
    cbn [calc_loop]. destruct (calc_step start st item) as [st1 item'].
    cbn [fst] in *. specialize (IH st1 Hrest Hc').
    destruct (calc_loop start st1 rest) as [st2 rest'].
    cbn [fst] in *. pose proof (cursor_end_mono st _ Hc Hc' Hle). lia.
Qed.

Lemma lossy_type_false type :
  lossy_type type = false -> isString type = false.
Proof. unfold lossy_type. intros H. apply orb_false_elim in H as [H _]. exact H. Qed.

(** One supported item, whatever its kind. *)
Lemma supported_step item st buffer start :
  ready item -> cursor_ok st -> Forall is_byte buffer ->
  cursor_end (fst (calc_step start st item)) <= Z.of_nat (length buffer) ->
  item_round_trip item st (fst (calc_step start st item)) buffer.
Proof.
  intros Hr Hc Hbuf Hend. pose proof Hr as (Hsup & _ & _).
  pose proof (normal_size_pos item) as Hpos.
  unfold supported_item in Hsup. cbv zeta in Hsup.
  apply andb_prop in Hsup as [_ Hval].
  destruct (1 <? normal_size item) eqn:En.
  - apply andb_prop in Hval as [Hbool Harr]. apply negb_true_iff in Hbool.
    unfold is_array_of in Harr.
    destruct (item_value item) as [| | | | | | | | elems |] eqn:Hv; try discriminate.
    apply andb_prop in Harr as [Hlen Hfits]. zbool.
    destruct (lossy_type (normal_type item)) eqn:Hlossy.
    + apply (lossy_array_item item elems); assumption.
    + apply (array_item item elems); try assumption.
      * apply lossy_type_false, Hlossy.
      * apply List.Forall_forall. rewrite forallb_forall in Hfits.
        intros v Hin. specialize (Hfits v Hin). unfold value_fits in Hfits.
        rewrite Hlossy in Hfits. exact Hfits.
  - assert (normal_size item = 1) as Hone by (zbool; lia).
    unfold value_fits in Hval.
    destruct (lossy_type (normal_type item)) eqn:Hlossy.
    + apply lossy_item; assumption.
    + cbn [orb] in Hval.
      destruct (fits_cases _ _ Hval) as [[Hty [bv Hv]]|(Hbool & Hstr & Hobj & _ & bytes & Himg)].
      * apply (bool_item item bv); assumption.
      * apply (scalar_item item bytes); assumption.
Qed.

(** The encoder's loop over supported items writes a buffer from which the
    decoder's loop, started at the same cursor, reads one faithful entry per
    item; the part of the buffer before the cursor is left as it was. *)
Lemma roundtrip_loop start items : forall buffer st,
  Forall ready items -> cursor_ok st -> Forall is_byte buffer ->
  calc_finish (fst (calc_loop start st items)) <= Z.of_nat (length buffer) ->
  exists buffer' output,
    encode_loop buffer st items = Some buffer'
    /\ Forall is_byte buffer'
    /\ agree_below st buffer buffer'
    /\ parse_loop buffer' st items = Some (output, items)
    /\ Forall2 faithful items output.
Proof.
  induction items as [|item rest IH]; intros buffer st Hr Hc Hbuf Hspace.
  - exists buffer, []. split; [reflexivity|]. split; [exact Hbuf|].
    split; [apply agree_below_refl|]. split; [reflexivity | constructor].
  - inversion Hr as [|? ? Hitem Hrest]; subst.
    assert (Forall (fun item => supported_item item = true) rest) as Hsups
      by (eapply List.Forall_impl; [|exact Hrest]; intros ? (H & _); exact H).
    destruct (calc_step_order start st item (proj1 Hitem) Hc) as [Hc' Hle].
    pose proof (supported_step item st buffer start Hitem Hc Hbuf) as Hstep.
    cbn [calc_loop] in Hspace. destruct (calc_step start st item) as [st1 item'].
    cbn [fst] in *.
    pose proof (calc_loop_covers start rest st1 Hsups Hc') as Hcover.
    destruct (calc_loop start st1 rest) as [st2 rest'] eqn:Eloop.
    cbn [fst] in Hspace, Hcover.
    destruct (Hstep ltac:(lia)) as (buffer1 & Henc & Hbuf1 & Hagree1 & Hdec).
    assert (length buffer1 = length buffer) as Hlen1
      by (destruct Hagree1 as (Hl & _); congruence).
    destruct (IH buffer1 st1 Hrest Hc' Hbuf1)
      as (buffer' & output & Henc' & Hbuf' & Hagree' & Hdec' & Hfaith).
    { rewrite Eloop. cbn [fst]. lia. }
    destruct (Hdec buffer' Hbuf' Hagree') as (e & Hparse & He).
    exists buffer', (e :: output). split; [|split; [|split; [|split]]].
    + cbn [encode_loop]. rewrite Henc. cbn [mbind option_bind]. exact Henc'.
    + exact Hbuf'.
    + apply (agree_below_trans st buffer buffer1 buffer' Hagree1).
      apply (agree_below_earlier st st1); [apply Hc | exact Hle | exact Hagree'].
    + cbn [parse_loop]. rewrite Hparse. cbn [mbind option_bind].
      rewrite Hdec'. reflexivity.
    + constructor; assumption.
Qed.

(** The calculator turns supported items into annotated ones of the same
    names, types and values. *)
Lemma calc_loop_ready start items : forall st,
  Forall (fun item => supported_item item = true) items ->
  Forall ready (snd (calc_loop start st items))
  /\ Forall2 (fun item item' => forall e, faithful item' e -> faithful item e)
       items (snd (calc_loop start st items)).
Proof.
  induction items as [|item rest IH]; intros st Hex.
  - split; constructor.
  - inversion Hex as [|? ? Hitem Hrest]; subst.
    destruct (calc_step_fields start st item) as (Hn & Hv & Hty & Hsz & Hl).
    cbn [calc_loop]. destruct (calc_step start st item) as [st1 item'].
    cbn [snd] in *. specialize (IH st1 Hrest).
    destruct (calc_loop start st1 rest) as [st2 rest']. cbn [snd] in *.
    destruct IH as [IHr IHe].
    pose proof (normal_type_stable item item' Hty) as Hty'.
    pose proof (normal_size_stable item item' Hsz) as Hsz'.
    split.
    + constructor; [|exact IHr]. split; [|split; congruence].
      unfold supported_item in *. cbv zeta in *. rewrite Hty', Hsz', Hv, Hl.
      destruct (isString (normal_type item)); [|exact Hitem].
      rewrite or_default_idem. exact Hitem.
    + constructor; [|exact IHe]. unfold faithful. rewrite Hty', Hn, Hv.
      intros e H. exact H.
Qed.

(** C1, as stated, fails: [IEC_TIMER] is not among the excepted types, its
    encoding is a no-op, and an [IEC_TIMER] item carrying a running timer
    (preset 1000 ms, elapsed 250 ms, input set) comes back from the encoded
    datablock with other values: the six sub-entries of the zeroed bytes. *)
Lemma iec_timer_does_not_round_trip :
  exists buffer items' output,
    DBStructure_encode timer_item 0 = Some (buffer, items')
    /\ DBStructure_parse items' buffer = Some (output, items')
    /\ map data_value output <> map snd timer_fields.
Proof.
  eexists. eexists. eexists. split; [vm_compute; reflexivity|].
  split; [vm_compute; reflexivity|]. vm_compute. discriminate.
Qed.

(** The encoder has no case for [BIT]: a [BIT] item is written as a
    two-byte integer, and a set bit comes back cleared. *)
Lemma bit_item_comes_back_cleared :
  exists buffer items',
    DBStructure_encode [declare "b" "BIT" (VBool true)] 0 = Some (buffer, items')
    /\ buffer = [0; 1]
    /\ fst <$> DBStructure_parse items' buffer
       = Some [{| data_name := "b"; data_type := "BIT"; data_value := VBool false |}].
Proof. eexists. eexists. split; [vm_compute; reflexivity|]. split; reflexivity. Qed.

(** Both loops address the first element of a boolean array by the bit
    index [-1]: its value is not stored. *)
Lemma bool_array_loses_first_element :
  let flags := {| item_name := "flags"; item_type := Some "BOOL"%string;
                  item_strlen := None; item_size := Some 3;
                  item_value := VArr [VBool true; VBool false; VBool false];
                  item_offset := None |} in
  exists buffer items',
    DBStructure_encode [flags] 0 = Some (buffer, items')
    /\ map data_value <$> (fst <$> DBStructure_parse items' buffer)
       = Some [VArr [VBool false; VBool false; VBool false]].
Proof. eexists. eexists. split; [vm_compute; reflexivity | reflexivity]. Qed.

(** C1, amended: for every datablock whose items are single items or
    arrays of type BYTE, USINT, SINT, INT, UINT, WORD, DINT, UDINT, DWORD,
    TIME, TIMER, REAL, FLOAT, LREAL, DOUBLE, CHAR, STRING (of non-negative
    capacity) or S5TIME, or single BOOL items, each carrying a value of its
    type (an integer in the range of the type, a finite floating-point
    number of the precision of the type, one single-byte character, a
    boolean; for an array, as many of them as its size), encoding the
    datablock succeeds, and decoding the encoded buffer returns one entry
    per item, in order, with the name and the upper-cased type of the item
    and, for every type except STRING and S5TIME, exactly its original
    value. *)
Theorem encode_parse_roundtrip (items : list S7DBStructureItem) (db_offset : Z) :
  Forall (fun item => supported_item item = true) items ->
  exists buffer items' output,
    DBStructure_encode items db_offset = Some (buffer, items')
    /\ DBStructure_parse items' buffer = Some (output, items')
    /\ Forall2 faithful items output.
Proof.
  intros Hsup. unfold DBStructure_encode, DBStructure_calculateSize.
  pose proof (calc_loop_ready db_offset items (0, 0) Hsup) as [Hready Hsame].
  pose proof (calc_loop_idem db_offset items (0, 0)) as Hidem.
  destruct (calc_loop db_offset (0, 0) items) as [st items'] eqn:Eloop.
  cbn [snd] in *.
  assert (cursor_ok (0, 0)) as Hc0 by (split; cbn [fst snd]; lia).
  assert (Forall (fun item => supported_item item = true) items') as Hsup'
    by (eapply List.Forall_impl; [|exact Hready]; intros ? (H & _); exact H).
  pose proof (calc_loop_covers db_offset items' (0, 0) Hsup' Hc0) as Hcover.
  rewrite Hidem in Hcover. cbn [fst] in Hcover.
  change (cursor_end (0, 0)) with 0 in Hcover.
  unfold Buffer_alloc. destruct (calc_finish st <? 0) eqn:E; [zbool; lia|].
  cbn [mbind option_bind].
  destruct (roundtrip_loop db_offset items' (replicate (Z.to_nat (calc_finish st)) 0) (0, 0)
              Hready Hc0) as (buffer' & output & Henc & _ & _ & Hdec & Hfaith).
  { apply Forall_replicate. unfold is_byte. lia. }
  { rewrite Hidem. cbn [fst]. rewrite length_replicate. lia. }
  exists buffer', items', output. rewrite Henc. cbn [mbind option_bind].
  split; [reflexivity|]. split.
  - unfold DBStructure_parse. rewrite Hdec. reflexivity.
  - eapply Forall2_trans; [|exact Hsame | exact Hfaith].
    intros item item' e H H'. exact (H e H').
Qed.

Lemma encode_parse_roundtrip_witness :
  Forall (fun item => supported_item item = true) sample_items
  /\ exists buffer items' output,
       DBStructure_encode sample_items 0 = Some (buffer, items')
       /\ DBStructure_parse items' buffer = Some (output, items')
       /\ Forall2 faithful sample_items output.
Proof.
  assert (Forall (fun item => supported_item item = true) sample_items) as Hsup.
  { unfold sample_items. repeat (apply List.Forall_cons; [reflexivity|]).
    apply List.Forall_nil. }
  split; [exact Hsup | exact (encode_parse_roundtrip sample_items 0 Hsup)].
Defined.

(** * Further properties of the code *)

(** ** Layout *)

(** X1: [roundUpToEven] always returns an even number.  It leaves an even
    number as it is, moves an odd number that is not negative up by one,
    and moves a negative odd number down by one (the remainder of
    JavaScript has the sign of the dividend). *)
Theorem roundUpToEven_closed_form (n : Z) :
  roundUpToEven n = (if Z.even n then n else if 0 <=? n then n + 1 else n - 1)
  /\ Z.even (roundUpToEven n) = true.
Proof.
  split; [|apply roundUpToEven_even].
  unfold roundUpToEven. destruct (Z.even n) eqn:E.
  - apply Z.even_spec in E as [k ->]. rewrite Z.mul_comm, Z.rem_mul by lia. lia.
  - assert (Z.odd n = true) as Ho by (rewrite <- Z.negb_even, E; reflexivity).
    apply Z.odd_spec in Ho as [k ->].
    destruct (0 <=? 2 * k + 1) eqn:E0; zbool; Z.quot_rem_to_equations; lia.
Qed.

Lemma capacity_typesize item : capacity_ok item -> 1 <= item_typesize item.
Proof.
  unfold capacity_ok, item_typesize. intros Hc.
  destruct (isString (normal_type item)).
  - assert (0 <= or_default (item_strlen item) 254) as Hn.
    { unfold or_default. destruct (item_strlen item) as [n|]; [|lia].
      destruct (n =? 0); lia. }
    pose proof (Z.rem_nonneg (or_default (item_strlen item) 254 + 2) 2). lia.
  - apply variableTypeSize_pos.
Qed.

(** The offset pinned on an item lies at or after the cursor and before
    the cursor the item leaves. *)
Lemma calc_step_position o b item :
  1 <= item_typesize item -> 0 <= o -> 0 <= b < 8 ->
  exists q,
    item_offset (snd (calc_step 0 (o, b) item)) = Some q
    /\ cursor_offset (o, b) <= q
    /\ q < cursor_offset (fst (calc_step 0 (o, b) item)).
Proof.
  intros Hts Ho Hb.
  pose proof (normal_size_pos item) as Hsz.
  pose proof (ceil_div_16 (normal_size item)) as Hceil.
  unfold calc_step, cursor_offset. unfold item_typesize in Hts.
  destruct (isString (normal_type item)) eqn:Es.
  - rewrite or_default_nonzero by lia.
    set (ts := or_default (item_strlen item) 254 + 2
               + Z.rem (or_default (item_strlen item) 254 + 2) 2) in *.
    clearbody ts.
    destruct (isBoolean (normal_type item)); simpl negb;
      rewrite ?andb_true_r, ?andb_false_r;
      destruct (0 <? b) eqn:E1; destruct (1 <? ts) eqn:E2;
      destruct (1 <? normal_size item) eqn:E3; cbn [fst snd item_offset];
      repeat match goal with
             | |- context [if ?c then _ else _] => destruct c eqn:?
             end; cbn [fst snd item_offset];
      (eexists; split; [reflexivity|]); zbool; name_roundings; nia.
  - set (ts := variableTypeSize (normal_type item)) in *. clearbody ts.
    destruct (isBoolean (normal_type item)); simpl negb;
      rewrite ?andb_true_r, ?andb_false_r;
      destruct (0 <? b) eqn:E1; destruct (1 <? ts) eqn:E2;
      destruct (1 <? normal_size item) eqn:E3; cbn [fst snd item_offset];
      repeat match goal with
             | |- context [if ?c then _ else _] => destruct c eqn:?
             end; cbn [fst snd item_offset];
      (eexists; split; [reflexivity|]); zbool; name_roundings; nia.
Qed.

(** Along the loop the pinned offsets increase, from the cursor the loop
    starts at to the cursor it ends at. *)
Lemma calc_loop_positions items : forall st,
  Forall capacity_ok items -> cursor_ok st ->
  let offsets := map item_offset (snd (calc_loop 0 st items)) in
  exists qs,
    offsets = map Some qs
    /\ Forall (fun q => cursor_offset st <= q) qs
    /\ Forall (fun q => q < cursor_offset (fst (calc_loop 0 st items))) qs
    /\ StronglySorted Z.lt qs
    /\ cursor_ok (fst (calc_loop 0 st items))
    /\ cursor_offset st <= cursor_offset (fst (calc_loop 0 st items)).
Proof.
  induction items as [|item rest IH]; intros st Hcap Hc; cbn zeta.
  - exists []. cbn [calc_loop fst snd map].
    repeat split; try constructor; try apply Hc. lia.
  - inversion Hcap as [|? ? Hitem Hrest]; subst.
    destruct st as [o b]. destruct Hc as [Ho Hb]. cbn [fst snd] in Ho, Hb.
    pose proof (capacity_typesize item Hitem) as Hts.
    destruct (calc_step_position o b item Hts Ho Hb) as (q & Hq & Hlo & Hhi).
    pose proof (calc_step_bits 0 o b item ltac:(lia) Ho Hb) as (H1 & H2 & _).
    cbn [calc_loop]. destruct (calc_step 0 (o, b) item) as [st1 item1].
    cbn [fst snd] in *.
    destruct (IH st1 Hrest ltac:(split; assumption))
      as (qs & Hqs & Hge & Hlt & Hsorted & Hok & Hmono).
    destruct (calc_loop 0 st1 rest) as [st2 rest2]. cbn [fst snd map] in *.
    exists (q :: qs). rewrite Hq, Hqs. split; [reflexivity|].
    assert (Forall (fun q' => q < q') qs) as Hbelow
      by (eapply List.Forall_impl; [|exact Hge]; cbn beta; intros; lia).
    split; [|split; [|split; [|split; [exact Hok | lia]]]].
    + constructor; [exact Hlo|].
      eapply List.Forall_impl; [|exact Hbelow]. cbn beta. intros. lia.
    + constructor; [lia | exact Hlt].
    + constructor; assumption.
Qed.

(** The offsets pinned on the items of a block. *)
Lemma pinned_offsets (items : list S7DBStructureItem) (start_offset : Z) :
  Forall capacity_ok items ->
  map item_offset (snd (DBStructure_calculateSize items start_offset))
  = map (fun q => Some (start_offset + q)) (relative_offsets items)
  /\ length (relative_offsets items) = length items
  /\ StronglySorted Z.lt (relative_offsets items)
  /\ Forall (fun q => 0 <= q < 10 * fst (DBStructure_calculateSize items 0))
       (relative_offsets items).
Proof.
  intros Hcap. unfold relative_offsets, DBStructure_calculateSize.
  assert (cursor_ok (0, 0)) as Hc0 by (split; cbn [fst snd]; lia).
  pose proof (calc_loop_shift start_offset items (0, 0)) as Hshift.
  destruct (calc_loop_positions items (0, 0) Hcap Hc0)
    as (qs & Hqs & Hge & Hlt & Hsorted & Hok & _).
  destruct (calc_loop start_offset (0, 0) items) as [st items'].
  destruct (calc_loop 0 (0, 0) items) as [st0 items0] eqn:E0.
  cbn [fst snd] in *.
  assert (omap item_offset items0 = qs) as Hom.
  { clear -Hqs. revert qs Hqs. induction items0 as [|i r IH]; intros [|q qs] H;
      try discriminate; [reflexivity|].
    cbn [map] in H. injection H as Hi Hr. simpl. rewrite Hi. simpl.
    f_equal. apply IH, Hr. }
  rewrite Hom. split; [|split; [|split]].
  - rewrite Hshift, Hqs, map_map. reflexivity.
  - pose proof (f_equal length Hqs) as Hl. rewrite !length_map in Hl.
    pose proof (calc_loop_fields 0 items (0, 0)) as (Hn & _).
    rewrite E0 in Hn. cbn [snd] in Hn. apply (f_equal length) in Hn.
    rewrite !length_map in Hn. lia.
  - exact Hsorted.
  - apply Forall_forall. intros q Hin.
    rewrite Forall_forall in Hge, Hlt. specialize (Hge q Hin). specialize (Hlt q Hin).
    unfold cursor_offset, cursor_ok, calc_finish in *. destruct st0 as [o b].
    cbn [fst snd] in *. destruct (0 <? b) eqn:E; zbool; name_roundings; lia.
Qed.

(** X2: for declarations whose string capacities are not negative, the
    offsets [DBStructure_calculateSize] pins on the items are the starting
    offset plus the offsets of a block that starts at [0]; these are one
    per item, not negative, strictly increasing in the order of the items,
    and each lies inside the total size. *)
Theorem pinned_offsets_increase (items : list S7DBStructureItem) (start_offset : Z) :
  Forall capacity_ok items ->
  map item_offset (snd (DBStructure_calculateSize items start_offset))
  = map (fun q => Some (start_offset + q)) (relative_offsets items)
  /\ length (relative_offsets items) = length items
  /\ StronglySorted Z.lt (relative_offsets items)
  /\ Forall (fun q => 0 <= q < 10 * fst (DBStructure_calculateSize items 0))
       (relative_offsets items).
Proof. apply pinned_offsets. Qed.

Lemma pinned_offsets_increase_witness :
  Forall capacity_ok mixed_layout
  /\ StronglySorted Z.lt (relative_offsets mixed_layout).
Proof.
  assert (Forall capacity_ok mixed_layout) as Hc.
  { unfold mixed_layout. repeat (apply List.Forall_cons; [unfold capacity_ok; simpl; lia|]).
    apply List.Forall_nil. }
  split; [exact Hc | exact (proj1 (proj2 (proj2 (pinned_offsets_increase mixed_layout 0 Hc))))].
Defined.

(** ** Values in the buffer *)

(** The width the layout gives a type is the width of the case the codec
    selects for it. *)
Lemma type_case_width type :
  variableTypeSize type
  = match type_case type with
    | C_BIT | C_BOOL | C_BYTE | C_SINT | C_USINT | C_CHAR => 1
    | C_INT | C_UINT | C_WORD | C_S5TIME | C_default => 2
    | C_DINT | C_UDINT | C_DWORD | C_REAL | C_FLOAT | C_TIME | C_TIMER => 4
    | C_LREAL | C_DOUBLE => 8
    | C_STRING => 256
    | C_IEC_TIMER => 16
    end.
Proof.
  unfold variableTypeSize, type_case.
  destruct (String.eqb type "") eqn:E0.
  - apply String.eqb_eq in E0. subst type. reflexivity.
  - generalize (toLocaleUpperCase type). intros t.
    unfold typeList, type_cases. cbn [assoc_string find fst].
    repeat match goal with
           | |- context [String.eqb t ?s] =>
               let E := fresh "E" in
               destruct (String.eqb t s) eqn:E;
               [apply String.eqb_eq in E; subst t; reflexivity|]
           end.
    reflexivity.
Qed.

Lemma readUInt8_byte buffer offset :
  readUInt8 buffer offset
  = if (0 <=? offset) && (offset <? Z.of_nat (length buffer))
    then Some (byte_of buffer offset) else None.
Proof.
  unfold readUInt8, readUIntBE, slice, byte_of.
  destruct (0 <=? offset) eqn:E0; cbn [andb]; [|reflexivity].
  destruct (offset <? Z.of_nat (length buffer)) eqn:E1;
    destruct (offset + Z.of_nat 1 <=? Z.of_nat (length buffer)) eqn:E2;
    zbool; try lia; [|reflexivity].
  destruct (lookup_lt_is_Some_2 buffer (Z.to_nat offset) ltac:(lia)) as [x Hx].
  rewrite Hx, (drop_S _ _ _ Hx). reflexivity.
Qed.

Lemma byte_of_byte buffer offset : Forall is_byte buffer -> is_byte (byte_of buffer offset).
Proof.
  intros H. unfold byte_of.
  destruct (buffer !! Z.to_nat offset) as [x|] eqn:E; cbn [default].
  - rewrite Forall_forall in H. apply H. eapply list_elem_of_lookup_2, E.
  - unfold is_byte. lia.
Qed.

Lemma tested_bit_all :
  forallb (fun byte =>
             forallb (fun index =>
                        Bool.eqb (tested_bit byte index) (Z.testbit byte (index mod 8)))
                     (seqZ (-1) 17))
          (seqZ 0 256) = true.
Proof. vm_compute. reflexivity. Qed.

Lemma tested_bit_spec byte index :
  is_byte byte -> -1 <= index < 16 ->
  tested_bit byte index = Z.testbit byte (index mod 8).
Proof.
  intros Hb Hi. unfold is_byte in Hb. pose proof tested_bit_all as H.
  rewrite forallb_forall in H.
  assert (In byte (seqZ 0 256)) as Hin1 by (apply list_elem_of_In, elem_of_seqZ; lia).
  specialize (H byte Hin1). rewrite forallb_forall in H.
  assert (In index (seqZ (-1) 17)) as Hin2 by (apply list_elem_of_In, elem_of_seqZ; lia).
  apply Bool.eqb_prop, H, Hin2.
Qed.

Lemma parseBoolean_tested buffer offset index :
  parseBooleanFromBuffer buffer offset index
  = (fun byte => tested_bit byte index)
      <$> readUInt8 buffer (offset + (if 7 <? index then 1 else 0)).
Proof.
  unfold parseBooleanFromBuffer, readInt8, readIntBE, readUInt8.
  destruct (readUIntBE 1 buffer _) as [x|]; reflexivity.
Qed.

(** The bit [parseBooleanFromBuffer] reads. *)
Lemma parseBoolean_bit (buffer : list Z) (offset index : Z) :
  Forall is_byte buffer -> -1 <= index < 16 ->
  parseBooleanFromBuffer buffer offset index
  = (fun byte => Z.testbit byte (index mod 8))
      <$> readUInt8 buffer (offset + (if 7 <? index then 1 else 0)).
Proof.
  intros Hbuf Hi. rewrite parseBoolean_tested, readUInt8_byte.
  destruct (_ && _); [|reflexivity]. cbn [fmap option_fmap option_map]. f_equal.
  apply tested_bit_spec; [apply byte_of_byte, Hbuf | exact Hi].
Qed.

(** X3: on a buffer of bytes, [parseBooleanFromBuffer] with an index from
    [-1] to [15] reads the bit [index mod 8] of one byte: the byte at
    [offset] for an index up to [7], the byte after it for an index from
    [8]; the index [-1], which the array loops pass for their first
    element, reads bit [7] of the byte at [offset].  It throws when that
    byte is outside the buffer. *)
Theorem parseBoolean_reads_bit (buffer : list Z) (offset index : Z) :
  Forall is_byte buffer -> -1 <= index < 16 ->
  parseBooleanFromBuffer buffer offset index
  = (fun byte => Z.testbit byte (index mod 8))
      <$> readUInt8 buffer (offset + (if 7 <? index then 1 else 0)).
Proof. apply parseBoolean_bit. Qed.

Lemma parseBoolean_reads_bit_witness :
  parseBooleanFromBuffer [0; 2] 0 9 = Some true
  /\ parseBooleanFromBuffer [128; 0] 0 (-1) = Some true.
Proof.
  assert (Forall is_byte [0; 2]) as H1
    by (repeat (apply List.Forall_cons; [unfold is_byte; lia|]); apply List.Forall_nil).
  assert (Forall is_byte [128; 0]) as H2
    by (repeat (apply List.Forall_cons; [unfold is_byte; lia|]); apply List.Forall_nil).
  split.
  - exact (parseBoolean_reads_bit [0; 2] 0 9 H1 ltac:(lia)).
  - exact (parseBoolean_reads_bit [128; 0] 0 (-1) H2 ltac:(lia)).
Defined.

(** X4: on a buffer of bytes, [encodeBooleanToBuffer] with an index from
    [0] to [7] and an offset inside the buffer sets or clears that bit of
    the byte at [offset]: the bit reads back as the value written, the
    other bits of the byte and all other bytes are unchanged. *)
Theorem encodeBoolean_writes_one_bit (value : bool) (buffer : list Z) (offset index : Z) :
  Forall is_byte buffer -> 0 <= offset < Z.of_nat (length buffer) -> 0 <= index < 8 ->
  exists buffer',
    encodeBooleanToBuffer value buffer offset index = Done buffer'
    /\ Forall is_byte buffer'
    /\ length buffer' = length buffer
    /\ parseBooleanFromBuffer buffer' offset index = Some value
    /\ (forall j, 0 <= j < 8 -> j <> index ->
          parseBooleanFromBuffer buffer' offset j = parseBooleanFromBuffer buffer offset j)
    /\ (forall k : nat, Z.of_nat k <> offset -> buffer' !! k = buffer !! k).
Proof.
  intros Hbuf Ho Hi.
  pose proof (byte_of_byte buffer offset Hbuf) as Hx.
  destruct (updated_byte_spec value (byte_of buffer offset) index Hx Hi) as (Hx' & Hbits).
  set (x' := updated_byte value (byte_of buffer offset) index) in *.
  destruct (store buffer offset [x']) as [buffer'|] eqn:Est.
  2:{ rewrite store_Some in Est by (cbn [length]; lia). discriminate. }
  pose proof (store_length _ _ _ _ Est) as Hl.
  assert (Forall is_byte buffer') as Hbuf'.
  { eapply store_bytes; [exact Hbuf | | exact Est].
    apply List.Forall_cons; [exact Hx' | apply List.Forall_nil]. }
  assert (byte_of buffer' offset = x') as Hnew.
  { unfold byte_of. rewrite (store_lookup _ _ _ _ _ Est). cbn [length].
    destruct (decide _) as [?|?]; [|lia]. rewrite Nat.sub_diag. reflexivity. }
  assert (forall j, 0 <= j < 8 ->
            parseBooleanFromBuffer buffer' offset j = Some (Z.testbit x' j)) as Hread'.
  { intros j Hj. rewrite parseBoolean_bit by (assumption || lia).
    assert ((7 <? j) = false) as -> by (apply Z.ltb_ge; lia).
    rewrite Z.add_0_r, readUInt8_byte, Hl.
    assert ((0 <=? offset) && (offset <? Z.of_nat (length buffer)) = true) as ->
      by (apply andb_true_intro; split; [apply Z.leb_le | apply Z.ltb_lt]; lia).
    cbn [fmap option_fmap option_map]. rewrite Hnew, Z.mod_small by lia. reflexivity. }
  exists buffer'. split; [|split; [exact Hbuf' | split; [exact Hl | split; [|split]]]].
  - unfold encodeBooleanToBuffer. rewrite readUInt8_byte.
    assert ((0 <=? offset) && (offset <? Z.of_nat (length buffer)) = true) as ->
      by (apply andb_true_intro; split; [apply Z.leb_le | apply Z.ltb_lt]; lia).
    fold x'. rewrite writeUInt8_byte by exact Hx'. rewrite Est. reflexivity.
  - rewrite Hread', Hbits by lia. rewrite Z.eqb_refl. reflexivity.
  - intros j Hj Hne. rewrite Hread', Hbits by lia.
    assert ((j =? index) = false) as -> by (apply Z.eqb_neq; exact Hne).
    rewrite parseBoolean_bit by (assumption || lia).
    assert ((7 <? j) = false) as -> by (apply Z.ltb_ge; lia).
    rewrite Z.add_0_r, readUInt8_byte.
    assert ((0 <=? offset) && (offset <? Z.of_nat (length buffer)) = true) as ->
      by (apply andb_true_intro; split; [apply Z.leb_le | apply Z.ltb_lt]; lia).
    cbn [fmap option_fmap option_map]. rewrite Z.mod_small by lia. reflexivity.
  - intros k Hk. rewrite (store_lookup _ _ _ _ k Est). cbn [length].
    destruct (decide _) as [[? ?]|?]; [lia | reflexivity].
Qed.

Lemma encodeBoolean_writes_one_bit_witness :
  exists buffer',
    encodeBooleanToBuffer true [5; 0] 0 3 = Done buffer'
    /\ Forall is_byte buffer'
    /\ length buffer' = length [5; 0]
    /\ parseBooleanFromBuffer buffer' 0 3 = Some true
    /\ (forall j, 0 <= j < 8 -> j <> 3 ->
          parseBooleanFromBuffer buffer' 0 j = parseBooleanFromBuffer [5; 0] 0 j)
    /\ (forall k : nat, Z.of_nat k <> 0 -> buffer' !! k = [5; 0] !! k).
Proof.
  assert (Forall is_byte [5; 0]) as H
    by (repeat (apply List.Forall_cons; [unfold is_byte; lia|]); apply List.Forall_nil).
  exact (encodeBoolean_writes_one_bit true [5; 0] 0 3 H ltac:(simpl; lia) ltac:(lia)).
Defined.

(** ** What a write touches *)

Lemma kept_float buffer offset bytes :
  Forall is_byte bytes ->
  kept offset buffer (written_buffer (attempt buffer (store buffer offset bytes))).
Proof.
  intros Hy. destruct (store buffer offset bytes) as [b|] eqn:E; cbn [attempt written_buffer].
  - exact (store_kept _ _ _ _ Hy E).
  - apply kept_refl.
Qed.

(** Whatever the type and the value, the encoder's write keeps the length
    of the buffer, keeps bytes bytes, and leaves what lies before the
    offset as it was. *)
Lemma encodeValue_kept buffer value type offset i strlen :
  kept offset buffer (encodeValueToBuffer buffer value type offset i strlen).
Proof.
  unfold encodeValueToBuffer.
  destruct (type_case type);
    first
      [ apply encodeStringToBuffer_kept
      | unfold encodeBooleanToBuffer; destruct (readUInt8 buffer offset);
        [unfold writeUInt8; apply attempt_kept | apply kept_refl]
      | unfold writeFloatBE, writeDoubleBE; apply kept_float, be_bytes_bytes
      | unfold encodeCharacterToBuffer, encodeTimeToBuffer, encodeS5TimeToBuffer,
          writeUInt8, writeInt8, writeUInt16BE, writeInt16BE, writeUInt32BE, writeInt32BE;
        apply attempt_kept ].
Qed.

(** X5: whatever the type, the value, the offset and the index,
    [encodeValueToBuffer] returns a buffer of the same length, in which
    every byte before [offset] is unchanged; a buffer of bytes stays a
    buffer of bytes. *)
Theorem encodeValue_never_grows (buffer : list Z) (value : S7Value) (type : string)
    (offset i strlen : Z) :
  let buffer' := encodeValueToBuffer buffer value type offset i strlen in
  length buffer' = length buffer
  /\ (Forall is_byte buffer -> Forall is_byte buffer')
  /\ (forall k : nat, Z.of_nat k < offset -> buffer' !! k = buffer !! k).
Proof.
  destruct (encodeValue_kept buffer value type offset i strlen) as (Hl & Hb & Hk).
  cbn zeta. split; [symmetry; exact Hl|]. split; [exact Hb|].
  intros k Hlt. symmetry. apply Hk, Hlt.
Qed.

Lemma uo_refl lo hi b : unchanged_outside lo hi b b.
Proof. intros k _. reflexivity. Qed.

Lemma uo_trans lo hi b1 b2 b3 :
  unchanged_outside lo hi b1 b2 -> unchanged_outside lo hi b2 b3 ->
  unchanged_outside lo hi b1 b3.
Proof. intros H1 H2 k Hk. rewrite H2, H1 by exact Hk. reflexivity. Qed.

Lemma uo_weaken lo hi lo' hi' b b' :
  lo' <= lo -> hi <= hi' -> unchanged_outside lo hi b b' -> unchanged_outside lo' hi' b b'.
Proof. intros Hlo Hhi H k Hk. apply H. lia. Qed.

Lemma store_uo buffer offset bytes buffer' :
  store buffer offset bytes = Some buffer' ->
  unchanged_outside offset (offset + Z.of_nat (length bytes)) buffer buffer'.
Proof.
  intros H k Hk. rewrite (store_lookup _ _ _ _ k H).
  pose proof (store_inv _ _ _ _ H) as (H0 & _).
  destruct (decide _) as [[? ?]|?]; [lia | reflexivity].
Qed.

Lemma attempt_store_uo buffer offset bytes :
  unchanged_outside offset (offset + Z.of_nat (length bytes)) buffer
    (written_buffer (attempt buffer (store buffer offset bytes))).
Proof.
  destruct (store buffer offset bytes) as [b|] eqn:E; cbn [attempt written_buffer].
  - exact (store_uo _ _ _ _ E).
  - apply uo_refl.
Qed.

Lemma writeIntBE_uo n min max buffer value offset buffer' :
  writeIntBE n min max buffer value offset = Some buffer' ->
  unchanged_outside offset (offset + Z.of_nat n) buffer buffer'.
Proof.
  unfold writeIntBE. destruct (_ || _); [discriminate|]. intros H.
  apply store_uo in H. rewrite be_bytes_length in H. exact H.
Qed.

Lemma attempt_uo n min max buffer value offset :
  unchanged_outside offset (offset + Z.of_nat n) buffer
    (written_buffer (attempt buffer (writeIntBE n min max buffer value offset))).
Proof.
  destruct (writeIntBE n min max buffer value offset) as [b|] eqn:E; cbn [attempt written_buffer].
  - exact (writeIntBE_uo _ _ _ _ _ _ _ E).
  - apply uo_refl.
Qed.

(** An integer outside the range of the field makes the write throw. *)
Lemma writeIntBE_out_of_range n min max buffer z offset :
  z < min \/ max < z -> writeIntBE n min max buffer (VNum z) offset = None.
Proof.
  intros Hz. unfold writeIntBE. cbn [to_number number_view number_of_Z js_gt js_lt].
  change (0 <=? 0) with true. cbn iota. rewrite Z.shiftl_0_r, signed_abs.
  destruct (max <? z) eqn:E1; [reflexivity|]. destruct (z <? min) eqn:E2; [reflexivity|].
  zbool. lia.
Qed.

Lemma writeIntBE_accepts n min max buffer z offset buffer' :
  writeIntBE n min max buffer (VNum z) offset = Some buffer' -> min <= z <= max.
Proof.
  intros H. destruct (Z_lt_dec z min) as [Hlo|Hlo].
  - rewrite writeIntBE_out_of_range in H by lia. discriminate.
  - destruct (Z_lt_dec max z) as [Hhi|Hhi]; [|lia].
    rewrite writeIntBE_out_of_range in H by lia. discriminate.
Qed.

Lemma encode_chars_uo chars : forall buffer offset,
  unchanged_outside offset (offset + Z.of_nat (length chars)) buffer
    (written_buffer (encode_chars chars buffer offset)).
Proof.
  induction chars as [|c r IH]; intros buffer offset; cbn [encode_chars].
  - apply uo_refl.
  - unfold encodeCharacterToBuffer, writeUInt8.
    destruct (writeIntBE 1 0 255 buffer (charCodeAt0 [c]) offset) as [b|] eqn:E;
      cbn [attempt written_buffer]; [|apply uo_refl].
    cbn [length]. apply (uo_trans _ _ buffer b).
    + eapply uo_weaken; [| |exact (writeIntBE_uo _ _ _ _ _ _ _ E)]; lia.
    + eapply uo_weaken; [| |apply IH]; lia.
Qed.

Lemma encodeStringToBuffer_uo value buffer offset strlen :
  unchanged_outside offset (offset + strlen) buffer
    (written_buffer (encodeStringToBuffer value buffer offset strlen)).
Proof.
  unfold encodeStringToBuffer, writeUInt8.
  destruct (writeIntBE 1 0 255 buffer (VNum (strlen - 2)) offset) as [b1|] eqn:E1;
    [|apply uo_refl].
  pose proof (writeIntBE_accepts _ _ _ _ _ _ _ E1) as Hmax.
  apply (uo_trans _ _ buffer b1).
  { eapply uo_weaken; [| |exact (writeIntBE_uo _ _ _ _ _ _ _ E1)]; lia. }
  destruct (writeIntBE 1 0 255 b1 _ (offset + 1)) as [b2|] eqn:E2; [|apply uo_refl].
  apply (uo_trans _ _ b1 b2).
  { eapply uo_weaken; [| |exact (writeIntBE_uo _ _ _ _ _ _ _ E2)]; lia. }
  eapply uo_weaken; [| |apply encode_chars_uo]; [lia|].
  rewrite length_take. destruct (strlen - 2 <? Z.of_nat (length value)) eqn:E; zbool; lia.
Qed.

(** For every type but [BIT], the encoder's write stays inside the bytes
    reserved for the value. *)
Lemma encodeValue_uo buffer value type offset i strlen :
  type_case type <> C_BIT ->
  unchanged_outside offset (offset + reserved type strlen) buffer
    (encodeValueToBuffer buffer value type offset i strlen).
Proof.
  intros Hbit.
  unfold reserved. rewrite type_case_width. unfold encodeValueToBuffer.
  destruct (type_case type); try congruence;
    first
      [ apply encodeStringToBuffer_uo
      | unfold encodeBooleanToBuffer; destruct (readUInt8 buffer offset);
        [unfold writeUInt8; exact (attempt_uo 1 _ _ _ _ _) | apply uo_refl]
      | unfold writeFloatBE, writeDoubleBE;
        eapply uo_weaken; [| |apply attempt_store_uo]; rewrite ?be_bytes_length; lia
      | unfold encodeCharacterToBuffer, encodeTimeToBuffer, encodeS5TimeToBuffer,
          writeUInt8, writeInt8, writeUInt16BE, writeInt16BE, writeUInt32BE, writeInt32BE;
        eapply uo_weaken; [| |apply attempt_uo]; lia ].
Qed.

(** X6: for every type but [BIT], [encodeValueToBuffer] changes nothing
    outside the bytes reserved for the value, which start at [offset] and
    span the width of the type, or the stride [strlen] of a [STRING]. *)
Theorem encodeValue_stays_in_place (buffer : list Z) (value : S7Value) (type : string)
    (offset i strlen : Z) (k : nat) :
  type_case type <> C_BIT ->
  Z.of_nat k < offset \/ offset + reserved type strlen <= Z.of_nat k ->
  encodeValueToBuffer buffer value type offset i strlen !! k = buffer !! k.
Proof. intros Hbit Hk. apply (encodeValue_uo buffer value type offset i strlen Hbit k Hk). Qed.

Lemma encodeValue_stays_in_place_witness :
  encodeValueToBuffer [1; 2; 3; 4] (VNum 7) "INT" 1 0 0 !! 3%nat = [1; 2; 3; 4] !! 3%nat.
Proof.
  exact (encodeValue_stays_in_place [1; 2; 3; 4] (VNum 7) "INT" 1 0 0 3
           ltac:(vm_compute; discriminate) ltac:(right; vm_compute; discriminate)).
Defined.

(** ** Writes and reads that throw *)

Ltac known_case :=
  match goal with
  | |- context [type_case ?s] =>
      let c := eval vm_compute in (type_case s) in change (type_case s) with c
  end.

(** X7: an integer outside the range of an integer type is not written:
    the write throws, [encodeValueToBuffer] catches, and the buffer is
    returned as it was. *)
Theorem integer_out_of_range_is_dropped (type : string) (lo hi z : Z) (buffer : list Z)
    (offset i strlen : Z) :
  In (type, (lo, hi)) integer_ranges -> z < lo \/ hi < z ->
  encodeValueToBuffer buffer (VNum z) type offset i strlen = buffer.
Proof.
  intros Hin Hz. unfold integer_ranges in Hin. cbn [In] in Hin.
  repeat (destruct Hin as [Hin|Hin];
          [injection Hin as <- <- <-; unfold encodeValueToBuffer; known_case; cbn iota;
           unfold encodeTimeToBuffer, writeUInt8, writeInt8, writeUInt16BE, writeInt16BE,
             writeUInt32BE, writeInt32BE;
           rewrite writeIntBE_out_of_range by exact Hz; reflexivity|]).
  contradiction.
Qed.

Lemma integer_out_of_range_is_dropped_witness :
  encodeValueToBuffer [1; 2] (VNum 40000) "INT" 0 0 0 = [1; 2].
Proof.
  exact (integer_out_of_range_is_dropped "INT" (-32768) 32767 40000 [1; 2] 0 0 0
           ltac:(unfold integer_ranges; cbn [In]; tauto) ltac:(right; lia)).
Defined.

Lemma store_None buffer offset bytes :
  offset < 0 \/ Z.of_nat (length buffer) < offset + Z.of_nat (length bytes) ->
  store buffer offset bytes = None.
Proof.
  intros H. unfold store. destruct (0 <=? offset) eqn:E0; [|reflexivity].
  destruct (offset + Z.of_nat (length bytes) <=? Z.of_nat (length buffer)) eqn:E1;
    [|reflexivity]. zbool. lia.
Qed.

Lemma slice_None buffer offset n :
  offset < 0 \/ Z.of_nat (length buffer) < offset + Z.of_nat n ->
  slice buffer offset n = None.
Proof.
  intros H. unfold slice. destruct (0 <=? offset) eqn:E0; [|reflexivity].
  destruct (offset + Z.of_nat n <=? Z.of_nat (length buffer)) eqn:E1;
    [|reflexivity]. zbool. lia.
Qed.

Lemma writeIntBE_no_room n min max buffer value offset :
  offset < 0 \/ Z.of_nat (length buffer) < offset + Z.of_nat n ->
  writeIntBE n min max buffer value offset = None.
Proof.
  intros H. unfold writeIntBE. destruct (_ || _); [reflexivity|].
  apply store_None. rewrite be_bytes_length. exact H.
Qed.

Lemma readUIntBE_no_room n buffer offset :
  offset < 0 \/ Z.of_nat (length buffer) < offset + Z.of_nat n ->
  readUIntBE n buffer offset = None /\ readIntBE n buffer offset = None.
Proof.
  intros H. unfold readIntBE, readUIntBE. rewrite slice_None by exact H. split; reflexivity.
Qed.

(** X8: a value of a fixed-width type whose bytes do not all lie inside
    the buffer is not written, not even in part: the buffer is returned as
    it was. *)
Theorem write_without_room_is_dropped (buffer : list Z) (value : S7Value) (type : string)
    (offset i strlen : Z) :
  scalar_type type = true ->
  offset < 0 \/ Z.of_nat (length buffer) < offset + variableTypeSize type ->
  encodeValueToBuffer buffer value type offset i strlen = buffer.
Proof.
  unfold scalar_type. rewrite type_case_width. intros Hs Hroom.
  unfold encodeValueToBuffer.
  destruct (type_case type); try discriminate;
    first
      [ unfold encodeBooleanToBuffer; rewrite readUInt8_byte;
        destruct (0 <=? offset) eqn:E0; destruct (offset <? Z.of_nat (length buffer)) eqn:E1;
        cbn [andb]; try reflexivity; zbool; lia
      | unfold writeFloatBE, writeDoubleBE; rewrite store_None;
        [reflexivity | rewrite be_bytes_length; lia]
      | unfold encodeCharacterToBuffer, encodeTimeToBuffer, encodeS5TimeToBuffer,
          writeUInt8, writeInt8, writeUInt16BE, writeInt16BE, writeUInt32BE, writeInt32BE;
        rewrite writeIntBE_no_room; [reflexivity | lia] ].
Qed.

Lemma write_without_room_is_dropped_witness :
  encodeValueToBuffer [1; 2; 3] (VNum 7) "DINT" 0 0 0 = [1; 2; 3].
Proof.
  exact (write_without_room_is_dropped [1; 2; 3] (VNum 7) "DINT" 0 0 0
           eq_refl ltac:(right; vm_compute; reflexivity)).
Defined.

(** X9: decoding a value of a fixed-width type whose bytes do not all lie
    inside the buffer does not throw and does not read a partial value:
    [parseValueFromBuffer] returns the diagnostic string for the type and
    the offset. *)
Theorem read_without_room_is_diagnostic (buffer : list Z) (type : string)
    (offset i strlen : Z) :
  scalar_type type = true -> i <= 7 ->
  offset < 0 \/ Z.of_nat (length buffer) < offset + variableTypeSize type ->
  parseValueFromBuffer buffer type offset i strlen = VDiag type offset.
Proof.
  unfold scalar_type. rewrite type_case_width. intros Hs Hi Hroom.
  unfold parseValueFromBuffer, parse_scalar.
  destruct (type_case type); try discriminate;
    first
      [ rewrite parseBoolean_tested, readUInt8_byte;
        assert ((7 <? i) = false) as -> by (apply Z.ltb_ge; lia); rewrite Z.add_0_r;
        destruct (0 <=? offset) eqn:E0; destruct (offset <? Z.of_nat (length buffer)) eqn:E1;
        cbn [andb]; try reflexivity; zbool; lia
      | unfold parseCharacterFromBuffer, parseTimeFromBuffer, parseS5TimeFromBuffer,
          readFloatBE, readDoubleBE,
          readUInt8, readInt8, readUInt16BE, readInt16BE, readUInt32BE, readInt32BE;
        match goal with
        | |- context [readUIntBE ?n buffer offset] =>
            rewrite (proj1 (readUIntBE_no_room n buffer offset ltac:(lia)))
        | |- context [readIntBE ?n buffer offset] =>
            rewrite (proj2 (readUIntBE_no_room n buffer offset ltac:(lia)))
        end; reflexivity ].
Qed.

Lemma read_without_room_is_diagnostic_witness :
  parseValueFromBuffer [1; 2; 3] "REAL" 0 0 0 = VDiag "REAL" 0.
Proof.
  exact (read_without_room_is_diagnostic [1; 2; 3] "REAL" 0 0 0
           eq_refl ltac:(lia) ltac:(right; vm_compute; reflexivity)).
Defined.

(** ** Strings *)

Lemma parse_chars_take n : forall buffer offset,
  0 <= offset ->
  parse_chars buffer offset n = take n (drop (Z.to_nat offset) buffer).
Proof.
  induction n as [|n IH]; intros buffer offset Ho; cbn [parse_chars]; [reflexivity|].
  rewrite readUInt8_byte. unfold byte_of.
  assert ((0 <=? offset) = true) as -> by (apply Z.leb_le; lia). cbn [andb].
  destruct (offset <? Z.of_nat (length buffer)) eqn:E; zbool.
  - destruct (lookup_lt_is_Some_2 buffer (Z.to_nat offset) ltac:(lia)) as [x Hx].
    rewrite Hx, (drop_S _ _ _ Hx). cbn [default take]. f_equal.
    rewrite IH by lia. f_equal. f_equal. lia.
  - rewrite drop_ge by lia. reflexivity.
Qed.

(** X10: [parseStringFromBuffer] never throws.  When the two header bytes
    lie inside the buffer it returns as many characters as the used-length
    byte says, or as many as the buffer holds after the header if these
    are fewer; otherwise it returns the empty string.  The declared
    maximum length and the expected length play no part. *)
Theorem parseString_reads_used_length (buffer : list Z) (offset expected_strlen : Z) :
  parseStringFromBuffer buffer offset expected_strlen
  = VStr (if (0 <=? offset) && (offset + 1 <? Z.of_nat (length buffer))
          then take (Z.to_nat (byte_of buffer (offset + 1)))
                    (drop (Z.to_nat offset + 2) buffer)
          else []).
Proof.
  unfold parseStringFromBuffer, stringTypeSize. rewrite !readUInt8_byte.
  destruct (0 <=? offset) eqn:E0; cbn [andb]; [|reflexivity].
  destruct (offset + 1 <? Z.of_nat (length buffer)) eqn:E1; zbool.
  - assert ((offset <? Z.of_nat (length buffer)) = true) as -> by (apply Z.ltb_lt; lia).
    assert ((0 <=? offset + 1) = true) as -> by (apply Z.leb_le; lia).
    cbn [mbind option_bind andb]. rewrite parse_chars_take by lia.
    do 3 f_equal. lia.
  - destruct (offset <? Z.of_nat (length buffer)); cbn [mbind option_bind];
      [|reflexivity].
    destruct (0 <=? offset + 1); reflexivity.
Qed.

(** A string written with a stride that fits is read back truncated. *)
Lemma string_stored (value buffer : list Z) (offset strlen expected_strlen : Z) :
  Forall is_byte value -> 2 <= strlen <= 257 ->
  0 <= offset -> offset + strlen <= Z.of_nat (length buffer) ->
  exists buffer',
    encodeStringToBuffer value buffer offset strlen = Done buffer'
    /\ length buffer' = length buffer
    /\ byte_of buffer' offset = strlen - 2
    /\ parseStringFromBuffer buffer' offset expected_strlen
       = VStr (take (Z.to_nat (strlen - 2)) value).
Proof.
  intros Hbytes Hs Ho Hfit.
  set (k := Z.min (Z.of_nat (length value)) (strlen - 2)).
  set (chars := take (Z.to_nat k) value).
  assert (length chars = Z.to_nat k) as Hlen by (unfold chars; rewrite length_take; lia).
  destruct (store buffer offset (strlen - 2 :: k :: chars)) as [buffer'|] eqn:Est.
  2:{ rewrite store_Some in Est by (cbn [length]; lia). discriminate. }
  pose proof (store_length _ _ _ _ Est) as Hl.
  pose proof (slice_store _ _ _ _ Est) as Hslice. cbn [length] in Hslice.
  exists buffer'. split; [|split; [exact Hl|split]].
  - apply (encodeStringToBuffer_store value buffer offset strlen k buffer' Hbytes);
      [lia | reflexivity | exact Est].
  - unfold byte_of. rewrite (store_lookup _ _ _ _ _ Est). cbn [length].
    destruct (decide _) as [?|?]; [|lia]. rewrite Nat.sub_diag. reflexivity.
  - rewrite (parseStringFromBuffer_slice buffer' offset expected_strlen (strlen - 2) chars).
    + f_equal. unfold chars. destruct (Z.le_ge_cases (Z.of_nat (length value)) (strlen - 2)).
      * rewrite !take_ge by lia. reflexivity.
      * f_equal. lia.
    + rewrite Hlen. unfold is_byte. lia.
    + rewrite Hlen in Hslice |- *. rewrite Z2Nat.id by lia. exact Hslice.
Qed.

(** X11: [encodeStringToBuffer] with a stride [strlen] from [2] to [257]
    that fits in the buffer, on a value of single-byte characters, writes
    [strlen - 2] as the maximum length and keeps the first [strlen - 2]
    characters of the value: [parseStringFromBuffer] reads exactly these
    back. *)
Theorem string_write_read (value buffer : list Z) (offset strlen expected_strlen : Z) :
  Forall is_byte value -> 2 <= strlen <= 257 ->
  0 <= offset -> offset + strlen <= Z.of_nat (length buffer) ->
  exists buffer',
    encodeStringToBuffer value buffer offset strlen = Done buffer'
    /\ length buffer' = length buffer
    /\ byte_of buffer' offset = strlen - 2
    /\ parseStringFromBuffer buffer' offset expected_strlen
       = VStr (take (Z.to_nat (strlen - 2)) value).
Proof. apply string_stored. Qed.

Lemma string_write_read_witness :
  exists buffer',
    encodeStringToBuffer long_message (replicate 8 0) 2 6 = Done buffer'
    /\ length buffer' = length (replicate 8 0)
    /\ byte_of buffer' 2 = 6 - 2
    /\ parseStringFromBuffer buffer' 2 6 = VStr (take (Z.to_nat (6 - 2)) long_message).
Proof.
  assert (Forall is_byte long_message) as Hb.
  { unfold long_message. cbn.
    repeat (apply List.Forall_cons; [unfold is_byte; lia|]). apply List.Forall_nil. }
  exact (string_write_read long_message (replicate 8 0) 2 6 6 Hb
           ltac:(lia) ltac:(lia) ltac:(simpl; lia)).
Defined.

(** X12: a single [STRING] item of declared capacity from [1] to [254]
    carrying single-byte characters is laid out, encoded and decoded with
    its capacity rounded up to even.  The buffer takes that many bytes
    plus two, its first byte holds the rounded capacity, and decoding the
    encoded datablock returns the value truncated to the rounded capacity:
    a [STRING] of capacity 3 keeps four characters. *)
Theorem string_item_roundtrip (name : string) (cap : Z) (value : list Z) :
  1 <= cap <= 254 -> Forall is_byte value ->
  let room := cap + Z.rem cap 2 in
  exists buffer items',
    DBStructure_encode [string_item name cap value] 0 = Some (buffer, items')
    /\ Z.of_nat (length buffer) = room + 2
    /\ byte_of buffer 0 = room
    /\ DBStructure_parse items' buffer
       = Some ([{| data_name := name; data_type := "STRING";
                   data_value := VStr (take (Z.to_nat room) value) |}], items').
Proof.
  intros Hcap Hbytes room.
  set (item := string_item name cap value).
  destruct (calc_step_fields 0 (0, 0) item) as (Hn & Hv & Hty & Hsz & Hl).
  pose proof (calc_step_idem 0 (0, 0) item) as Hidem.
  change (normal_type item) with "STRING"%string in Hty, Hl.
  change (normal_size item) with 1 in Hsz. change (isString "STRING") with true in Hl.
  cbn iota in Hl. change (item_strlen item) with (Some cap) in Hl.
  assert (or_default (Some cap) 254 = cap) as Hor
    by (unfold or_default; destruct (cap =? 0) eqn:E; [zbool; lia | reflexivity]).
  rewrite Hor in Hl.
  assert (cap + 2 + Z.rem (cap + 2) 2 = room + 2) as Hroom
    by (unfold room; Z.quot_rem_to_equations; lia).
  assert (Z.rem (room + 2) 2 = 0) as Heven
    by (unfold room; Z.quot_rem_to_equations; lia).
  assert (0 <= Z.rem cap 2 <= 1) as Hrem by (Z.quot_rem_to_equations; lia).
  assert (cursor_ok (0, 0)) as Hc0 by (split; cbn [fst snd]; lia).
  unfold DBStructure_encode, DBStructure_calculateSize. cbn [calc_loop].
  destruct (calc_step 0 (0, 0) item) as [st1 item'] eqn:Estep. cbn [fst snd] in *.
  destruct (plain_unfold item' "STRING" (room + 2) (0, 0) 0 Hty Hsz eq_refl eq_refl
              eq_refl eq_refl) as (Hcalc & Hencode & Hparse).
  { change (isString "STRING") with true. cbn iota. rewrite Hl, Hor. symmetry. exact Hroom. }
  { intros _. apply Z.ltb_lt. unfold room. lia. }
  { exact Hc0. }
  rewrite Hidem in Hcalc. cbn [fst] in Hcalc. subst st1.
  assert (aligned (room + 2) (0, 0) = 0) as Hal.
  { unfold aligned. cbn [fst snd]. change (0 <? 0) with false. cbn iota.
    destruct (1 <? room + 2); reflexivity. }
  rewrite Hal in *. rewrite Z.add_0_l in *.
  assert (calc_finish (room + 2, 0) = room + 2) as Hfin.
  { unfold calc_finish. change (0 <? 0) with false. cbn iota.
    unfold roundUpToEven. rewrite Heven. lia. }
  rewrite Hfin. unfold Buffer_alloc.
  destruct (room + 2 <? 0) eqn:E; [zbool; lia|]. cbn [mbind option_bind].
  set (zeros := replicate (Z.to_nat (room + 2)) 0).
  destruct (string_stored value zeros 0 (room + 2) (room + 2) Hbytes)
    as (buffer & Henc & Hlen & Hhead & Hdec);
    [lia | lia | unfold zeros; rewrite length_replicate; lia |].
  replace (room + 2 - 2) with room in * by lia.
  exists buffer, [item']. cbn [encode_loop]. rewrite Hencode. cbn [mbind option_bind].
  rewrite Hv.
  change (encodeValueToBuffer zeros (coerce "STRING" (item_value item)) "STRING" 0 (0 - 1)
            (room + 2))
    with (written_buffer (encodeStringToBuffer value zeros 0 (room + 2))).
  rewrite Henc. cbn [written_buffer]. split; [reflexivity|].
  split; [rewrite Hlen; unfold zeros; rewrite length_replicate; lia|].
  split; [exact Hhead|].
  unfold DBStructure_parse. cbn [parse_loop]. rewrite Hparse. cbn [mbind option_bind app].
  change (parseValueFromBuffer buffer "STRING" 0 (0 - 1) (room + 2))
    with (parseStringFromBuffer buffer 0 (room + 2)).
  rewrite Hdec, Hn. reflexivity.
Qed.

Lemma string_item_roundtrip_witness :
  exists buffer items',
    DBStructure_encode [string_item "tag" 3 long_message] 0 = Some (buffer, items')
    /\ Z.of_nat (length buffer) = 3 + Z.rem 3 2 + 2
    /\ byte_of buffer 0 = 3 + Z.rem 3 2
    /\ DBStructure_parse items' buffer
       = Some ([{| data_name := "tag"; data_type := "STRING";
                   data_value := VStr (take (Z.to_nat (3 + Z.rem 3 2)) long_message) |}],
               items').
Proof.
  assert (Forall is_byte long_message) as Hb.
  { unfold long_message. cbn.
    repeat (apply List.Forall_cons; [unfold is_byte; lia|]). apply List.Forall_nil. }
  exact (string_item_roundtrip "tag" 3 long_message ltac:(lia) Hb).
Defined.

(** ** S5TIME *)

Lemma same_number_eq a b : same_number a b = true -> a = b.
Proof.
  destruct a, b; try discriminate; cbn [same_number]; intros H; [|reflexivity].
  apply Z.eqb_eq in H. subst. reflexivity.
Qed.

Lemma s5_decode_all :
  forallb (fun hi =>
             forallb (fun lo =>
                        same_number (s5_decode (256 * hi + lo)) (s5_value (256 * hi + lo)))
                     (seqZ 0 256))
          (seqZ 0 256) = true.
Proof. vm_compute. reflexivity. Qed.

Lemma s5_decode_value raw : 0 <= raw < 65536 -> s5_decode raw = s5_value raw.
Proof.
  intros Hr. pose proof s5_decode_all as H. rewrite forallb_forall in H.
  assert (In (raw / 256) (seqZ 0 256)) as Hin1.
  { apply list_elem_of_In, elem_of_seqZ. Z.to_euclidean_division_equations. lia. }
  specialize (H _ Hin1). rewrite forallb_forall in H.
  assert (In (raw mod 256) (seqZ 0 256)) as Hin2.
  { apply list_elem_of_In, elem_of_seqZ. Z.to_euclidean_division_equations. lia. }
  specialize (H _ Hin2). rewrite <- Z.div_mod in H by lia.
  apply same_number_eq, H.
Qed.

Lemma parseS5Time_decode buffer offset :
  parseS5TimeFromBuffer buffer offset = s5_decode <$> readUInt16BE buffer offset.
Proof.
  unfold parseS5TimeFromBuffer. destruct (readUInt16BE buffer offset); reflexivity.
Qed.

Lemma readUInt16BE_range buffer offset raw :
  Forall is_byte buffer -> readUInt16BE buffer offset = Some raw -> 0 <= raw < 65536.
Proof.
  intros Hbuf H. unfold readUInt16BE, readUIntBE in H.
  destruct (slice buffer offset 2) as [bytes|] eqn:E; [|discriminate].
  injection H as <-. unfold slice in E. destruct (_ && _); [|discriminate].
  injection E as <-.
  assert (Forall is_byte (take 2 (drop (Z.to_nat offset) buffer))) as Hb
    by (apply Forall_take, Forall_drop, Hbuf).
  destruct (take 2 (drop (Z.to_nat offset) buffer)) as [|x [|y [|z r]]] eqn:Et.
  - vm_compute. split; [discriminate | reflexivity].
  - inversion Hb as [|? ? Hx _]; subst. unfold is_byte in Hx.
    unfold be_value, undigits. cbn [fold_left]. lia.
  - inversion Hb as [|? ? Hx Hr]; subst. inversion Hr as [|? ? Hy _]; subst.
    unfold is_byte in *. unfold be_value, undigits. cbn [fold_left]. lia.
  - apply (f_equal length) in Et. rewrite length_take in Et. cbn [length] in Et. lia.
Qed.

(** X13: on a buffer of bytes, [parseS5TimeFromBuffer] reads a 16-bit
    word whose bits 12 and 13 select the timebase (10, 100, 1000 or
    10000 ms) and whose two top bits are ignored; three decimal nibbles
    give their decimal number times the timebase; a decimal nibble, the
    nibble [e] and a decimal nibble are read as an exponent literal; any
    other word gives NaN.  It throws when the word is outside the buffer. *)
Theorem parseS5Time_reads_word (buffer : list Z) (offset : Z) :
  Forall is_byte buffer ->
  parseS5TimeFromBuffer buffer offset = s5_value <$> readUInt16BE buffer offset.
Proof.
  intros Hbuf. rewrite parseS5Time_decode.
  destruct (readUInt16BE buffer offset) as [raw|] eqn:E; [|reflexivity].
  cbn [fmap option_fmap option_map]. f_equal.
  apply s5_decode_value, (readUInt16BE_range buffer offset), E. exact Hbuf.
Qed.

Lemma parseS5Time_reads_word_witness :
  parseS5TimeFromBuffer [18; 52] 0 = s5_value <$> readUInt16BE [18; 52] 0.
Proof.
  apply (parseS5Time_reads_word [18; 52] 0).
  repeat (apply List.Forall_cons; [unfold is_byte; lia|]). apply List.Forall_nil.
Defined.

Lemma js_gt_Z v k : js_gt (number_of_Z v) k = (k <? v).
Proof.
  unfold js_gt, number_of_Z. change (0 <=? 0) with true. cbn iota.
  rewrite Z.shiftl_0_r, signed_abs. reflexivity.
Qed.

Lemma js_lt_Z v k : js_lt (number_of_Z v) k = (v <? k).
Proof.
  unfold js_lt, number_of_Z. change (0 <=? 0) with true. cbn iota.
  rewrite Z.shiftl_0_r, signed_abs. reflexivity.
Qed.

Lemma div_trunc_Z c d :
  0 <= c < 2 ^ 31 -> 0 < d -> div_trunc (number_of_Z c) d = c / d.
Proof.
  intros Hc Hd. unfold div_trunc, number_of_Z. change (0 <=? 0) with true. cbn iota.
  rewrite Z.shiftl_0_r. assert ((c <? 0) = false) as -> by (apply Z.ltb_ge; lia).
  cbn [signed]. rewrite Z.abs_eq, Z.quot_div_nonneg by lia.
  unfold to_int32. assert (0 <= c / d <= c) as Hq.
  { split; [apply Z.div_pos; lia|]. apply Z.div_le_upper_bound; [lia|]. nia. }
  rewrite Z.mod_small by lia. lia.
Qed.

Lemma s5_clamp_range v : 0 <= s5_clamp v <= 9990000.
Proof.
  unfold s5_clamp. destruct (9990000 <? v) eqn:E1; [lia|].
  destruct (v <? 0) eqn:E2; zbool; lia.
Qed.

(** The word the encoder builds for an integer. *)
Lemma encodeS5Time_output v buffer offset :
  encodeS5TimeToBuffer (VNum v) buffer offset
  = attempt buffer
      (writeUInt16BE buffer
         (VNum (s5_output (s5_factor (s5_clamp v))
                  (s5_clamp v / 10 ^ (s5_factor (s5_clamp v) + 1)))) offset).
Proof.
  pose proof (s5_clamp_range v) as Hc.
  unfold encodeS5TimeToBuffer. cbn [to_number number_view]. cbv zeta.
  rewrite js_gt_Z, js_lt_Z.
  assert ((if 9990000 <? v then number_of_Z 9990000
           else if v <? 0 then number_of_Z 0 else number_of_Z v)
          = number_of_Z (s5_clamp v)) as ->
    by (unfold s5_clamp; destruct (9990000 <? v); [|destruct (v <? 0)]; reflexivity).
  rewrite !js_lt_Z. fold (s5_factor (s5_clamp v)).
  rewrite div_trunc_Z; [reflexivity | lia |].
  unfold s5_factor. repeat (destruct (_ <? _); [reflexivity|]). reflexivity.
Qed.

Lemma s5_output_all :
  forallb (fun f =>
             forallb (fun q =>
                        let w := s5_output f q in
                        (0 <=? w) && (w <=? 65535)
                        && same_number (s5_decode w) (VNum (q * 10 ^ (f + 1))))
                     (seqZ 0 1000))
          (seqZ 0 4) = true.
Proof. vm_compute. reflexivity. Qed.

Lemma s5_output_spec f q :
  0 <= f < 4 -> 0 <= q < 1000 ->
  0 <= s5_output f q <= 65535 /\ s5_decode (s5_output f q) = VNum (q * 10 ^ (f + 1)).
Proof.
  intros Hf Hq. pose proof s5_output_all as H. rewrite forallb_forall in H.
  assert (In f (seqZ 0 4)) as Hin1 by (apply list_elem_of_In, elem_of_seqZ; lia).
  specialize (H f Hin1). rewrite forallb_forall in H.
  assert (In q (seqZ 0 1000)) as Hin2 by (apply list_elem_of_In, elem_of_seqZ; lia).
  specialize (H q Hin2). cbv zeta in H.
  apply andb_prop in H as [Hr Hd]. apply andb_prop in Hr as [Hlo Hhi].
  split; [zbool; lia | apply same_number_eq, Hd].
Qed.

Lemma s5_scaled_range v :
  0 <= s5_factor (s5_clamp v) < 4
  /\ 0 <= s5_clamp v / 10 ^ (s5_factor (s5_clamp v) + 1) < 1000.
Proof.
  pose proof (s5_clamp_range v) as Hc. set (c := s5_clamp v) in *. clearbody c.
  unfold s5_factor.
  destruct (c <? 9990) eqn:E1; [|destruct (c <? 99900) eqn:E2;
    [|destruct (c <? 999000) eqn:E3]]; zbool;
    match goal with
    | |- context [10 ^ (?f + 1)] =>
        let p := eval vm_compute in (10 ^ (f + 1)) in change (10 ^ (f + 1)) with p
    end;
    (split; [lia|]); Z.to_euclidean_division_equations; lia.
Qed.

(** An integer S5TIME comes back clamped and rounded down to its
    timebase. *)
Lemma s5time_quantised v buffer offset :
  0 <= offset -> offset + 2 <= Z.of_nat (length buffer) ->
  parseS5TimeFromBuffer (written_buffer (encodeS5TimeToBuffer (VNum v) buffer offset)) offset
  = Some (VNum (s5_quantised v)).
Proof.
  intros Ho Hfit. rewrite encodeS5Time_output.
  destruct (s5_scaled_range v) as [Hf Hq].
  set (f := s5_factor (s5_clamp v)) in *.
  set (q := s5_clamp v / 10 ^ (f + 1)) in *.
  destruct (s5_output_spec f q Hf Hq) as [Hw Hd].
  unfold writeUInt16BE. rewrite writeIntBE_VNum by lia.
  destruct (store buffer offset _) as [b|] eqn:Est.
  2:{ rewrite store_Some in Est by (rewrite ?be_bytes_length; lia). discriminate. }
  cbn [attempt written_buffer]. rewrite parseS5Time_decode. unfold readUInt16BE.
  pose proof (slice_store _ _ _ _ Est) as Hs. rewrite be_bytes_length in Hs.
  rewrite (readUIntBE_unsigned 2 b offset (s5_output f q)); [| |exact Hs].
  - cbn [fmap option_fmap option_map]. rewrite Hd. reflexivity.
  - change (2 ^ (8 * Z.of_nat 2)) with 65536. lia.
Qed.

(** X14: for every integer value, an S5TIME written by
    [encodeS5TimeToBuffer] into a buffer that holds its two bytes is read
    back by [parseS5TimeFromBuffer] as the value clamped to
    [0, 9990000] ms and rounded down to a multiple of the timebase the
    encoder selects: 10 ms below 9990, 100 ms below 99900, 1000 ms below
    999000, 10000 ms from there. *)
Theorem s5time_roundtrip_quantises (v : Z) (buffer : list Z) (offset : Z) :
  0 <= offset -> offset + 2 <= Z.of_nat (length buffer) ->
  parseS5TimeFromBuffer (written_buffer (encodeS5TimeToBuffer (VNum v) buffer offset)) offset
  = Some (VNum (s5_quantised v))
  /\ 0 <= s5_clamp v - s5_quantised v < 10 ^ (s5_factor (s5_clamp v) + 1).
Proof.
  intros Ho Hfit. split; [apply s5time_quantised; assumption|].
  unfold s5_quantised. cbv zeta. destruct (s5_scaled_range v) as [Hf _].
  assert (0 < 10 ^ (s5_factor (s5_clamp v) + 1)) as Hp by (apply Z.pow_pos_nonneg; lia).
  pose proof (Z.mod_pos_bound (s5_clamp v) _ Hp).
  pose proof (Z.div_mod (s5_clamp v) (10 ^ (s5_factor (s5_clamp v) + 1)) ltac:(lia)).
  lia.
Qed.

Lemma s5time_roundtrip_quantises_witness :
  parseS5TimeFromBuffer (written_buffer (encodeS5TimeToBuffer (VNum 9990) [0; 0] 0)) 0
  = Some (VNum (s5_quantised 9990))
  /\ 0 <= s5_clamp 9990 - s5_quantised 9990 < 10 ^ (s5_factor (s5_clamp 9990) + 1).
Proof.
  exact (s5time_roundtrip_quantises 9990 [0; 0] 0 ltac:(lia) ltac:(simpl; lia)).
Defined.

(** ** Whole datablocks *)

Lemma same_shape_refl b : same_shape b b.
Proof. split; [reflexivity | intros H; exact H]. Qed.

Lemma same_shape_trans b1 b2 b3 :
  same_shape b1 b2 -> same_shape b2 b3 -> same_shape b1 b3.
Proof. intros [Hl1 Hb1] [Hl2 Hb2]. split; [congruence | intros H; apply Hb2, Hb1, H]. Qed.

Lemma encodeValue_shape buffer value type offset i strlen :
  same_shape buffer (encodeValueToBuffer buffer value type offset i strlen).
Proof.
  destruct (encodeValue_kept buffer value type offset i strlen) as (Hl & Hb & _).
  split; [symmetry; exact Hl | exact Hb].
Qed.

Lemma encode_elems_shape type typesize n : forall elems buffer st,
  same_shape buffer (fst (encode_elems type typesize n elems buffer st)).
Proof.
  induction n as [|n IH]; intros elems buffer [offset bits]; cbn [encode_elems fst].
  - apply same_shape_refl.
  - eapply same_shape_trans; [|apply IH].
    destruct (typeIsObject type); [apply same_shape_refl | apply encodeValue_shape].
Qed.

Lemma encode_step_shape buffer st item buffer' st' :
  encode_step buffer st item = Some (buffer', st') -> same_shape buffer buffer'.
Proof.
  unfold encode_step. destruct (item_type item) as [t|]; [|discriminate].
  cbn [mbind option_bind]. destruct st as [offset bits].
  destruct (isBoolean (toLocaleUpperCase t) && is_array (item_size item));
    [|destruct (isBoolean (toLocaleUpperCase t))];
    (destruct (if is_array (item_size item) then as_array (item_value item) else None)
       as [elems|];
     [ match goal with
       | |- context [encode_elems ?ty ?ts ?n ?es ?b ?s] =>
           pose proof (encode_elems_shape ty ts n es b s) as Hs;
           destruct (encode_elems ty ts n es b s) as [b1 [o1 bits1]]
       end;
       cbn [fst] in Hs; intros H; injection H as <- _; exact Hs
     | intros H; injection H as <- _;
       destruct (typeIsObject (toLocaleUpperCase t));
       [apply same_shape_refl | apply encodeValue_shape] ]).
Qed.

Lemma encode_loop_shape items : forall buffer st,
  Forall (fun item => item_type item <> None) items ->
  exists buffer', encode_loop buffer st items = Some buffer' /\ same_shape buffer buffer'.
Proof.
  induction items as [|item rest IH]; intros buffer st Hty; cbn [encode_loop].
  - exists buffer. split; [reflexivity | apply same_shape_refl].
  - inversion Hty as [|? ? Hitem Hrest]; subst.
    destruct (encode_step buffer st item) as [[b1 st1]|] eqn:E.
    + cbn [mbind option_bind]. destruct (IH b1 st1 Hrest) as (b2 & Hloop & Hs).
      exists b2. split; [exact Hloop|].
      eapply same_shape_trans; [exact (encode_step_shape _ _ _ _ _ E) | exact Hs].
    + exfalso. unfold encode_step in E. destruct (item_type item); [|congruence].
      cbn [mbind option_bind] in E. destruct st as [o b].
      destruct (if _ && _ then _ else _) as [o' b'] in E. discriminate.
Qed.

(** Encoding a block with non-negative capacities never throws. *)
Lemma encode_loop_total (items : list S7DBStructureItem) (db_offset : Z) :
  Forall capacity_ok items ->
  exists buffer,
    DBStructure_encode items db_offset
    = Some (buffer, snd (DBStructure_calculateSize items db_offset))
    /\ Z.of_nat (length buffer) = fst (DBStructure_calculateSize items db_offset)
    /\ Forall is_byte buffer.
Proof.
  intros Hcap. unfold DBStructure_encode, DBStructure_calculateSize.
  assert (Forall (fun item => 0 <= item_typesize item) items) as Hts
    by (eapply List.Forall_impl; [|exact Hcap]; apply item_typesize_nonneg).
  pose proof (calc_loop_bits db_offset items 0 0 Hts ltac:(lia) ltac:(lia)) as (H1 & H2 & _).
  pose proof (calc_loop_fields db_offset items (0, 0)) as (_ & _ & Hty & _).
  destruct (calc_loop db_offset (0, 0) items) as [[total used] items'].
  cbn [fst snd] in *.
  assert (0 <= calc_finish (total, used)) as Hsize
    by (unfold calc_finish; destruct (0 <? used); name_roundings; lia).
  unfold Buffer_alloc. destruct (calc_finish (total, used) <? 0) eqn:E; [zbool; lia|].
  cbn [mbind option_bind].
  assert (Forall (fun item => item_type item <> None) items') as Htyped.
  { apply List.Forall_forall. intros item Hin.
    apply (List.in_map item_type) in Hin. rewrite Hty in Hin.
    apply List.in_map_iff in Hin as (x & Hx & _). congruence. }
  destruct (encode_loop_shape items' (replicate (Z.to_nat (calc_finish (total, used))) 0)
              (0, 0) Htyped) as (buffer & Hloop & Hlen & Hbytes).
  exists buffer. rewrite Hloop. cbn [mbind option_bind]. split; [reflexivity|].
  split.
  - rewrite Hlen, length_replicate. lia.
  - apply Hbytes, Forall_replicate. unfold is_byte. lia.
Qed.

(** X15: for declarations whose string capacities are not negative,
    whatever values the items carry (missing, of another type, out of
    range), [DBStructure_encode] does not throw: it returns a buffer of
    bytes whose length is exactly the size [DBStructure_calculateSize]
    computes, together with the annotated items. *)
Theorem encode_never_throws (items : list S7DBStructureItem) (db_offset : Z) :
  Forall capacity_ok items ->
  exists buffer,
    DBStructure_encode items db_offset
    = Some (buffer, snd (DBStructure_calculateSize items db_offset))
    /\ Z.of_nat (length buffer) = fst (DBStructure_calculateSize items db_offset)
    /\ Forall is_byte buffer.
Proof. apply encode_loop_total. Qed.

Lemma encode_never_throws_witness :
  exists buffer,
    DBStructure_encode mixed_layout 3
    = Some (buffer, snd (DBStructure_calculateSize mixed_layout 3))
    /\ Z.of_nat (length buffer) = fst (DBStructure_calculateSize mixed_layout 3)
    /\ Forall is_byte buffer.
Proof.
  apply (encode_never_throws mixed_layout 3).
  unfold mixed_layout. repeat (apply List.Forall_cons; [unfold capacity_ok; simpl; lia|]).
  apply List.Forall_nil.
Defined.

(** One iteration of the decoder on an item that has a type. *)
Lemma parse_step_shape buffer st item t :
  item_type item = Some t ->
  exists st' pushed,
    parse_step buffer st item = Some (st', pushed, upper_typed item)
    /\ (typeIsObject (toLocaleUpperCase t) = false ->
        exists v, pushed = [{| data_name := item_name item;
                               data_type := toLocaleUpperCase t; data_value := v |}]).
Proof.
  intros Ht. unfold parse_step, upper_typed. rewrite Ht.
  cbn [mbind option_bind fmap option_fmap option_map]. destruct st as [o b].
  repeat first
    [ match goal with
      | |- context [parse_elems ?a ?b ?c ?d ?e] =>
          destruct (parse_elems a b c d e) as [? [? ?]]
      end
    | match goal with
      | |- context [if ?c then _ else _] => destruct c eqn:?
      end ];
    (eexists; eexists; split; [reflexivity|]);
    intros Hobj; try congruence; eexists; reflexivity.
Qed.

Lemma parse_loop_shape buffer items : forall st,
  Forall (fun item => item_type item <> None) items ->
  exists output,
    parse_loop buffer st items = Some (output, map upper_typed items)
    /\ (Forall plain_item items ->
        map data_name output = map item_name items
        /\ map data_type output = map reported_type items).
Proof.
  induction items as [|item rest IH]; intros st Hty; cbn [parse_loop map].
  - exists []. split; [reflexivity|]. intros _. split; reflexivity.
  - inversion Hty as [|? ? Hitem Hrest]; subst.
    destruct (item_type item) as [t|] eqn:Et; [|congruence].
    destruct (parse_step_shape buffer st item t Et) as (st1 & pushed & Hstep & Hplain).
    destruct (IH st1 Hrest) as (output & Hloop & Hnames).
    exists (pushed ++ output). rewrite Hstep. cbn [mbind option_bind].
    rewrite Hloop. cbn [mbind option_bind]. split; [reflexivity|].
    intros Hall. inversion Hall as [|? ? Hp Hps]; subst.
    unfold plain_item, reported_type in Hp. rewrite Et in Hp. cbn [default] in Hp.
    destruct (Hplain Hp) as (v & ->). destruct (Hnames Hps) as [Hn Hd].
    cbn [app map data_name data_type]. rewrite Hn, Hd.
    unfold reported_type at 2. rewrite Et. split; reflexivity.
Qed.

Lemma parse_loop_untyped buffer items : forall st,
  Exists (fun item => item_type item = None) items -> parse_loop buffer st items = None.
Proof.
  induction items as [|item rest IH]; intros st Hex; [inversion Hex|].
  cbn [parse_loop]. destruct (item_type item) as [t|] eqn:Et.
  - destruct (parse_step_shape buffer st item t Et) as (st1 & pushed & Hstep & _).
    rewrite Hstep. cbn [mbind option_bind]. rewrite IH; [reflexivity|].
    inversion Hex as [? ? H|? ? H]; subst; [congruence | exact H].
  - unfold parse_step. rewrite Et. reflexivity.
Qed.

Lemma typed_or_not (items : list S7DBStructureItem) :
  Forall (fun item => item_type item <> None) items
  \/ Exists (fun item => item_type item = None) items.
Proof.
  induction items as [|item rest [IH|IH]].
  - left. constructor.
  - destruct (item_type item) eqn:E.
    + left. constructor; [congruence | exact IH].
    + right. apply Exists_cons_hd, E.
  - right. apply Exists_cons_tl, IH.
Qed.

(** X16: [DBStructure_parse] throws exactly when some item has no type:
    neither the length nor the content of the buffer can make it throw. *)
Theorem parse_throws_on_missing_type (items : list S7DBStructureItem) (buffer : list Z) :
  DBStructure_parse items buffer = None
  <-> Exists (fun item => item_type item = None) items.
Proof.
  unfold DBStructure_parse. split.
  - intros H. destruct (typed_or_not items) as [Hty|Hex]; [|exact Hex].
    exfalso. destruct (parse_loop_shape buffer items (0, 0) Hty) as (output & Hloop & _).
    rewrite Hloop in H. discriminate.
  - apply parse_loop_untyped.
Qed.

(** X17: when every item has a type, [DBStructure_parse] returns, for any
    buffer, the items with their types upper-cased and, when no item is a
    composite, exactly one entry per item, in order, carrying the name of
    the item and its upper-cased type; a value that cannot be read shows
    in the value of its entry only. *)
Theorem parse_gives_one_entry_per_item (items : list S7DBStructureItem) (buffer : list Z) :
  Forall (fun item => item_type item <> None) items ->
  exists output,
    DBStructure_parse items buffer = Some (output, map upper_typed items)
    /\ (Forall plain_item items ->
        map data_name output = map item_name items
        /\ map data_type output = map reported_type items).
Proof. intros Hty. apply parse_loop_shape, Hty. Qed.

Lemma parse_gives_one_entry_per_item_witness :
  exists output,
    DBStructure_parse mixed_layout [] = Some (output, map upper_typed mixed_layout)
    /\ (Forall plain_item mixed_layout ->
        map data_name output = map item_name mixed_layout
        /\ map data_type output = map reported_type mixed_layout).
Proof.
  apply (parse_gives_one_entry_per_item mixed_layout []).
  unfold mixed_layout. repeat (apply List.Forall_cons; [discriminate|]).
  apply List.Forall_nil.
Defined.

(** ** Blocks of one variable *)

Lemma one_byte_type type :
  variableTypeSize type = 1 -> type_case type <> C_BIT ->
  reserved type 1 = 1 /\ (isString type = true -> False).
Proof.
  intros Hw Hbit. split.
  - unfold reserved. destruct (type_case type); exact Hw || reflexivity.
  - intros Hs. apply String.eqb_eq in Hs. subst type. vm_compute in Hw. discriminate.
Qed.

(** X28: a block of one single item of a one-byte type (BOOL, BYTE, SINT,
    USINT or CHAR) is encoded into two bytes, the size being rounded up to
    even, and the second byte is zero whatever the value: the write of one
    such variable, for which the handler builds such a block, also writes a
    zero into the byte that follows the variable. *)
Theorem one_byte_block_takes_two_bytes (item : S7DBStructureItem) (db_offset : Z) :
  normal_size item = 1 -> variableTypeSize (normal_type item) = 1 ->
  type_case (normal_type item) <> C_BIT ->
  exists buffer items',
    DBStructure_encode [item] db_offset = Some (buffer, items')
    /\ length buffer = 2%nat
    /\ buffer !! 1%nat = Some 0.
Proof.
  intros Hone Hw Hbit.
  destruct (one_byte_type _ Hw Hbit) as [Hres Hstr].
  assert (isString (normal_type item) = false) as Hs
    by (destruct (isString (normal_type item)); [exfalso; apply Hstr; reflexivity | reflexivity]).
  destruct (calc_step_fields db_offset (0, 0) item) as (_ & Hv & Hty & Hsz & _).
  assert (calc_finish (fst (calc_step db_offset (0, 0) item)) = 2) as Hsize.
  { unfold calc_step. rewrite Hone, Hs, Hw. change (0 <? 0) with false.
    change (1 <? 1) with false. cbn [andb]. cbn iota.
    destruct (isBoolean (normal_type item)); reflexivity. }
  unfold DBStructure_encode, DBStructure_calculateSize. cbn [calc_loop].
  destruct (calc_step db_offset (0, 0) item) as [st1 item'] eqn:Estep.
  cbn [fst snd] in *. rewrite Hsize. rewrite Hone in Hsz.
  change (Buffer_alloc 2) with (Some [0; 0]). cbn [mbind option_bind encode_loop].
  destruct (annotated_type item') as [_ Hup].
  { rewrite Hty. f_equal. symmetry. apply normal_type_stable, Hty. }
  rewrite (normal_type_stable item item' Hty) in Hup.
  destruct (encode_step [0; 0] (0, 0) item') as [[b1 st']|] eqn:Eenc.
  2:{ unfold encode_step in Eenc. rewrite Hty in Eenc. cbn [mbind option_bind] in Eenc.
      destruct (if _ && _ then _ else _) as [o' b'] in Eenc. discriminate. }
  cbn [mbind option_bind]. exists b1, [item']. split; [reflexivity|].
  destruct (encode_step_shape _ _ _ _ _ Eenc) as [Hlen _].
  split; [exact Hlen|].
  unfold encode_step in Eenc. rewrite Hty in Eenc. cbn [mbind option_bind] in Eenc.
  rewrite Hsz, Hup, Hs, Hw in Eenc. change (is_array (Some 1)) with false in Eenc.
  rewrite andb_false_r in Eenc. change (0 <? 0) with false in Eenc.
  change (1 <? 1) with false in Eenc. cbn [orb] in Eenc. cbn iota in Eenc.
  pose proof (encodeValue_uo [0; 0] (coerce (normal_type item) (item_value item'))
                (normal_type item) 0) as Huo.
  destruct (isBoolean (normal_type item)); cbn iota in Eenc;
    destruct (typeIsObject (normal_type item)); injection Eenc as <- _;
    try reflexivity;
    match goal with
    | |- encodeValueToBuffer _ _ _ _ ?i _ !! _ = _ =>
        rewrite (Huo i 1 Hbit 1%nat) by (rewrite Hres; right; simpl; lia); reflexivity
    end.
Qed.

Lemma one_byte_block_takes_two_bytes_witness :
  exists buffer items',
    DBStructure_encode [declare "b" "BYTE" (VNum 255)] 0 = Some (buffer, items')
    /\ length buffer = 2%nat
    /\ buffer !! 1%nat = Some 0.
Proof.
  exact (one_byte_block_takes_two_bytes (declare "b" "BYTE" (VNum 255)) 0
           eq_refl eq_refl ltac:(vm_compute; discriminate)).
Defined.

(** ** Transport *)

Lemma after_calls_nil w : after_calls [] w = w.
Proof. destruct w. reflexivity. Qed.

Lemma after_calls_app e1 e2 w :
  after_calls e2 (after_calls e1 w) = after_calls (e1 ++ e2) w.
Proof.
  unfold after_calls. cbn [now sequences net calls rivals trace]. f_equal.
  - rewrite length_app. lia.
  - rewrite rev_app_distr, app_assoc. reflexivity.
Qed.

Lemma raw_call_after e w : raw_call e w = (net w (calls w), after_calls [e] w).
Proof. reflexivity. Qed.

(** X18: [read_with_retries] makes at most three [DBRead] calls, all for
    the same range: it returns the bytes of the first call that succeeds
    and stops there; when the three calls fail it fails with the error of
    the third.  Nothing but the transport is touched. *)
Theorem read_with_retries_first_success (db offset size : Z) (w : World) :
  let attempt := EvDBRead db offset size in
  read_with_retries db offset size 3 w
  = match net w (calls w) with
    | NetOk data => (inr data, after_calls [attempt] w)
    | NetErr _ =>
        match net w (S (calls w)) with
        | NetOk data => (inr data, after_calls [attempt; attempt] w)
        | NetErr _ =>
            match net w (S (S (calls w))) with
            | NetOk data => (inr data, after_calls [attempt; attempt; attempt] w)
            | NetErr e => (inl e, after_calls [attempt; attempt; attempt] w)
            end
        end
    end.
Proof.
  cbv zeta. cbn [read_with_retries]. unfold read_default, raw_call. cbn [net calls].
  destruct (net w (calls w)); [reflexivity|]. cbn [net calls].
  destruct (net w (S (calls w))); [reflexivity|]. cbn [net calls].
  destruct (net w (S (S (calls w)))); reflexivity.
Qed.

Lemma ceil_div_bounds size bufferSize :
  0 < bufferSize -> 0 < size ->
  (ceil_div size bufferSize - 1) * bufferSize < size <= ceil_div size bufferSize * bufferSize.
Proof. intros Hb Hs. unfold ceil_div. Z.to_euclidean_division_equations. nia. Qed.

(** The chunk loop on a transport that answers every call. *)
Lemma read_chunks_answered db offset size bufferSize batchCount (reply : nat -> list Z) n :
  forall i w,
  (forall k, net w k = NetOk (reply k)) ->
  (forall j, i <= j < i + Z.of_nat n -> 0 < chunk_size size bufferSize batchCount j) ->
  read_chunks db offset size bufferSize batchCount n i w
  = (inr (map reply (seq (calls w) n)),
     after_calls
       (map (fun j => EvDBRead db (offset + 10 * (j * bufferSize))
                        (chunk_size size bufferSize batchCount j))
            (seqZ i (Z.of_nat n))) w).
Proof.
  induction n as [|n IH]; intros i w Hnet Hpos.
  - cbn [read_chunks seq map seqZ]. rewrite after_calls_nil. reflexivity.
  - cbn [read_chunks]. fold (chunk_size size bufferSize batchCount i).
    assert ((0 <? chunk_size size bufferSize batchCount i) = true) as ->
      by (apply Z.ltb_lt, Hpos; lia).
    cbn [read_with_retries]. unfold read_default, raw_call. rewrite Hnet.
    set (w1 := {| now := now w; sequences := sequences w; net := net w;
                  calls := S (calls w); rivals := rivals w;
                  trace := EvDBRead db (offset + 10 * (i * bufferSize))
                             (chunk_size size bufferSize batchCount i) :: trace w |}).
    rewrite (IH (i + 1) w1); [| exact Hnet | intros j Hj; apply Hpos; lia].
    rewrite Nat2Z.inj_succ, (seqZ_cons i) by lia.
    replace (Z.succ i) with (i + 1) by lia.
    replace (Z.pred (Z.succ (Z.of_nat n))) with (Z.of_nat n) by lia.
    cbn [map seq]. f_equal.
    change w1 with (after_calls [EvDBRead db (offset + 10 * (i * bufferSize))
                                   (chunk_size size bufferSize batchCount i)] w).
    rewrite after_calls_app. reflexivity.
Qed.

Lemma chunk_plan_tiles size bufferSize n :
  0 < bufferSize ->
  forall i,
  0 <= i -> i * bufferSize < size ->
  (i + Z.of_nat n - 1) * bufferSize < size <= (i + Z.of_nat n) * bufferSize ->
  tiles (map (fun j => (j * bufferSize, chunk_size size bufferSize (i + Z.of_nat n) j))
             (seqZ i (Z.of_nat n)))
        (i * bufferSize) size
  /\ Forall (fun p => snd p <= bufferSize)
       (map (fun j => (j * bufferSize, chunk_size size bufferSize (i + Z.of_nat n) j))
            (seqZ i (Z.of_nat n))).
Proof.
  intros Hb. induction n as [|n IH]; intros i Hi Hlt Hn.
  - cbn. split; [nia | constructor].
  - rewrite Nat2Z.inj_succ, (seqZ_cons i) by lia.
    replace (Z.pred (Z.succ (Z.of_nat n))) with (Z.of_nat n) by lia.
    replace (Z.succ i) with (i + 1) by lia.
    replace (i + Z.succ (Z.of_nat n)) with (i + 1 + Z.of_nat n) in * by lia.
    cbn [map tiles].
    destruct (i <? i + 1 + Z.of_nat n - 1) eqn:E.
    + assert (chunk_size size bufferSize (i + 1 + Z.of_nat n) i = bufferSize) as Hsize
        by (unfold chunk_size; rewrite E; reflexivity).
      rewrite !Hsize. zbool.
      rewrite Nat2Z.inj_succ in Hn.
      assert ((i + 1) * bufferSize <= (i + Z.of_nat n) * bufferSize) as Hstep
        by (apply Z.mul_le_mono_nonneg_r; lia).
      replace (i + Z.succ (Z.of_nat n) - 1) with (i + Z.of_nat n) in Hn by lia.
      replace (i + Z.succ (Z.of_nat n)) with (i + 1 + Z.of_nat n) in Hn by lia.
      assert ((i + 1) * bufferSize < size) as Hnext by lia.
      assert (0 <= i + 1) as Hi1 by lia.
      destruct (IH (i + 1) Hi1 Hnext) as [Ht Hf].
      { replace (i + 1 + Z.of_nat n - 1) with (i + Z.of_nat n) by lia. exact Hn. }
      split; [split; [reflexivity | split; [lia|]]|].
      * replace (i * bufferSize + bufferSize) with ((i + 1) * bufferSize) by lia. exact Ht.
      * constructor; [cbn [snd]; lia | exact Hf].
    + assert (chunk_size size bufferSize (i + 1 + Z.of_nat n) i = size - i * bufferSize)
        as Hsize by (unfold chunk_size; rewrite E; reflexivity).
      rewrite !Hsize. zbool.
      assert (n = 0%nat) as -> by lia. change (Z.of_nat 1) with 1 in Hn.
      change (Z.of_nat 0) with 0. rewrite seqZ_nil by lia. cbn [map tiles].
      replace (i + 1 - 1) with i in Hn by lia.
      split; [split; [reflexivity | split; lia]|].
      constructor; [cbn [snd]; lia | constructor].
Qed.

(** X19: when the client's [bufferSize] is smaller than the block and the
    transport answers every call, the chunk loop of [read] issues one
    [DBRead] per chunk of [chunk_plan], in order, at the block offset plus
    the chunk offset, and returns the replies in that order.  The chunks
    follow one another without gap or overlap from the first byte of the
    block to its last, and none is empty or larger than [bufferSize]. *)
Theorem chunked_read_tiles_the_block (db offset size bufferSize : Z)
    (reply : nat -> list Z) (w : World) :
  0 < bufferSize < size ->
  (forall k, net w k = NetOk (reply k)) ->
  let batchCount := ceil_div size bufferSize in
  read_chunks db offset size bufferSize batchCount (Z.to_nat batchCount) 0 w
  = (inr (map reply (seq (calls w) (Z.to_nat batchCount))),
     after_calls (map (fun p => EvDBRead db (offset + 10 * fst p) (snd p))
                      (chunk_plan size bufferSize)) w)
  /\ tiles (chunk_plan size bufferSize) 0 size
  /\ Forall (fun p => snd p <= bufferSize) (chunk_plan size bufferSize).
Proof.
  intros Hb Hnet batchCount.
  pose proof (ceil_div_bounds size bufferSize ltac:(lia) ltac:(lia)) as Hc.
  fold batchCount in Hc.
  assert (0 < batchCount) as Hn by nia.
  destruct (chunk_plan_tiles size bufferSize (Z.to_nat batchCount) ltac:(lia) 0
              ltac:(lia) ltac:(lia)) as [Ht Hf].
  { rewrite Z2Nat.id by lia. lia. }
  rewrite Z2Nat.id, Z.add_0_l in Ht, Hf by lia.
  assert (chunk_plan size bufferSize
          = map (fun j => (j * bufferSize, chunk_size size bufferSize batchCount j))
                (seqZ 0 batchCount)) as Hplan by reflexivity.
  split; [|split; [rewrite Hplan; exact Ht | rewrite Hplan; exact Hf]].
  rewrite (read_chunks_answered db offset size bufferSize batchCount reply); [|exact Hnet|].
  - rewrite Z2Nat.id by lia. rewrite Hplan, map_map. reflexivity.
  - intros j Hj. rewrite Z2Nat.id in Hj by lia. unfold chunk_size.
    destruct (j <? batchCount - 1) eqn:E; zbool; [lia | nia].
Qed.

Lemma chunked_read_tiles_the_block_witness :
  let w := fresh_world ∅ (fun _ => NetOk [7]) [] in
  tiles (chunk_plan 10 4) 0 10
  /\ fst (read_chunks 1 0 10 4 (ceil_div 10 4) (Z.to_nat (ceil_div 10 4)) 0 w)
     = inr [[7]; [7]; [7]].
Proof.
  pose proof (chunked_read_tiles_the_block 1 0 10 4 (fun _ => [7])
                (fresh_world ∅ (fun _ => NetOk [7]) []) ltac:(lia)
                ltac:(intros k; reflexivity)) as (Hrun & Htiles & _).
  split; [exact Htiles | rewrite Hrun; reflexivity].
Defined.

(** ** The client *)

Lemma new_DBStructure_again (input : S7DBStructure) :
  0 <= req_offset input ->
  new_DBStructure (as_request (new_DBStructure input)) = new_DBStructure input.
Proof.
  unfold new_DBStructure, DBStructure_calculateSize.
  pose proof (calc_loop_idem (req_offset input) (req_items input) (0, 0)) as Hidem.
  destruct (calc_loop (req_offset input) (0, 0) (req_items input)) as [st items'] eqn:E.
  cbn [snd] in *.
  intros Hoff. unfold as_request. cbn [req_items req_offset req_name req_db db_name db_db
    db_offset db_items db_size].
  assert ((if 0 <? req_offset input then req_offset input else 0) = req_offset input)
    as Hclamp by (destruct (0 <? req_offset input) eqn:E1; zbool; lia).
  rewrite !Hclamp, Hidem. f_equal.
  - destruct (req_name input) as [n|]; [|reflexivity].
    destruct (String.eqb n "") eqn:En; [reflexivity | rewrite En; reflexivity].
  - destruct (0 <=? req_db input) eqn:E1; [rewrite E1; reflexivity | reflexivity].
Qed.

(** X20: the constructor of [DBStructure] never yields a negative block
    number or offset, whatever the declaration; and on a declaration whose
    offset is not negative it is idempotent: constructing again from the
    constructed block, as the static [read] and [write] do, changes
    nothing. *)
Theorem constructor_is_idempotent (input : S7DBStructure) :
  0 <= db_db (new_DBStructure input)
  /\ 0 <= db_offset (new_DBStructure input)
  /\ (0 <= req_offset input ->
      new_DBStructure (as_request (new_DBStructure input)) = new_DBStructure input).
Proof.
  split; [|split; [|apply new_DBStructure_again]].
  - unfold new_DBStructure. destruct (DBStructure_calculateSize _ _) as [size items'].
    cbn [db_db]. destruct (0 <=? req_db input) eqn:E1; zbool; lia.
  - unfold new_DBStructure. destruct (DBStructure_calculateSize _ _) as [size items'].
    cbn [db_offset]. destruct (0 <? req_offset input) eqn:E1; zbool; lia.
Qed.

Lemma constructor_is_idempotent_witness :
  0 <= db_offset (new_DBStructure {| req_name := None; req_db := -1; req_offset := -20;
                                     req_items := [] |})
  /\ new_DBStructure (as_request (new_DBStructure (word_block (-1) 0)))
     = new_DBStructure (word_block (-1) 0).
Proof.
  split.
  - exact (proj1 (proj2 (constructor_is_idempotent
                           {| req_name := None; req_db := -1; req_offset := -20;
                              req_items := [] |}))).
  - exact (proj2 (proj2 (constructor_is_idempotent (word_block (-1) 0)))
             ltac:(simpl; lia)).
Defined.

Lemma connect_after client w :
  connect client w
  = (match net w (calls w) with
     | NetOk _ => Resolved tt
     | NetErr err => Rejected (ConnectFailed err)
     end, after_calls [EvConnect (s7_host client)] w).
Proof. unfold connect, raw_call. destruct (net w (calls w)); reflexivity. Qed.

Lemma parse_annotated items start data :
  exists output items',
    DBStructure_parse (snd (DBStructure_calculateSize items start)) data
    = Some (output, items').
Proof.
  pose proof (calc_loop_fields start items (0, 0)) as (_ & _ & Hty & _).
  unfold DBStructure_calculateSize.
  destruct (calc_loop start (0, 0) items) as [st items']. cbn [snd] in *.
  assert (Forall (fun item => item_type item <> None) items') as Htyped.
  { apply List.Forall_forall. intros item Hin.
    apply (List.in_map item_type) in Hin. rewrite Hty in Hin.
    apply List.in_map_iff in Hin as (x & Hx & _). congruence. }
  destruct (parse_loop_shape data items' (0, 0) Htyped) as (output & Hloop & _).
  exists output, (map upper_typed items'). exact Hloop.
Qed.

Lemma db_items_annotated input :
  db_items (new_DBStructure input)
  = snd (DBStructure_calculateSize (req_items input) (req_offset input))
  /\ db_size (new_DBStructure input)
     = fst (DBStructure_calculateSize (req_items input) (req_offset input)).
Proof.
  unfold new_DBStructure. destruct (DBStructure_calculateSize _ _). split; reflexivity.
Qed.

(** X21: a static read of a block whose offset is not negative, of
    positive size and not cut into chunks, calls [ConnectTo] twice (the
    first call is not awaited and its outcome is ignored), then reads with
    retries, then decodes the reply.
    A failure to connect or to read rejects with the error and the request,
    and decoding the reply of an annotated block never fails. *)
Theorem static_read_outcome (config : S7DBConfig) (input : S7DBStructure) (w : World) :
  0 <= req_offset input ->
  let d := new_DBStructure input in
  let client := new_S7 config in
  let size := if s7_staticSize client =? 0 then db_size d else s7_staticSize client in
  let c := EvConnect (s7_host client) in
  0 < size -> s7_bufferSize client <= 0 \/ size <= s7_bufferSize client ->
  S7_read_static config input w
  = match net w (S (calls w)) with
    | NetErr code => (Rejected (RequestFailed (ConnectFailed code) d), after_calls [c; c] w)
    | NetOk _ =>
        match read_with_retries (db_db d) (db_offset d) size 3 (after_calls [c; c] w) with
        | (inl e, w') =>
            (Rejected (RequestFailed (ReadFailed (db_db d) (db_offset d) size e) d), w')
        | (inr data, w') =>
            (match DBStructure_parse (db_items d) data with
             | Some (output, _) => Resolved output
             | None => Rejected (RequestFailed ParseFailed d)
             end, w')
        end
    end
  /\ forall data, exists output items',
       DBStructure_parse (db_items d) data = Some (output, items').
Proof.
  intros Hoff d client size c Hsize Hchunk. split.
  - unfold S7_read_static, try_catch, bind, connect_unawaited. rewrite raw_call_after.
    cbn [snd]. unfold S7_read. rewrite (new_DBStructure_again input Hoff).
    fold d client. fold size.
    assert ((0 <? size) = true) as -> by (apply Z.ltb_lt; exact Hsize).
    unfold bind. rewrite connect_after. fold c.
    rewrite after_calls_app. cbn [app after_calls net calls length Nat.add].
    destruct (net w (S (calls w))) as [reply|code]; [|reflexivity].
    assert ((0 <? s7_bufferSize client) && (s7_bufferSize client <? size) = false) as ->.
    { destruct (0 <? s7_bufferSize client) eqn:E1; [|reflexivity].
      destruct (s7_bufferSize client <? size) eqn:E2; [|reflexivity]. zbool. lia. }
    destruct (read_with_retries (db_db d) (db_offset d) size 3 _) as [[e|data] w'];
      [reflexivity|].
    destruct (DBStructure_parse (db_items d) data) as [[output ?]|]; reflexivity.
  - intros data. unfold d. rewrite (proj1 (db_items_annotated input)).
    apply parse_annotated.
Qed.

Lemma static_read_outcome_witness :
  fst (S7_read_static plc_config (word_block 1 0) (fresh_world ∅ (fun _ => NetOk [1; 2]) []))
  = Resolved [{| data_name := "w"; data_type := "INT"; data_value := VNum 258 |}].
Proof.
  rewrite (proj1 (static_read_outcome plc_config (word_block 1 0)
                    (fresh_world ∅ (fun _ => NetOk [1; 2]) [])
                    ltac:(simpl; lia) ltac:(vm_compute; reflexivity)
                    ltac:(left; simpl; lia))).
  reflexivity.
Defined.

(** X22: a static read or write of a block without items, on a client
    without [staticSize], still calls [ConnectTo] once (the call that is not
    awaited) but makes no [DBRead] or [DBWrite]: the read resolves with the
    empty list and the write resolves. *)
Theorem empty_block_makes_no_transfer (config : S7DBConfig) (input : S7DBStructure)
    (w : World) :
  req_items input = [] -> cfg_staticSize config = 0 ->
  let c := EvConnect (s7_host (new_S7 config)) in
  S7_read_static config input w = (Resolved [], after_calls [c] w)
  /\ S7_write_static config input w = (Resolved tt, after_calls [c] w).
Proof.
  intros Hitems Hstatic c.
  assert (db_size (new_DBStructure (as_request (new_DBStructure input))) = 0) as Hsize.
  { unfold new_DBStructure, as_request. rewrite Hitems. reflexivity. }
  split.
  - unfold S7_read_static, try_catch, bind, connect_unawaited. rewrite raw_call_after.
    cbn [snd]. unfold S7_read. rewrite Hsize.
    change (s7_staticSize (new_S7 config)) with (cfg_staticSize config). rewrite Hstatic.
    reflexivity.
  - unfold S7_write_static, bind, connect_unawaited. rewrite raw_call_after.
    cbn [snd]. unfold S7_write. rewrite Hsize.
    change (s7_staticSize (new_S7 config)) with (cfg_staticSize config). rewrite Hstatic.
    reflexivity.
Qed.

Lemma empty_block_makes_no_transfer_witness :
  let input := {| req_name := None; req_db := 1; req_offset := 0; req_items := [] |} in
  calls (snd (S7_read_static plc_config input flaky_world)) = 1%nat.
Proof.
  cbv zeta.
  rewrite (proj1 (empty_block_makes_no_transfer plc_config
                    {| req_name := None; req_db := 1; req_offset := 0; req_items := [] |}
                    flaky_world eq_refl eq_refl)).
  reflexivity.
Defined.

Lemma write_with_retries_after db offset size buff w :
  write_with_retries db offset size buff w
  = (match net w (calls w) with
     | NetOk _ => Resolved tt
     | NetErr e => Rejected (WriteFailed db offset size e)
     end, after_calls [EvDBWrite db offset size buff] w).
Proof.
  unfold write_with_retries, write_default, raw_call.
  destruct (net w (calls w)); reflexivity.
Qed.

Lemma calc_keeps_capacity start items : forall st,
  Forall capacity_ok items -> Forall capacity_ok (snd (calc_loop start st items)).
Proof.
  induction items as [|item rest IH]; intros st Hcap; [constructor|].
  inversion Hcap as [|? ? Hitem Hrest]; subst.
  destruct (calc_step_fields start st item) as (_ & _ & _ & _ & Hl).
  cbn [calc_loop]. destruct (calc_step start st item) as [st1 item'].
  specialize (IH st1 Hrest). destruct (calc_loop start st1 rest) as [st2 rest'].
  cbn [snd] in *. constructor; [|exact IH].
  unfold capacity_ok in *. rewrite Hl.
  destruct (isString (normal_type item)); [|exact Hitem].
  unfold or_default. destruct (item_strlen item) as [n|]; [|lia].
  destruct (n =? 0); lia.
Qed.

(** What a static write of a block of positive size does. *)
Lemma static_write_run (config : S7DBConfig) (input : S7DBStructure) (w : World) :
  Forall capacity_ok (req_items input) -> 0 <= req_offset input ->
  let d := new_DBStructure input in
  let client := new_S7 config in
  let size := if s7_staticSize client =? 0 then db_size d else s7_staticSize client in
  let c := EvConnect (s7_host client) in
  0 < size ->
  exists buffer,
    DBStructure_encode (db_items d) (db_offset d) = Some (buffer, db_items d)
    /\ Z.of_nat (length buffer) = db_size d
    /\ S7_write_static config input w
       = match net w (S (calls w)) with
         | NetErr code => (Rejected (ConnectFailed code), after_calls [c; c] w)
         | NetOk _ =>
             (match net w (S (S (calls w))) with
              | NetOk _ => Resolved tt
              | NetErr e => Rejected (WriteFailed (db_db d) (db_offset d) size e)
              end,
              after_calls [c; c; EvDBWrite (db_db d) (db_offset d) size buffer] w)
         end.
Proof.
  intros Hcap Hoff d client size c Hsize.
  destruct (db_items_annotated input) as [Hitems Hdsize]. fold d in Hitems, Hdsize.
  assert (db_offset d = req_offset input) as Hdoff.
  { unfold d, new_DBStructure. destruct (DBStructure_calculateSize _ _).
    cbn [db_offset]. destruct (0 <? req_offset input) eqn:E; zbool; lia. }
  pose proof (calc_loop_idem (req_offset input) (req_items input) (0, 0)) as Hidem.
  assert (DBStructure_calculateSize (db_items d) (db_offset d)
          = (db_size d, db_items d)) as Hcalc.
  { rewrite Hitems, Hdsize, Hdoff. unfold DBStructure_calculateSize.
    destruct (calc_loop (req_offset input) (0, 0) (req_items input)) as [st items'].
    cbn [snd fst] in *. rewrite Hidem. reflexivity. }
  assert (Forall capacity_ok (db_items d)) as Hcap'.
  { rewrite Hitems. unfold DBStructure_calculateSize.
    pose proof (calc_keeps_capacity (req_offset input) (req_items input) (0, 0) Hcap) as H.
    destruct (calc_loop (req_offset input) (0, 0) (req_items input)). exact H. }
  destruct (encode_loop_total (db_items d) (db_offset d) Hcap') as (buffer & Henc & Hlen & _).
  rewrite Hcalc in Henc, Hlen. cbn [fst snd] in Henc, Hlen.
  exists buffer. split; [exact Henc | split; [exact Hlen|]].
  unfold S7_write_static, bind, connect_unawaited. rewrite raw_call_after.
  cbn [snd]. unfold S7_write. rewrite (new_DBStructure_again input Hoff).
  fold d client. fold size.
  assert ((0 <? size) = true) as -> by (apply Z.ltb_lt; exact Hsize).
  unfold bind. rewrite connect_after. fold c.
  rewrite after_calls_app. cbn [app after_calls net calls length Nat.add].
  destruct (net w (S (calls w))) as [reply|code]; [|reflexivity].
  rewrite Henc, write_with_retries_after, after_calls_app.
  cbn [app after_calls net calls length Nat.add].
  destruct (net w (S (S (calls w)))); reflexivity.
Qed.

(** X23: a static write of a block of positive size, whose string
    capacities and offset are not negative, calls [ConnectTo] twice, then
    makes exactly one [DBWrite] carrying the buffer [DBStructure_encode]
    builds for the block, whose length is the computed size of the block.
    It rejects with the error of the connection or of that single write. *)
Theorem static_write_outcome (config : S7DBConfig) (input : S7DBStructure) (w : World) :
  Forall capacity_ok (req_items input) -> 0 <= req_offset input ->
  let d := new_DBStructure input in
  let client := new_S7 config in
  let size := if s7_staticSize client =? 0 then db_size d else s7_staticSize client in
  let c := EvConnect (s7_host client) in
  0 < size ->
  exists buffer,
    DBStructure_encode (db_items d) (db_offset d) = Some (buffer, db_items d)
    /\ Z.of_nat (length buffer) = db_size d
    /\ S7_write_static config input w
       = match net w (S (calls w)) with
         | NetErr code => (Rejected (ConnectFailed code), after_calls [c; c] w)
         | NetOk _ =>
             (match net w (S (S (calls w))) with
              | NetOk _ => Resolved tt
              | NetErr e => Rejected (WriteFailed (db_db d) (db_offset d) size e)
              end,
              after_calls [c; c; EvDBWrite (db_db d) (db_offset d) size buffer] w)
         end.
Proof. apply static_write_run. Qed.

Lemma static_write_outcome_witness :
  fst (S7_write_static plc_config (word_block 1 7) (fresh_world ∅ third_call_fails []))
  = Rejected (WriteFailed 1 0 2 5).
Proof.
  destruct (static_write_outcome plc_config (word_block 1 7)
              (fresh_world ∅ third_call_fails [])) as (buffer & _ & _ & Hrun).
  - unfold word_block. cbn [req_items].
    repeat (apply List.Forall_cons; [unfold capacity_ok; simpl; lia|]). apply List.Forall_nil.
  - simpl. lia.
  - vm_compute. reflexivity.
  - rewrite Hrun. reflexivity.
Defined.

(** ** The admission gate *)

Lemma gate_of_setAvailable host s : gate_of (seq_setAvailable host s) host = free_gate.
Proof. unfold gate_of, seq_setAvailable. rewrite lookup_insert_eq. reflexivity. Qed.

(** The gate loop either finds the gate busy at every check, or runs the
    request and leaves the gate free. *)
Lemma gate_loop_releases {A} (request : M A) host attempts : forall i w,
  gate_of (sequences (snd (gate_loop request host attempts i w))) host = free_gate
  \/ gate_stays_busy host attempts i w.
Proof.
  induction attempts as [|k IH]; intros i w.
  - right. exact I.
  - destruct (before_attempt_spec i w) as (Hd & _ & _).
    destruct (isAvailable_spec host (before_attempt i w)) as (free & Ha & _ & _).
    cbn [gate_loop]. unfold bind at 1. rewrite Hd. unfold bind at 1. rewrite Ha.
    destruct free.
    + left. unfold try_catch, bind.
      destruct (request (snd (isAvailable host (before_attempt i w)))) as [[a|e] w1];
        cbn [setAvailable snd sequences]; unfold setAvailable, throw, ret;
        cbn [snd sequences]; apply gate_of_setAvailable.
    + destruct (IH (i + 1) (snd (isAvailable host (before_attempt i w)))) as [Hfree|Hbusy].
      * left. exact Hfree.
      * right. cbn [gate_stays_busy]. rewrite Ha. split; [reflexivity | exact Hbusy].
Qed.

(** X24: a single-block read or write never leaves the gate of its host
    held.  Either it found the gate busy at each of its twenty checks, and
    then it gave up with the unreachable-peer error without any transport
    call; or it ran, and then the gate is free when it settles, whether it
    resolved or rejected. *)
Theorem gate_is_never_left_held (config : S7DBConfig) (db : S7DBStructure) (w : World) :
  let host := cfg_host config in
  let r := getS7Data_one config db w in
  let s := setS7Data_one config db w in
  (gate_of (sequences (snd r)) host = free_gate
   \/ (fst r = Rejected Unreachable /\ calls (snd r) = calls w))
  /\ (gate_of (sequences (snd s)) host = free_gate
      \/ (fst s = Rejected Unreachable /\ calls (snd s) = calls w)).
Proof.
  cbv zeta. unfold getS7Data_one, setS7Data_one. split.
  - destruct (gate_loop_releases (S7_read_static config db) (cfg_host config) 20 0 w)
      as [Hfree|Hbusy]; [left; exact Hfree | right].
    destruct (gate_loop_busy (S7_read_static config db) _ _ _ _ Hbusy) as (Hr & Hc & _).
    split; assumption.
  - destruct (gate_loop_releases (S7_write_static config db) (cfg_host config) 20 0 w)
      as [Hfree|Hbusy]; [left; exact Hfree | right].
    destruct (gate_loop_busy (S7_write_static config db) _ _ _ _ Hbusy) as (Hr & Hc & _).
    split; assumption.
Qed.

Lemma seq_isAvailable_fst t x s :
  fst (seq_isAvailable t x s) = gate_available (gate_of s x).
Proof. unfold seq_isAvailable. destruct (gate_available (gate_of s x)); reflexivity. Qed.

(** X25: [SequentialRequests] is a test-and-set with a timeout.  Taking a
    free gate at time [t] succeeds; from then on [isAvailable] on the same
    key answers [false] until [timeoutReset] ms have passed, after which it
    answers [true] again; [setAvailable] frees the gate at once; the gates
    of other keys are not touched. *)
Theorem gate_holds_until_released (t : Z) (x : string) (s : gmap string Gate) :
  gate_available (gate_of s x) = true ->
  let s1 := snd (seq_isAvailable t x s) in
  fst (seq_isAvailable t x s) = true
  /\ (forall t', fst (seq_isAvailable t' x (fire_timers t' s1)) = (t + timeoutReset <=? t'))
  /\ (forall t', fst (seq_isAvailable t' x (seq_setAvailable x s1)) = true)
  /\ (forall y, y <> x -> gate_of s1 y = gate_of s y).
Proof.
  intros Hfree. cbv zeta.
  assert (snd (seq_isAvailable t x s)
          = <[x := {| gate_available := false; gate_timeout := Some (t + timeoutReset) |}]> s)
    as -> by (unfold seq_isAvailable; rewrite Hfree; reflexivity).
  split; [rewrite seq_isAvailable_fst; exact Hfree|]. split; [|split].
  - intros t'. rewrite seq_isAvailable_fst. unfold gate_of, fire_timers.
    rewrite lookup_fmap, lookup_insert_eq. cbn [fmap option_fmap option_map default gate_timeout].
    destruct (t + timeoutReset <=? t'); reflexivity.
  - intros t'. rewrite seq_isAvailable_fst, gate_of_setAvailable. reflexivity.
  - intros y Hy. unfold gate_of. rewrite lookup_insert_ne by congruence. reflexivity.
Qed.

Lemma gate_holds_until_released_witness :
  fst (seq_isAvailable 4999 "plc" (fire_timers 4999 (snd (seq_isAvailable 0 "plc" ∅))))
  = false.
Proof.
  exact (proj1 (proj2 (gate_holds_until_released 0 "plc" ∅ eq_refl)) 4999).
Defined.

(** ** The handler *)

Lemma validate_skips need n good rest : forall i,
  Forall (well_formed need) good ->
  validate need n i (good ++ rest) = validate need n (i + length good) rest.
Proof.
  induction good as [|v r IH]; intros i Hgood.
  - cbn [app length]. rewrite Nat.add_0_r. reflexivity.
  - inversion Hgood as [|? ? Hv Hr]; subst. cbn [app length validate].
    destruct v as [[name|] value| |]; try contradiction.
    destruct Hv as [Hname Hvalue]. destruct name as [|c name']; [congruence|].
    replace (i + S (length r))%nat with (S i + length r)%nat by lia.
    destruct value as [x|]; [apply IH, Hr|].
    destruct need; [exfalso; apply Hvalue; reflexivity | apply IH, Hr].
Qed.

Lemma validate_complains need n i bad rest f :
  complaint need bad = Some f -> validate need n i (bad :: rest) = Invalid (f (S i) n).
Proof.
  intros H. cbn [validate]. destruct bad as [[name|] value| |]; cbn [complaint] in H.
  - destruct name as [|c name']; [injection H as <-; reflexivity|].
    destruct value as [x|]; [discriminate|].
    destruct need; [injection H as <-; reflexivity | discriminate].
  - injection H as <-. reflexivity.
  - discriminate.
  - injection H as <-. reflexivity.
Qed.

(** A variable is well-formed, reported, or [null]. *)
Lemma complaint_none need bad :
  complaint need bad = None -> bad <> VarNull -> well_formed need bad.
Proof.
  destruct bad as [[name|] value| |]; cbn [complaint well_formed]; try discriminate.
  - destruct name as [|c name']; [discriminate|].
    destruct value as [x|]; intros H _.
    + split; [discriminate | intros _; discriminate].
    + destruct need; [discriminate|]. split; discriminate.
  - intros _ H. contradiction.
Qed.

(** X26: in either call form, [read] and [write] stop at the first
    variable that is not well-formed, even when well-formed variables
    precede it, and do nothing else.  A variable that is not an object,
    then one without a name, then (for [write]) one without a value is
    reported in the error object the call resolves with, by its position
    counted from one and the number of variables.  A variable that is
    [null] passes the [typeof] test and its destructuring throws: the call
    rejects with that error.  There is no other case. *)
Theorem first_invalid_variable_is_reported (h : Handler) (need : bool)
    (good : list VariableArg) (bad : VariableArg) (rest : list VariableArg)
    (args : CallArgs) (w : World) :
  Forall (well_formed need) good ->
  let variables := good ++ bad :: rest in
  normalise args = Some variables ->
  let i := S (length good) in
  let n := length variables in
  (forall f, complaint need bad = Some f ->
     validate need n 0 variables = Invalid (f i n)
     /\ (need = true -> write h args w = (Resolved (RetError (f i n)), w))
     /\ (need = false -> read h args w = (Resolved (RetError (f i n)), w)))
  /\ (bad = VarNull ->
      validate need n 0 variables = Throws CannotDestructure
      /\ (need = true -> write h args w = (Rejected CannotDestructure, w))
      /\ (need = false -> read h args w = (Rejected CannotDestructure, w)))
  /\ (complaint need bad = None -> bad <> VarNull -> well_formed need bad).
Proof.
  intros Hgood variables Hargs i n.
  split; [|split; [|apply complaint_none]].
  - intros f Hbad.
    assert (validate need n 0 variables = Invalid (f i n)) as Hv.
    { unfold variables. rewrite validate_skips by exact Hgood.
      apply validate_complains, Hbad. }
    split; [exact Hv|]. split; intros ->.
    + unfold write. rewrite Hargs. fold n. rewrite Hv. reflexivity.
    + unfold read. rewrite Hargs. fold n. rewrite Hv. reflexivity.
  - intros ->.
    assert (validate need n 0 variables = Throws CannotDestructure) as Hv.
    { unfold variables. rewrite validate_skips by exact Hgood. reflexivity. }
    split; [exact Hv|]. split; intros ->.
    + unfold write. rewrite Hargs. fold n. rewrite Hv. reflexivity.
    + unfold read. rewrite Hargs. fold n. rewrite Hv. reflexivity.
Qed.

Lemma first_invalid_variable_is_reported_witness :
  let h := PLC_handler plc_config sample_blocks in
  write h (ArgsSpread [VarObject (Some "BYTE_number"%string) (Some (VNum 1));
                       VarObject (Some "INT_number"%string) None]) flaky_world
  = (Resolved (RetError (ValueNotDefined 2 2)), flaky_world)
  /\ read h (ArgsArray [VarObject (Some "BYTE_number"%string) None; VarNull]) flaky_world
     = (Rejected CannotDestructure, flaky_world).
Proof.
  assert (Forall (well_formed true) [VarObject (Some "BYTE_number"%string) (Some (VNum 1))])
    as Hgood.
  { apply List.Forall_cons; [|apply List.Forall_nil]. split; [discriminate|].
    intros _. discriminate. }
  assert (Forall (well_formed false) [VarObject (Some "BYTE_number"%string) None])
    as Hgood'.
  { apply List.Forall_cons; [|apply List.Forall_nil]. split; discriminate. }
  split.
  - exact (proj1 (proj2 (proj1 (first_invalid_variable_is_reported
                                  (PLC_handler plc_config sample_blocks) true _
                                  (VarObject (Some "INT_number"%string) None) []
                                  (ArgsSpread [VarObject (Some "BYTE_number"%string)
                                                         (Some (VNum 1));
                                               VarObject (Some "INT_number"%string) None])
                                  flaky_world Hgood eq_refl)
                                _ eq_refl)) eq_refl).
  - exact (proj2 (proj2 (proj1 (proj2 (first_invalid_variable_is_reported
                                  (PLC_handler plc_config sample_blocks) false _
                                  VarNull []
                                  (ArgsArray [VarObject (Some "BYTE_number"%string) None;
                                              VarNull])
                                  flaky_world Hgood' eq_refl))
                                eq_refl)) eq_refl).
Defined.

(** The first item of a name among annotated items sits where the first
    item of that name sat. *)
Lemma find_annotated name (items items' : list S7DBStructureItem) before item after :
  map item_name items' = map item_name items ->
  items = before ++ item :: after ->
  item_name item = name ->
  Forall (fun it => item_name it <> name) before ->
  exists item',
    items' !! length before = Some item'
    /\ find (fun it => String.eqb name (item_name it)) items' = Some item'.
Proof.
  intros Hnames -> Hname Hbefore. revert items' Hnames.
  induction Hbefore as [|b before Hb _ IH]; intros items' Hnames.
  - destruct items' as [|i' r']; [discriminate|].
    cbn [app map] in Hnames. injection Hnames as Hn _.
    exists i'. split; [reflexivity|]. cbn [find]. rewrite Hn, Hname, String.eqb_refl.
    reflexivity.
  - destruct items' as [|i' r']; [discriminate|].
    cbn [app map] in Hnames. injection Hnames as Hn Hr.
    destruct (IH r' Hr) as (item' & Hlook & Hfind).
    exists item'. split; [exact Hlook|]. cbn [find]. rewrite Hn.
    destruct (String.eqb name (item_name b)) eqn:E; [|exact Hfind].
    apply String.eqb_eq in E. congruence.
Qed.

Lemma find_item_skips name pre rest :
  undeclared pre name -> find_item name (pre ++ rest) = find_item name rest.
Proof.
  induction pre as [|d r IH]; intros Hun; [reflexivity|].
  cbn [app find_item].
  destruct (find (fun item => String.eqb name (item_name item)) (req_items d)) as [item|] eqn:E.
  - exfalso. apply find_some in E as [Hin Heq]. apply String.eqb_eq in Heq.
    apply (Hun d item); [left; reflexivity | exact Hin | congruence].
  - apply IH. intros d' item Hd Hi. apply (Hun d' item); [right; exact Hd | exact Hi].
Qed.

Lemma handler_blocks config pre d post :
  h_datablocks (PLC_handler config (pre ++ d :: post))
  = h_datablocks (PLC_handler config pre)
    ++ {| req_name := req_name d; req_db := req_db d; req_offset := req_offset d;
          req_items := snd (DBStructure_calculateSize (req_items d) (req_offset d)) |}
    :: h_datablocks (PLC_handler config post).
Proof. unfold PLC_handler. cbn [h_datablocks]. rewrite map_app. reflexivity. Qed.

(** The first declaration of a name in a handler, and the requests built
    for it. *)
Lemma first_declaration (config : S7DBConfig)
    (pre : list S7DBStructure) (d : S7DBStructure) (post : list S7DBStructure)
    (before : list S7DBStructureItem) (item : S7DBStructureItem)
    (after : list S7DBStructureItem) (value : S7Value) :
  req_items d = before ++ item :: after ->
  undeclared pre (item_name item) ->
  Forall (fun it => item_name it <> item_name item) before ->
  Forall capacity_ok (req_items d) ->
  let h := PLC_handler config (pre ++ d :: post) in
  exists item' q,
    snd (DBStructure_calculateSize (req_items d) (req_offset d)) !! length before = Some item'
    /\ relative_offsets (req_items d) !! length before = Some q
    /\ item_name item' = item_name item
    /\ item_type item' = Some (normal_type item)
    /\ item_size item' = Some (normal_size item)
    /\ item_offset item' = Some (req_offset d + q)
    /\ read_request (item_name item) (h_datablocks h)
       = [{| req_name := req_name d; req_db := req_db d;
             req_offset := req_offset d + q; req_items := [item'] |}]
    /\ write_request (item_name item) value (h_datablocks h)
       = [{| req_name := req_name d; req_db := req_db d;
             req_offset := req_offset d + q;
             req_items := [{| item_name := item_name item;
                              item_type := Some (normal_type item);
                              item_strlen := item_strlen item';
                              item_size := Some (normal_size item);
                              item_value := value; item_offset := Some 0 |}] |}].
Proof.
  intros Hitems Hpre Hbefore Hcap h.
  destruct (pinned_offsets (req_items d) (req_offset d) Hcap) as (Hoff & Hlen & _ & _).
  pose proof (calc_loop_fields (req_offset d) (req_items d) (0, 0)) as (Hn & _ & Hty & Hsz).
  set (items' := snd (DBStructure_calculateSize (req_items d) (req_offset d))) in *.
  assert (snd (calc_loop (req_offset d) (0, 0) (req_items d)) = items') as Hsame.
  { unfold items', DBStructure_calculateSize.
    destruct (calc_loop (req_offset d) (0, 0) (req_items d)). reflexivity. }
  rewrite Hsame in Hn, Hty, Hsz.
  destruct (find_annotated (item_name item) (req_items d) items' before item after
              Hn Hitems eq_refl Hbefore) as (item' & Hlook & Hfind).
  assert (req_items d !! length before = Some item) as Hlook0
    by (rewrite Hitems; apply list_lookup_middle; reflexivity).
  assert (forall {B} (f : S7DBStructureItem -> B) (g : S7DBStructureItem -> B),
            map f items' = map g (req_items d) -> f item' = g item) as Hfield.
  { intros B f g Hmap.
    assert (map f items' !! length before = map g (req_items d) !! length before) as H
      by (rewrite Hmap; reflexivity).
    change (map f items') with (f <$> items') in H.
    change (map g (req_items d)) with (g <$> req_items d) in H.
    rewrite !list_lookup_fmap, Hlook, Hlook0 in H. injection H as H. exact H. }
  destruct (lookup_lt_is_Some_2 (relative_offsets (req_items d)) (length before)) as [q Hq].
  { rewrite Hlen, Hitems, length_app. cbn [length]. lia. }
  assert (item_offset item' = Some (req_offset d + q)) as Hio.
  { assert (map item_offset items' !! length before = Some (Some (req_offset d + q))) as H.
    { rewrite Hoff. change (map ?f ?l) with (f <$> l). rewrite list_lookup_fmap, Hq.
      reflexivity. }
    change (map item_offset items') with (item_offset <$> items') in H.
    rewrite list_lookup_fmap, Hlook in H. injection H as H. exact H. }
  pose proof (Hfield _ item_name item_name Hn) as Hname.
  pose proof (Hfield _ item_type (fun i => Some (normal_type i)) Hty) as Htype.
  pose proof (Hfield _ item_size (fun i => Some (normal_size i)) Hsz) as Hsize.
  assert (find_item (item_name item) (h_datablocks h)
          = Some ({| req_name := req_name d; req_db := req_db d;
                     req_offset := req_offset d; req_items := items' |}, item')) as Hfi.
  { unfold h. rewrite handler_blocks, find_item_skips by (apply undeclared_pinned, Hpre).
    cbn [find_item req_items]. fold items'. rewrite Hfind. reflexivity. }
  exists item', q. split; [exact Hlook|]. split; [exact Hq|]. split; [exact Hname|]. split; [exact Htype|].
  split; [exact Hsize|]. split; [exact Hio|]. split.
  - unfold read_request. rewrite Hfi. cbn [req_name req_db]. rewrite Hio. reflexivity.
  - unfold write_request. rewrite Hfi. cbn [req_name req_db].
    rewrite Hio, Hname, Htype, Hsize. reflexivity.
Qed.

(** X27: a handler addresses a variable by the first declaration of its
    name: the first item of that name in the first datablock that declares
    one, later declarations being shadowed.  When the string capacities of
    that datablock are not negative, the request of [read] and of
    [write] for the variable is for the block number of that datablock, at
    the offset of the datablock plus the offset of the item in it, and
    carries that single item, annotated; the request of [write] carries it
    with the new value and its own offset reset to zero. *)
Theorem handler_addresses_first_declaration (config : S7DBConfig)
    (pre : list S7DBStructure) (d : S7DBStructure) (post : list S7DBStructure)
    (before : list S7DBStructureItem) (item : S7DBStructureItem)
    (after : list S7DBStructureItem) (value : S7Value) :
  req_items d = before ++ item :: after ->
  undeclared pre (item_name item) ->
  Forall (fun it => item_name it <> item_name item) before ->
  Forall capacity_ok (req_items d) ->
  let h := PLC_handler config (pre ++ d :: post) in
  exists item' q,
    relative_offsets (req_items d) !! length before = Some q
    /\ item_name item' = item_name item
    /\ item_type item' = Some (normal_type item)
    /\ item_size item' = Some (normal_size item)
    /\ item_offset item' = Some (req_offset d + q)
    /\ read_request (item_name item) (h_datablocks h)
       = [{| req_name := req_name d; req_db := req_db d;
             req_offset := req_offset d + q; req_items := [item'] |}]
    /\ write_request (item_name item) value (h_datablocks h)
       = [{| req_name := req_name d; req_db := req_db d;
             req_offset := req_offset d + q;
             req_items := [{| item_name := item_name item;
                              item_type := Some (normal_type item);
                              item_strlen := item_strlen item';
                              item_size := Some (normal_size item);
                              item_value := value; item_offset := Some 0 |}] |}].
Proof.
  intros Hitems Hpre Hbefore Hcap h.
  destruct (first_declaration config pre d post before item after value
              Hitems Hpre Hbefore Hcap) as (item' & q & _ & H).
  exists item', q. exact H.
Qed.

Lemma handler_addresses_first_declaration_witness :
  exists q,
    relative_offsets (req_items (word_block 1 0)) !! 0%nat = Some q
    /\ map req_db (read_request "w" (h_datablocks (PLC_handler plc_config
                                       [word_block 1 0; word_block 2 0]))) = [1].
Proof.
  destruct (handler_addresses_first_declaration plc_config [] (word_block 1 0)
              [word_block 2 0] [] (declare "w" "INT" (VNum 0)) [] VUndef eq_refl)
    as (item' & q & Hq & _ & _ & _ & _ & Hread & _).
  - intros d item Hin. inversion Hin.
  - apply List.Forall_nil.
  - cbn [req_items word_block].
    repeat (apply List.Forall_cons; [unfold capacity_ok; simpl; lia|]). apply List.Forall_nil.
  - exists q. split; [exact Hq|]. cbn [app] in Hread.
    change (item_name (declare "w" "INT" (VNum 0))) with "w"%string in Hread.
    rewrite Hread. reflexivity.
Defined.

(** ** Reading a whole handler into an object *)

Lemma find_upsert own name value k :
  snd <$> find (fun p => String.eqb k (fst p)) (upsert name value own)
  = if String.eqb k name then Some value
    else snd <$> find (fun p => String.eqb k (fst p)) own.
Proof.
  induction own as [|[k' v'] r IH]; cbn [upsert find fst].
  - destruct (String.eqb k name); reflexivity.
  - destruct (String.eqb k' name) eqn:E1; cbn [find fst].
    + apply String.eqb_eq in E1. subst k'.
      destruct (String.eqb k name); reflexivity.
    + destruct (String.eqb k k') eqn:E2.
      * apply String.eqb_eq in E2. subst k'. rewrite E1. reflexivity.
      * exact IH.
Qed.

Lemma get_own_set o name value k :
  k <> "__proto__"%string ->
  get_own (set_property o name value) k
  = if String.eqb k name then Some value else get_own o k.
Proof.
  intros Hk. unfold set_property, get_own.
  destruct (String.eqb name "__proto__") eqn:E.
  - apply String.eqb_eq in E. subst name.
    assert (String.eqb k "__proto__" = false) as -> by (apply String.eqb_neq; exact Hk).
    destruct (is_object value); reflexivity.
  - cbn [obj_own]. apply find_upsert.
Qed.

Lemma get_own_proto o name value :
  get_own o "__proto__" = None -> get_own (set_property o name value) "__proto__" = None.
Proof.
  intros H. unfold set_property.
  destruct (String.eqb name "__proto__") eqn:E.
  - destruct (is_object value); exact H.
  - unfold get_own in *. cbn [obj_own]. rewrite find_upsert.
    rewrite String.eqb_sym, E. exact H.
Qed.

Lemma last_named_cons name x block :
  last_named name (x :: block)
  = match last_named name block with
    | Some v => Some v
    | None => if String.eqb name (output_name x) then Some (output_value x) else None
    end.
Proof.
  unfold last_named. cbn [List.filter].
  destruct (String.eqb name (output_name x)); [|destruct (last _); reflexivity].
  rewrite last_cons. destruct (last _); reflexivity.
Qed.

Lemma fold_set_property block : forall o k,
  k <> "__proto__"%string ->
  get_own (fold_left (fun o x => set_property o (output_name x) (output_value x)) block o) k
  = match last_named k block with
    | Some v => Some v
    | None => get_own o k
    end.
Proof.
  induction block as [|x r IH]; intros o k Hk; [reflexivity|].
  cbn [fold_left]. rewrite IH by exact Hk. rewrite last_named_cons.
  destruct (last_named k r); [reflexivity|].
  rewrite get_own_set by exact Hk.
  destruct (String.eqb k (output_name x)); reflexivity.
Qed.

Lemma fold_keeps_proto block : forall o,
  get_own o "__proto__" = None ->
  get_own (fold_left (fun o x => set_property o (output_name x) (output_value x)) block o)
    "__proto__" = None.
Proof.
  induction block as [|x r IH]; intros o H; [exact H|].
  cbn [fold_left]. apply IH, get_own_proto, H.
Qed.

(** X29: [readAllObject] never rejects: it reads every datablock of the
    handler and resolves with the object [block2object] builds from the
    entries, a carried error counting as an entry without name or value,
    that is, as the name ["undefined"] and the value undefined.  In that
    object the own property of a name holds the value of the last entry
    that carries the name, earlier ones being overwritten; a name carried
    by no entry is not a property; and [__proto__] never becomes an own
    property.  So when no item is called ["undefined"], any number of
    failed blocks leave one property ["undefined"] holding undefined. *)
Theorem readAllObject_keeps_last_values (h : Handler) (w : World) :
  exists results w',
    readAll h w = (Resolved results, w')
    /\ readAllObject h w = (Resolved (block2object results), w')
    /\ (forall name, name <> "__proto__"%string ->
          get_own (block2object results) name = last_named name results)
    /\ get_own (block2object results) "__proto__" = None
    /\ ((forall d, In (OData d) results -> data_name d <> "undefined"%string) ->
        forall e, In (OError e) results ->
        get_own (block2object results) "undefined" = Some VUndef).
Proof.
  destruct (getS7Data_batch_run (h_config h) (h_datablocks h) w)
    as (groups & w' & _ & _ & Hrun).
  exists (concat groups), w'.
  assert (readAll h w = (Resolved (concat groups), w')) as Hall by exact Hrun.
  split; [exact Hall|]. split; [unfold readAllObject, bind; rewrite Hall; reflexivity|].
  assert (forall name, name <> "__proto__"%string ->
            get_own (block2object (concat groups)) name = last_named name (concat groups))
    as Hlast.
  { intros name Hname. unfold block2object. rewrite fold_set_property by exact Hname.
    destruct (last_named name (concat groups)); reflexivity. }
  split; [exact Hlast|]. split; [apply fold_keeps_proto; reflexivity|].
  intros Hnames e Hin. rewrite Hlast by discriminate. unfold last_named.
  set (named := List.filter (fun x => String.eqb "undefined" (output_name x)) (concat groups)).
  assert (In (OError e) named) as Hnamed by (apply List.filter_In; split; [exact Hin | reflexivity]).
  destruct (last named) as [x|] eqn:El.
  - cbn [fmap option_fmap option_map]. f_equal.
    assert (In x named) as Hx by (apply list_elem_of_In, last_Some_elem_of, El).
    apply List.filter_In in Hx as [Hx Hn]. destruct x as [d|e']; [|reflexivity].
    exfalso. apply (Hnames d Hx). cbn [output_name] in Hn.
    apply String.eqb_eq in Hn. congruence.
  - apply last_None in El. rewrite El in Hnamed. destruct Hnamed.
Qed.

(** ** One variable written through the handler *)







